(** * Resale-flat dashboard: filtering, feature derivation, scoring, ranking

    A shallow embedding of the pipeline of [streamlit_app.py]: the loader
    [load_data], [format_price], the [pd.cut] bucketisations
    ([floor_category], [floor_bin]), [lease_bucket], the scoring pass
    ([calculate_value_score], [explain_score]) and the top-20 selection.

    Numbers.  Integer columns ([storey_floor], [remaining_lease_years]) are
    [Z].  Float columns are [pyfloat]: an exact rational or one of the three
    special values of a binary64 float.  Arithmetic on finite values is exact
    (rounding and overflow are not modelled, nor is the sign of zero), except
    for the quotient that [format_price] prints, which is rounded to binary64
    because the rounding decides the text; what
    the special values do under [+ - * /], comparison and Python's [min] and
    [max] is modelled as IEEE 754 and CPython define it, because division by
    zero is silent in pandas and numpy and its results flow through the
    pipeline.

    Exceptions.  A Python function that can raise returns a [result]. *)

From Stdlib Require Import ZArith QArith Qabs Qround Qpower Lqa Lia.
From Stdlib Require Import List String Ascii Bool Sorted Permutation.
Import ListNotations.

Local Open Scope Z_scope.

(** ** Exceptions *)

Inductive exn : Type :=
| ValueError
| OverflowError.

Inductive result (A : Type) : Type :=
| Ok (a : A)
| Raise (e : exn).

Arguments Ok {A} a.
Arguments Raise {A} e.

Definition bind {A B : Type} (r : result A) (k : A -> result B) : result B :=
  match r with
  | Ok a => k a
  | Raise e => Raise e
  end.

Notation "x <- r ;; k" := (bind r (fun x => k))
  (at level 61, r at next level, right associativity).

Fixpoint mapM {A B : Type} (f : A -> result B) (l : list A) : result (list B) :=
  match l with
  | [] => Ok []
  | a :: l' => b <- f a ;; bs <- mapM f l' ;; Ok (b :: bs)
  end.

(** ** Floats *)

Module Float.

Inductive pyfloat : Type :=
| Fin (q : Q)
| PInf
| NInf
| NaN.

Definition of_Z (z : Z) : pyfloat := Fin (inject_Z z).

Definition is_nan (x : pyfloat) : bool :=
  match x with NaN => true | _ => false end.

(** Three-way comparison; [None] when an operand is NaN (every ordered
    comparison with NaN is false). *)
Definition compare (x y : pyfloat) : option comparison :=
  match x, y with
  | NaN, _ | _, NaN => None
  | Fin a, Fin b => Some (a ?= b)%Q
  | NInf, NInf | PInf, PInf => Some Eq
  | NInf, _ | _, PInf => Some Lt
  | PInf, _ | _, NInf => Some Gt
  end.

Definition ltb (x y : pyfloat) : bool :=
  match compare x y with Some Lt => true | _ => false end.

Definition leb (x y : pyfloat) : bool :=
  match compare x y with Some Lt | Some Eq => true | _ => false end.

Definition gtb (x y : pyfloat) : bool := ltb y x.
Definition geb (x y : pyfloat) : bool := leb y x.

Definition opp (x : pyfloat) : pyfloat :=
  match x with
  | Fin a => Fin (Qred (- a))
  | PInf => NInf
  | NInf => PInf
  | NaN => NaN
  end.

Definition add (x y : pyfloat) : pyfloat :=
  match x, y with
  | NaN, _ | _, NaN => NaN
  | Fin a, Fin b => Fin (Qred (a + b))
  | PInf, NInf | NInf, PInf => NaN
  | PInf, _ | _, PInf => PInf
  | NInf, _ | _, NInf => NInf
  end.

Definition sub (x y : pyfloat) : pyfloat :=
  match x, y with
  | NaN, _ | _, NaN => NaN
  | Fin a, Fin b => Fin (Qred (a - b))
  | PInf, PInf | NInf, NInf => NaN
  | PInf, _ | _, NInf => PInf
  | NInf, _ | _, PInf => NInf
  end.

(** Sign of a finite value; zero counts as positive zero. *)
Definition inf_of_sign (negative : bool) : pyfloat :=
  if negative then NInf else PInf.

Definition Qneg (a : Q) : bool :=
  match (a ?= 0)%Q with Lt => true | _ => false end.

Definition Qzero (a : Q) : bool :=
  match (a ?= 0)%Q with Eq => true | _ => false end.

Definition mul (x y : pyfloat) : pyfloat :=
  match x, y with
  | NaN, _ | _, NaN => NaN
  | Fin a, Fin b => Fin (Qred (a * b))
  | Fin a, PInf | PInf, Fin a => if Qzero a then NaN else inf_of_sign (Qneg a)
  | Fin a, NInf | NInf, Fin a => if Qzero a then NaN else inf_of_sign (negb (Qneg a))
  | PInf, PInf | NInf, NInf => PInf
  | PInf, NInf | NInf, PInf => NInf
  end.

(** Division as numpy and pandas perform it: dividing by zero raises nothing,
    it gives an infinity, or NaN for 0/0. *)
Definition div (x y : pyfloat) : pyfloat :=
  match x, y with
  | NaN, _ | _, NaN => NaN
  | Fin a, Fin b =>
      if Qzero b then (if Qzero a then NaN else inf_of_sign (Qneg a))
      else Fin (Qred (a / b))
  | Fin _, PInf | Fin _, NInf => Fin 0
  | PInf, Fin b => inf_of_sign (Qneg b)
  | NInf, Fin b => inf_of_sign (negb (Qneg b))
  | _, _ => NaN
  end.

(** Python's built-in [min(a, b)] and [max(a, b)]: the first argument is kept
    unless the second compares strictly below (above) it. *)
Definition py_min (a b : pyfloat) : pyfloat := if ltb b a then b else a.
Definition py_max (a b : pyfloat) : pyfloat := if gtb b a then b else a.

(** [int(x)]: truncation toward zero; NaN and the infinities raise. *)
Definition py_int (x : pyfloat) : result Z :=
  match x with
  | Fin a => Ok (Z.quot (Qnum a) (Zpos (Qden a)))
  | NaN => Raise ValueError
  | PInf | NInf => Raise OverflowError
  end.

End Float.

Import Float.

Declare Scope pyfloat_scope.
Delimit Scope pyfloat_scope with F.
Bind Scope pyfloat_scope with pyfloat.
Notation "x + y" := (Float.add x y) : pyfloat_scope.
Notation "x - y" := (Float.sub x y) : pyfloat_scope.
Notation "x * y" := (Float.mul x y) : pyfloat_scope.
Notation "x / y" := (Float.div x y) : pyfloat_scope.
Notation "x <? y" := (Float.ltb x y) : pyfloat_scope.
Notation "x >? y" := (Float.gtb x y) : pyfloat_scope.
Notation "x >=? y" := (Float.geb x y) : pyfloat_scope.
Notation "x <=? y" := (Float.leb x y) : pyfloat_scope.

(** A Python integer literal used where a float is expected. *)
Coercion Float.of_Z : Z >-> pyfloat.

(** ** pandas Series reductions *)

Module Series.

Definition dropna (l : list pyfloat) : list pyfloat :=
  filter (fun x => negb (is_nan x)) l.

Fixpoint insert (x : pyfloat) (l : list pyfloat) : list pyfloat :=
  match l with
  | [] => [x]
  | y :: l' => if (x <=? y)%F then x :: l else y :: insert x l'
  end.

Fixpoint sort (l : list pyfloat) : list pyfloat :=
  match l with
  | [] => []
  | x :: l' => insert x (sort l')
  end.

(** [Series.min()] and [Series.max()] skip NaN and give NaN when nothing is
    left (thus on an empty Series). *)
Definition min (l : list pyfloat) : pyfloat :=
  match dropna l with
  | [] => NaN
  | x :: l' => fold_left (fun m y => if (y <? m)%F then y else m) l' x
  end.

Definition max (l : list pyfloat) : pyfloat :=
  match dropna l with
  | [] => NaN
  | x :: l' => fold_left (fun m y => if (y >? m)%F then y else m) l' x
  end.

(** [Series.median()]: NaN is skipped; the middle value of the sorted rest,
    or the mean of the two middle values; NaN when nothing is left. *)
Definition median (l : list pyfloat) : pyfloat :=
  let s := sort (dropna l) in
  let n := List.length s in
  match n with
  | O => NaN
  | _ =>
      if Nat.odd n then nth (n / 2)%nat s NaN
      else ((nth (n / 2 - 1)%nat s NaN + nth (n / 2)%nat s NaN) / 2%Z)%F
  end.

End Series.

(** ** The data *)

(** One line of the CSV file as [pd.read_csv] and [pd.to_datetime] (lines 12
    and 13) leave it, with the columns the pipeline computes on ([month] and
    the other categorical columns are carried along unchanged and play no
    part below). *)
Record CsvRecord : Type := {
  csv_block : string;
  csv_storey_range : string;
  csv_floor_area_sqm : pyfloat;
  csv_remaining_lease : string;
  csv_resale_price : pyfloat
}.

(** A row of the canonical table [df]: the CSV columns and the three columns
    [load_data] adds. *)
Record Row : Type := {
  block : string;
  storey_range : string;
  floor_area_sqm : pyfloat;
  remaining_lease : string;
  resale_price : pyfloat;
  remaining_lease_years : Z;
  storey_floor : Z;
  price_per_sqm : pyfloat
}.

(** ** Load Data *)

(** Text.  A [string] is read as a sequence of code points below 256; among
    those, the class [\d] of Python's [re] holds exactly the ten characters
    0 to 9.  Text with other code points is outside the model. *)
Definition is_digit (c : ascii) : bool :=
  ((48 <=? nat_of_ascii c) && (nat_of_ascii c <=? 57))%nat.

Fixpoint take_digits (s : string) : string :=
  match s with
  | String c s' => if is_digit c then String c (take_digits s') else EmptyString
  | EmptyString => EmptyString
  end.

(** [.str.extract(r'(\d+)')]: the first run of digits, NaN ([None]) when the
    string has none. *)
Fixpoint str_extract (s : string) : option string :=
  match s with
  | EmptyString => None
  | String c s' =>
      if is_digit c then Some (String c (take_digits s')) else str_extract s'
  end.

Fixpoint int_of_digits (acc : Z) (s : string) : Z :=
  match s with
  | EmptyString => acc
  | String c s' => int_of_digits (10 * acc + (Z.of_nat (nat_of_ascii c) - 48)) s'
  end.

(** The largest value of the [int64] that [.astype(int)] converts to. *)
Definition int64_max : Z := 9223372036854775807.

(** [.astype(int)] on one extracted cell: NaN raises [ValueError]; a run of
    digits is read in base ten, and one that does not fit [int64] raises
    [OverflowError]. *)
Definition astype_int (cell : option string) : result Z :=
  match cell with
  | Some digits =>
      let n := int_of_digits 0 digits in
      if n <=? int64_max then Ok n else Raise OverflowError
  | None => Raise ValueError
  end.

(** The row of the canonical table for a record and its two integers; line
    16 divides the two float columns. *)
Definition with_columns (c : CsvRecord) (lease storey : Z) : Row :=
  {| block := csv_block c;
     storey_range := csv_storey_range c;
     floor_area_sqm := csv_floor_area_sqm c;
     remaining_lease := csv_remaining_lease c;
     resale_price := csv_resale_price c;
     remaining_lease_years := lease;
     storey_floor := storey;
     price_per_sqm := (csv_resale_price c / csv_floor_area_sqm c)%F |}.

(** One record through lines 14 to 16. *)
Definition load_row (c : CsvRecord) : result Row :=
  lease <- astype_int (str_extract (csv_remaining_lease c)) ;;
  storey <- astype_int (str_extract (csv_storey_range c)) ;;
  Ok (with_columns c lease storey).

Fixpoint add_columns (csv : list CsvRecord) (leases storeys : list Z)
    : list Row :=
  match csv, leases, storeys with
  | c :: csv', lease :: leases', storey :: storeys' =>
      with_columns c lease storey :: add_columns csv' leases' storeys'
  | _, _, _ => []
  end.

(** Lines 14 to 16, on the records that lines 12 and 13 have read and
    dated.  The source works column by column: line 14 converts the whole
    column [remaining_lease] before line 15 looks at [storey_range], so the
    exception reported is that of the first cell of [remaining_lease] that
    cannot be converted, or else that of the first such cell of
    [storey_range]. *)
Definition load_data (csv : list CsvRecord) : result (list Row) :=
  leases <-
    mapM (fun c => astype_int (str_extract (csv_remaining_lease c))) csv ;;
  storeys <-
    mapM (fun c => astype_int (str_extract (csv_storey_range c))) csv ;;
  Ok (add_columns csv leases storeys).

(** ** Price Formatting *)

Definition digit_char (d : Z) : ascii := ascii_of_nat (48 + Z.to_nat d).

Fixpoint digits_aux (fuel : nat) (n : Z) (acc : string) : string :=
  match fuel with
  | O => acc
  | S fuel' =>
      let acc' := String (digit_char (n mod 10)) acc in
      if n / 10 =? 0 then acc' else digits_aux fuel' (n / 10) acc'
  end.

Fixpoint all_digits (s : string) : bool :=
  match s with
  | EmptyString => true
  | String c s' => is_digit c && all_digits s'
  end.

(** Decimal digits of a non-negative integer. *)
Definition digits (n : Z) : string :=
  digits_aux (S (Z.to_nat (Z.log2 n))) n EmptyString.

(** The low [k] decimal digits of [n], zero padded. *)
Fixpoint frac_digits (k : nat) (n : Z) (acc : string) : string :=
  match k with
  | O => acc
  | S k' => frac_digits k' (n / 10) (String (digit_char (n mod 10)) acc)
  end.

(** Nearest integer to a non-negative rational, ties to even: the rounding
    of the [f] presentation type. *)
Definition round_half_even (q : Q) : Z :=
  let f := Qfloor q in
  match (q - inject_Z f ?= 1 # 2)%Q with
  | Lt => f
  | Gt => f + 1
  | Eq => if Z.even f then f else f + 1
  end.

(** ** Binary64 *)

(** The one place where the text of a result depends on how a float
    operation rounds is [format_price], which prints a quotient; there the
    quotient is rounded as IEEE 754 binary64 division rounds it. *)
Module Binary64.

Definition pow2 (k : Z) : Q := (2 ^ k)%Q.

(** The [k] with [2^k <= a < 2^(k+1)], for a positive [a]. *)
Definition ilog2 (a : Q) : Z :=
  let k := Z.log2 (Qnum a) - Z.log2 (Zpos (Qden a)) in
  if Qle_bool (pow2 k) a then k else k - 1.

(** The exponent of the last place of the binary64 nearest to a positive
    [a]: 53 significant bits, and no finer than [2^-1074]. *)
Definition ulp_exponent (a : Q) : Z := Z.max (ilog2 a - 52) (- 1074).

(** Round to the nearest binary64, ties to the even significand; a result of
    [2^1024] or more overflows to an infinity. *)
Definition round (y : Q) : pyfloat :=
  if Qzero y then Fin 0
  else
    let a := Qabs y in
    let e := ulp_exponent a in
    let m := round_half_even (a * pow2 (- e)) in
    let r := Qred (inject_Z m * pow2 e) in
    if Qle_bool (pow2 1024) r then inf_of_sign (Qneg y)
    else Fin (if Qneg y then Qred (- r) else r).

(** The largest binary64 number. *)
Definition max_value : Q := inject_Z (2 ^ 53 - 1) * pow2 971.

(** [x / y] on binary64 operands. *)
Definition div (x y : pyfloat) : pyfloat :=
  match (x / y)%F with
  | Fin q => round q
  | special => special
  end.

End Binary64.

(** [f"{x:.Nf}"]: the nearest decimal with [ndigits] places to the exact
    value of the float, ties to even. *)
Definition format_fixed (ndigits : nat) (x : pyfloat) : string :=
  match x with
  | NaN => "nan"
  | PInf => "inf"
  | NInf => "-inf"
  | Fin q =>
      let scale := 10 ^ Z.of_nat ndigits in
      let n := round_half_even (Qabs q * inject_Z scale) in
      ((if Qneg q then "-" else "")
       ++ digits (n / scale)
       ++ match ndigits with
          | O => ""
          | _ => "." ++ frac_digits ndigits (n mod scale) ""
          end)%string
  end.

Definition format_price (value : pyfloat) : string :=
  if (value >=? 1000000)%F
  then ("$" ++ format_fixed 2 (Binary64.div value 1000000) ++ "M")%string
  else ("$" ++ format_fixed 0 (Binary64.div value 1000) ++ "k")%string.

(** ** Floor Category & Lease Bucket *)

(** [bins.searchsorted(x, side="left")] for increasing [bins]: how many edges
    lie strictly below [x]. *)
Definition searchsorted_left (bins : list Z) (x : pyfloat) : nat :=
  List.length (filter (fun b => (of_Z b <? x)%F) bins).

(** [pd.cut(x, bins)] with the defaults [right=True], [include_lowest=False]:
    the index of the interval (bins[i], bins[i+1]] that holds [x], NaN
    ([None]) when [x] is at or below the first edge, above the last, or
    NaN. *)
Definition cut (bins : list Z) (x : pyfloat) : option nat :=
  let ids := searchsorted_left bins x in
  if is_nan x || (ids =? List.length bins)%nat || (ids =? 0)%nat then None
  else Some (ids - 1)%nat.

Definition floor_category_bins : list Z := [-1; 9; 20; 100].
Definition floor_category_labels : list string :=
  ["Low (<10)"; "Mid (10-20)"; "High (>20)"]%string.

Definition floor_category (r : Row) : option string :=
  match cut floor_category_bins (of_Z (storey_floor r)) with
  | Some i => nth_error floor_category_labels i
  | None => None
  end.

Definition lease_bucket (x : Z) : string :=
  if x >=? 81 then "81-99 yrs"
  else if x >=? 61 then "61-80 yrs"
  else "0-60 yrs".

(** ** Floor-area bins *)

(** [range(start, stop, step)] for a positive step. *)
Definition py_range (start stop step : Z) : list Z :=
  map (fun k => start + step * Z.of_nat k)
      (seq 0 (Z.to_nat ((stop - start + step - 1) / step))).

Definition floor_bins (filtered : list Row) : result (list Z) :=
  lo <- py_int (Series.min (map floor_area_sqm filtered)) ;;
  hi <- py_int (Series.max (map floor_area_sqm filtered)) ;;
  Ok (py_range lo (hi + 10) 10).

(** The interval label (left, right] of bin [i]. *)
Definition interval (bins : list Z) (i : nat) : Z * Z :=
  (nth i bins 0, nth (S i) bins 0).

(** The column [floor_bin] (lines 147 and 148): one cell per row, [None] for
    NaN. *)
Definition floor_bin (filtered : list Row) : result (list (option (Z * Z))) :=
  bins <- floor_bins filtered ;;
  Ok (map (fun r => option_map (interval bins) (cut bins (floor_area_sqm r)))
          filtered).

(** ** Potential Purchase Scoring *)

Section Scoring.

(** The table [filtered], which the two row functions read as a global. *)
Variable filtered : list Row.

Definition median_psqm : pyfloat := Series.median (map price_per_sqm filtered).

Definition median_floor_area : pyfloat :=
  Series.median (map floor_area_sqm filtered).

(** The score before the final clamp (lines 200 to 207). *)
Definition raw_score (row : Row) : pyfloat :=
  let score : pyfloat := 50 in
  let score :=
    if storey_floor row >? 20 then (score + 5)%F
    else if storey_floor row >=? 10 then (score + 3)%F
    else score in
  let score :=
    if (floor_area_sqm row >? median_floor_area)%F then (score + 5)%F
    else score in
  let score :=
    if (price_per_sqm row <? median_psqm)%F then (score + 15)%F
    else (score - 15 * ((price_per_sqm row - median_psqm) / median_psqm))%F in
  if remaining_lease_years row <? 60 then (score - 25)%F
  else if remaining_lease_years row <? 80 then (score - 10)%F
  else score.

Definition calculate_value_score (row : Row) : pyfloat :=
  py_max (py_min (raw_score row) 100) 0.

Definition explain_score (row : Row) : string :=
  let reasons : list string := [] in
  let reasons :=
    if storey_floor row >? 20 then reasons ++ ["High floor"%string]
    else if storey_floor row >=? 10 then reasons ++ ["Mid floor"%string]
    else reasons in
  let reasons :=
    if (floor_area_sqm row >? median_floor_area)%F
    then reasons ++ ["Spacious"%string] else reasons in
  let reasons :=
    if remaining_lease_years row <? 60
    then reasons ++ ["Low remaining lease"%string] else reasons in
  let reasons :=
    if (price_per_sqm row <? median_psqm)%F
    then reasons ++ ["Good value $/sqm"%string] else reasons in
  String.concat ", " reasons.

End Scoring.

(** A row of [filtered] once the columns "Potential Score" and
    "Why Recommended" are added (lines 219 and 220). *)
Record ScoredRow : Type := {
  row : Row;
  potential_score : pyfloat;
  why_recommended : string
}.

Definition score_row (filtered : list Row) (r : Row) : ScoredRow :=
  {| row := r;
     potential_score := calculate_value_score filtered r;
     why_recommended := explain_score filtered r |}.

Definition score_table (filtered : list Row) : list ScoredRow :=
  map (score_row filtered) filtered.

(** ** Top 20 *)

(** Where [sort_values(..., ascending=False)] may put a score [a] ahead of a
    score [b]: larger scores first, NaN last. *)
Definition ranks_before (a b : pyfloat) : Prop :=
  match b with
  | NaN => True
  | _ => (b <=? a)%F = true
  end.

Definition score_order (x y : ScoredRow) : Prop :=
  ranks_before (potential_score x) (potential_score y).

(** [t.sort_values("Potential Score", ascending=False)].  The call passes no
    [kind], and the default, quicksort, is documented as not stable: the
    result is some rearrangement of the rows in descending score order, and
    pandas promises nothing about the order of rows with equal scores.  The
    call is therefore a relation between the table and a possible result;
    [sort_values], further down, is the call as pandas and the portable numpy
    run it. *)
Definition sort_values_desc (t s : list ScoredRow) : Prop :=
  Permutation t s /\ StronglySorted score_order s.

(** [.head(n)]. *)
Definition head {A : Type} (n : nat) (l : list A) : list A := firstn n l.

Definition top_n (n : nat) (t out : list ScoredRow) : Prop :=
  exists s, sort_values_desc t s /\ out = head n s.

(** Line 223. *)
Definition top20 (t out : list ScoredRow) : Prop := top_n 20 t out.

(** Line 224: the [resale_price] cell of each selected row is replaced by
    its formatted text; rows are neither moved nor dropped. *)
Record DisplayRow : Type := {
  shown : ScoredRow;
  resale_price_text : string
}.

Definition format_top20 (out : list ScoredRow) : list DisplayRow :=
  map (fun r => {| shown := r;
                   resale_price_text := format_price (resale_price (row r)) |})
      out.

(** ** One sort that meets the contract of [sort_values] *)

Definition ranks_beforeb (a b : pyfloat) : bool :=
  match b with
  | NaN => true
  | _ => (b <=? a)%F
  end.

(** Insertion in front of the first row that does not rank strictly higher:
    rows with equal scores keep the order they came in. *)
Fixpoint insert_row (x : ScoredRow) (l : list ScoredRow) : list ScoredRow :=
  match l with
  | [] => [x]
  | y :: l' =>
      if ranks_beforeb (potential_score x) (potential_score y)
      then x :: l
      else y :: insert_row x l'
  end.

Definition stable_sort_desc (t : list ScoredRow) : list ScoredRow :=
  fold_right insert_row [] t.

(** ** The sort as pandas and numpy run it *)

(** numpy's indirect quicksort on doubles ([aquicksort_] of
    [npysort/quicksort.cpp], the portable code path): an introsort that
    partitions around the median of three while a range has more than 17
    elements and finishes each range by insertion sort.  [tosort] is the
    array of indices being arranged, a pointer into it is a position. *)
Module Npy.

(** [DOUBLE_LT]: NaN sorts to the end. *)
Definition less (a b : pyfloat) : bool :=
  (a <? b)%F || (is_nan b && negb (is_nan a)).

(** [l[i] = x]. *)
Fixpoint store {A : Type} (i : nat) (x : A) (l : list A) : list A :=
  match l, i with
  | [], _ => []
  | _ :: l', O => x :: l'
  | y :: l', S i' => y :: store i' x l'
  end.

Definition SMALL_QUICKSORT : nat := 16.

(** [npy_get_msb]: the position of the highest bit set. *)
Definition npy_get_msb (n : nat) : Z := Z.log2 (Z.of_nat n).

Section Argsort.

Variable v : list pyfloat.

(** [v[*p]]. *)
Definition deref (tosort : list nat) (p : nat) : pyfloat :=
  nth (nth p tosort O) v NaN.

Definition INTP_SWAP (tosort : list nat) (p q : nat) : list nat :=
  store q (nth p tosort O) (store p (nth q tosort O) tosort).

(** [do ++pi; while (less(v[*pi], vp))].  The median of three leaves an
    element that is not below the pivot to the right, so the pointer stays
    inside the range; the fuel is the length of the array. *)
Fixpoint scan_up (fuel : nat) (tosort : list nat) (vp : pyfloat) (pi : nat)
    : nat :=
  match fuel with
  | O => pi
  | S fuel' =>
      let pi := S pi in
      if less (deref tosort pi) vp then scan_up fuel' tosort vp pi else pi
  end.

(** [do --pj; while (less(vp, v[*pj]))]. *)
Fixpoint scan_down (fuel : nat) (tosort : list nat) (vp : pyfloat) (pj : nat)
    : nat :=
  match fuel with
  | O => pj
  | S fuel' =>
      let pj := (pj - 1)%nat in
      if less vp (deref tosort pj) then scan_down fuel' tosort vp pj else pj
  end.

(** The loop [for (;;)] of the partition. *)
Fixpoint partition_loop (fuel : nat) (tosort : list nat) (vp : pyfloat)
    (pi pj : nat) : list nat * nat :=
  match fuel with
  | O => (tosort, pi)
  | S fuel' =>
      let pi := scan_up (List.length tosort) tosort vp pi in
      let pj := scan_down (List.length tosort) tosort vp pj in
      if (pj <=? pi)%nat then (tosort, pi)
      else partition_loop fuel' (INTP_SWAP tosort pi pj) vp pi pj
  end.

(** One partition of the range from [pl] to [pr]: the array after it and
    the position of the pivot. *)
Definition partition (tosort : list nat) (pl pr : nat) : list nat * nat :=
  let pm := (pl + (pr - pl) / 2)%nat in
  let tosort :=
    if less (deref tosort pm) (deref tosort pl)
    then INTP_SWAP tosort pm pl else tosort in
  let tosort :=
    if less (deref tosort pr) (deref tosort pm)
    then INTP_SWAP tosort pr pm else tosort in
  let tosort :=
    if less (deref tosort pm) (deref tosort pl)
    then INTP_SWAP tosort pm pl else tosort in
  let vp := deref tosort pm in
  let pi := pl in
  let pj := (pr - 1)%nat in
  let tosort := INTP_SWAP tosort pm pj in
  let '(tosort, pi) :=
    partition_loop (List.length tosort) tosort vp pi pj in
  let pk := (pr - 1)%nat in
  (INTP_SWAP tosort pi pk, pi).

(** [while (pj > pl && less(vp, v[*pk])) *pj-- = *pk--;] with [pk = pj - 1]. *)
Fixpoint shift (fuel : nat) (tosort : list nat) (pl : nat) (vp : pyfloat)
    (pj : nat) : list nat * nat :=
  match fuel with
  | O => (tosort, pj)
  | S fuel' =>
      if (pl <? pj)%nat && less vp (deref tosort (pj - 1))
      then shift fuel' (store pj (nth (pj - 1) tosort O) tosort) pl vp
             (pj - 1)%nat
      else (tosort, pj)
  end.

(** The insertion sort of the range from [pl] to [pr]. *)
Definition insertion_sort (tosort : list nat) (pl pr : nat) : list nat :=
  fold_left
    (fun tosort pi =>
       let vi := nth pi tosort O in
       let vp := nth vi v NaN in
       let '(tosort, pj) := shift (List.length tosort) tosort pl vp pi in
       store pj vi tosort)
    (seq (S pl) (pr - pl)) tosort.

(** [while ((pr - pl) > SMALL_QUICKSORT)]: partition, push the larger part
    with its depth, go on with the smaller. *)
Fixpoint quick_loop (fuel : nat) (tosort : list nat) (pl pr : nat)
    (cdepth : Z) (stack : list (nat * nat * Z))
    : list nat * nat * nat * list (nat * nat * Z) :=
  match fuel with
  | O => (tosort, pl, pr, stack)
  | S fuel' =>
      if (SMALL_QUICKSORT <? pr - pl)%nat then
        let '(tosort, pi) := partition tosort pl pr in
        let cdepth := cdepth - 1 in
        if (pi - pl <? pr - pi)%nat
        then quick_loop fuel' tosort pl (pi - 1)%nat cdepth
               ((S pi, pr, cdepth) :: stack)
        else quick_loop fuel' tosort (S pi) pr cdepth
               ((pl, (pi - 1)%nat, cdepth) :: stack)
      else (tosort, pl, pr, stack)
  end.

(** [while (1)]: one range and then the ranges on the stack.  A range that
    is popped with a negative depth goes to heapsort in numpy; that fallback
    is not modelled, and the result is then [None]. *)
Fixpoint sort_loop (fuel : nat) (tosort : list nat) (pl pr : nat) (cdepth : Z)
    (stack : list (nat * nat * Z)) : option (list nat) :=
  match fuel with
  | O => None
  | S fuel' =>
      if cdepth <? 0 then None
      else
        let '(tosort, pl, pr, stack) :=
          quick_loop (List.length tosort) tosort pl pr cdepth stack in
        let tosort := insertion_sort tosort pl pr in
        match stack with
        | [] => Some tosort
        | (pl', pr', cdepth') :: stack' =>
            sort_loop fuel' tosort pl' pr' cdepth' stack'
        end
  end.

(** [v.argsort(kind="quicksort")]. *)
Definition aquicksort : option (list nat) :=
  let num := List.length v in
  sort_loop (S num) (seq 0 num) 0 (num - 1) (npy_get_msb num * 2) [].

End Argsort.

End Npy.

(** pandas' [nargsort(items, kind="quicksort", ascending=False,
    na_position="last")]: the values that are not NaN are reversed, sorted
    upwards by numpy, and the result is reversed; the positions of the NaN
    follow. *)
Definition nargsort (items : list pyfloat) : option (list nat) :=
  let idx := seq 0 (List.length items) in
  let non_nans := filter (fun x => negb (is_nan x)) items in
  let non_nan_idx := filter (fun i => negb (is_nan (nth i items NaN))) idx in
  let nan_idx := filter (fun i => is_nan (nth i items NaN)) idx in
  let non_nans := rev non_nans in
  let non_nan_idx := rev non_nan_idx in
  match Npy.aquicksort non_nans with
  | Some order =>
      let indexer := map (fun p => nth p non_nan_idx O) order in
      let indexer := rev indexer in
      Some (indexer ++ nan_idx)
  | None => None
  end.

(** [t.sort_values("Potential Score", ascending=False)] as it runs: the rows
    taken in the order of the indexer. *)
Definition sort_values (t : list ScoredRow) : option (list ScoredRow) :=
  match nargsort (map potential_score t) with
  | Some indexer =>
      Some (flat_map (fun i => match nth_error t i with
                               | Some r => [r]
                               | None => []
                               end) indexer)
  | None => None
  end.

(** ** The score as the specification words it *)

(** Section 4.4 of the specification, steps 1 to 5, over exact numbers: the
    definitions below follow the specification's sentences, not the code. *)
Module Spec.

Local Open Scope Q_scope.

Definition floor_bonus (storey_floor : Z) : Q :=
  if (storey_floor >? 20)%Z then 5
  else if (storey_floor >=? 10)%Z then 3
  else 0.

Definition area_bonus (above_median_area : bool) : Q :=
  if above_median_area then 5 else 0.

Definition value_adjustment (price_per_sqm median : Q) : Q :=
  match price_per_sqm ?= median with
  | Lt => 15
  | _ => - (15 * ((price_per_sqm - median) / median))
  end.

Definition lease_penalty (remaining_lease_years : Z) : Q :=
  if (remaining_lease_years <? 60)%Z then - (25)
  else if (remaining_lease_years <? 80)%Z then - (10)
  else 0.

Definition clamp (x lo hi : Q) : Q :=
  match x ?= lo with
  | Lt => lo
  | _ => match hi ?= x with Lt => hi | _ => x end
  end.

Definition score (storey_floor : Z) (above_median_area : bool)
    (price_per_sqm median : Q) (remaining_lease_years : Z) : Q :=
  clamp (50 + floor_bonus storey_floor + area_bonus above_median_area
         + value_adjustment price_per_sqm median
         + lease_penalty remaining_lease_years) 0 100.

End Spec.

(** The float [x] is the finite number [q]. *)
Definition denotes (x : pyfloat) (q : Q) : Prop :=
  exists r, x = Fin r /\ (r == q)%Q.






(** ** Tables used in the statements below *)

Module Examples.

Local Open Scope string_scope.

(** The two records of the end-to-end scenario, as CSV lines and as loaded
    rows. *)
Definition csvA : CsvRecord :=
  {| csv_block := "A"; csv_storey_range := "25 TO 27";
     csv_floor_area_sqm := 120; csv_remaining_lease := "90 years 01 month";
     csv_resale_price := 480000 |}.

Definition csvB : CsvRecord :=
  {| csv_block := "B"; csv_storey_range := "05 TO 07";
     csv_floor_area_sqm := 60; csv_remaining_lease := "55 years";
     csv_resale_price := 360000 |}.

Definition rowA : Row :=
  {| block := "A"; storey_range := "25 TO 27"; floor_area_sqm := 120;
     remaining_lease := "90 years 01 month"; resale_price := 480000;
     remaining_lease_years := 90; storey_floor := 25; price_per_sqm := 4000 |}.

Definition rowB : Row :=
  {| block := "B"; storey_range := "05 TO 07"; floor_area_sqm := 60;
     remaining_lease := "55 years"; resale_price := 360000;
     remaining_lease_years := 55; storey_floor := 5; price_per_sqm := 6000 |}.

Definition scoredA : ScoredRow :=
  {| row := rowA; potential_score := 75;
     why_recommended := "High floor, Spacious, Good value $/sqm" |}.

Definition scoredB : ScoredRow :=
  {| row := rowB; potential_score := 22;
     why_recommended := "Low remaining lease" |}.

(** A row that only differs from another by the columns given. *)
Definition flat (name : string) (storey : Z) (area : pyfloat) (lease : Z)
    (price : pyfloat) : Row :=
  {| block := name; storey_range := ""; floor_area_sqm := area;
     remaining_lease := ""; resale_price := price;
     remaining_lease_years := lease; storey_floor := storey;
     price_per_sqm := (price / area)%F |}.

(** A flat on storey 101. *)
Definition penthouse : Row := flat "P" 101 100 95 900000.

(** Floor areas 60 and 75: the smallest is a whole number. *)
Definition areas_60_75 : list Row :=
  [flat "1" 5 60 70 300000; flat "2" 5 75 70 400000].

(** Floor areas 65, 70 and 95.5: the largest has a fraction. *)
Definition areas_65_955 : list Row :=
  [flat "1" 5 65 70 300000; flat "2" 5 70 70 350000;
   flat "3" 5 (Fin (191 # 2)) 70 500000].



(** A flat recorded with a resale price of 0. *)
Definition free_flat : Row := flat "F" 5 100 70 0.

(** Two flats recorded with negative prices. *)
Definition refund1 : Row := flat "R1" 5 100 70 (-100000).
Definition refund2 : Row := flat "R2" 5 100 70 (-300000).

(** A single ordinary flat: 60 sqm, storey 5, 70 years left, $300k. *)
Definition plain_flat : Row := flat "1" 5 60 70 300000.

(** Eighteen flats with the same score, told apart by their block. *)
Definition tie (name : string) : Row := flat name 12 90 85 450000.

Definition ties : list Row :=
  map tie ["T01"; "T02"; "T03"; "T04"; "T05"; "T06"; "T07"; "T08"; "T09";
           "T10"; "T11"; "T12"; "T13"; "T14"; "T15"; "T16"; "T17"; "T18"].

End Examples.

(** ** The whole table and the sidebar *)

(** A row of [df] with the categorical columns and the month beside the
    columns of [Row].  The column [month] holds the first day of a month;
    [month] counts months ([12 * year + month]), which is all the code needs:
    it compares these dates and steps back by whole months.  A range of dates
    picked in the sidebar is the range of months whose first day it holds.
    The categorical cells are taken to be present (not NaN) and to hold ASCII
    text. *)
Record Listing : Type := {
  columns : Row;
  month : Z;
  town : string;
  flat_type : string;
  flat_model : string;
  street_name : string
}.

(** [str.upper()] on ASCII text. *)
Definition upper_char (c : ascii) : ascii :=
  let n := nat_of_ascii c in
  if ((97 <=? n) && (n <=? 122))%nat then ascii_of_nat (n - 32) else c.

Fixpoint upper (s : string) : string :=
  match s with
  | EmptyString => EmptyString
  | String c s' => String (upper_char c) (upper s')
  end.

(** [x in l] and [Series.isin(l)] on strings. *)
Definition mem (x : string) (l : list string) : bool :=
  existsb (String.eqb x) l.

(** [Series.unique()]: the values in order of first appearance. *)
Fixpoint unique (l : list string) : list string :=
  match l with
  | [] => []
  | x :: l' => x :: filter (fun y => negb (y =? x)%string) (unique l')
  end.

Fixpoint insert_str (x : string) (l : list string) : list string :=
  match l with
  | [] => [x]
  | y :: l' => if String.leb x y then x :: l else y :: insert_str x l'
  end.

(** [sorted(l)] on strings: ascending in code-point order. *)
Definition sorted (l : list string) : list string :=
  fold_right insert_str [] l.

(** [l.index(x)]: the first position of [x]; [ValueError] when absent. *)
Fixpoint index (x : string) (l : list string) : result nat :=
  match l with
  | [] => Raise ValueError
  | y :: l' => if (y =? x)%string then Ok O else i <- index x l' ;; Ok (S i)
  end.

Definition default_town : string := "BUKIT MERAH".
Definition default_flat_type : string := "4 ROOM".
Definition default_flat_models : list string :=
  ["Improved"; "DBSS"; "Standard"; "S1"; "S2"; "Model A"; "Model A2";
   "Simplified"]%string.

(** The options of the Town select box and the index it starts on (lines 44
    to 48); likewise for the Flat Type box (lines 51 to 55). *)
Definition town_options (df : list Listing) : list string :=
  sorted (unique (map town df)).

Definition town_index (df : list Listing) : result nat :=
  index default_town (town_options df).

Definition flat_type_options (df : list Listing) : list string :=
  sorted (unique (map flat_type df)).

Definition flat_type_index (df : list Listing) : result nat :=
  index default_flat_type (flat_type_options df).

Definition flat_model_options (df : list Listing) : list string :=
  sorted (unique (map flat_model df)).

(** *** Flat Model Tiles *)

Section FlatModelTiles.

(** [col.checkbox(model, value=checked)] is Streamlit's: what it returns for
    a column, a label and an initial value is the widget's business. *)
Variable checkbox : nat -> string -> bool -> bool.

Definition num_cols : nat := 2.

(** The loop of lines 73 to 77, from tile [i] on. *)
Fixpoint tiles (i : nat) (options state : list string) : list string :=
  match options with
  | [] => []
  | model :: rest =>
      let checked := mem model state in
      if checkbox (i mod num_cols) model checked
      then model :: tiles (S i) rest state
      else tiles (S i) rest state
  end.

(** Lines 64 to 78: the session state on entry ([None] when the key is not
    yet there), the two buttons, and the list [selected_flat_models] that the
    run ends with (it is also the next session state). *)
Definition selected_flat_models (session : option (list string))
    (select_all deselect_all : bool) (options : list string) : list string :=
  let state :=
    match session with
    | None => filter (fun m => mem m default_flat_models) options
    | Some l => l
    end in
  let state := if select_all then options else state in
  let state := if deselect_all then [] else state in
  tiles 0 options state.

End FlatModelTiles.

(** *** Sliders *)

(** A float that is a number. *)
Definition finite (x : pyfloat) : Prop := exists q, x = Fin q.

(** The two ends a slider is created with, and its initial value (lines 81
    to 83): [int(col.min())] and [int(col.max())]. *)
Definition slider_default (col : list pyfloat) : result (Z * Z) :=
  lo <- py_int (Series.min col) ;;
  hi <- py_int (Series.max col) ;;
  Ok (lo, hi).

Definition storey_slider (df : list Listing) : result (Z * Z) :=
  slider_default (map (fun r => of_Z (storey_floor (columns r))) df).

Definition floor_area_slider (df : list Listing) : result (Z * Z) :=
  slider_default (map (fun r => floor_area_sqm (columns r)) df).

Definition lease_slider (df : list Listing) : result (Z * Z) :=
  slider_default (map (fun r => of_Z (remaining_lease_years (columns r))) df).

(** *** Filter Data *)

(** What the sidebar hands to the filter. *)
Module Sidebar.

Record t : Type := {
  town : string;
  flat_type : string;
  selected_flat_models : list string;
  storey_range : Z * Z;
  floor_area_range : Z * Z;
  lease_range : Z * Z;
  month_range : Z * Z
}.

End Sidebar.

(** [Series.between(left, right)], both ends included. *)
Definition between (x left right : Z) : bool := (left <=? x) && (x <=? right).

Definition between_float (x : pyfloat) (left right : Z) : bool :=
  (x >=? of_Z left)%F && (x <=? of_Z right)%F.

(** The mask of lines 91 to 97 on one row. *)
Definition mask (s : Sidebar.t) (r : Listing) : bool :=
  (upper (town r) =? upper (Sidebar.town s))%string
  && (upper (flat_type r) =? upper (Sidebar.flat_type s))%string
  && mem (flat_model r) (Sidebar.selected_flat_models s)
  && between (storey_floor (columns r))
       (fst (Sidebar.storey_range s)) (snd (Sidebar.storey_range s))
  && between_float (floor_area_sqm (columns r))
       (fst (Sidebar.floor_area_range s)) (snd (Sidebar.floor_area_range s))
  && between (remaining_lease_years (columns r))
       (fst (Sidebar.lease_range s)) (snd (Sidebar.lease_range s))
  && between (month r)
       (fst (Sidebar.month_range s)) (snd (Sidebar.month_range s)).

(** [filtered = df[mask].copy()]. *)
Definition filter_data (s : Sidebar.t) (df : list Listing) : list Listing :=
  filter (mask s) df.

(** *** Charts by floor category *)

(** [filtered[filtered["floor_category"] == cat]] (line 118); a row without a
    category equals none. *)
Definition df_cat (cat : string) (filtered : list Row) : list Row :=
  filter (fun r => match floor_category r with
                   | Some c => (c =? cat)%string
                   | None => false
                   end) filtered.

(** *** Average resale price by street *)

(** [Series.sum()], [count()] and [mean()]: NaN is skipped; the mean of
    nothing is NaN.  The sum and the quotient are exact here, while pandas
    computes them in binary64: of the mean, only what does not depend on the
    rounding is stated below. *)
Definition series_sum (l : list pyfloat) : pyfloat :=
  fold_left Float.add (Series.dropna l) (of_Z 0).

Definition series_count (l : list pyfloat) : nat :=
  List.length (Series.dropna l).

Definition series_mean (l : list pyfloat) : pyfloat :=
  match series_count l with
  | O => NaN
  | n => (series_sum l / of_Z (Z.of_nat n))%F
  end.

Record StreetStat : Type := {
  street : string;
  avg_price : pyfloat;
  count : nat;
  avg_price_k : pyfloat
}.

(** Lines 181 and 182: one line per street, streets in sorted order. *)
Definition street_stats (filtered : list Listing) : list StreetStat :=
  map (fun s =>
         let prices :=
           map (fun r => resale_price (columns r))
               (filter (fun r => (street_name r =? s)%string) filtered) in
         {| street := s;
            avg_price := series_mean prices;
            count := series_count prices;
            avg_price_k := (series_mean prices / 1000)%F |})
      (sorted (unique (map street_name filtered))).

(** *** The displayed score *)

(** [.astype(int)] on a float cell (line 236): truncation toward zero; a
    NaN or infinite cell raises. *)
Definition astype_int_float (x : pyfloat) : result Z :=
  match x with
  | Fin a => Ok (Z.quot (Qnum a) (Zpos (Qden a)))
  | _ => Raise ValueError
  end.

(** The column "Potential Score" of [top20_display]. *)
Definition top20_display (top : list ScoredRow) : result (list Z) :=
  mapM (fun r => astype_int_float (potential_score r)) top.

(** Lines 227 to 230. *)
Definition score_color (val : pyfloat) : string :=
  if (val >=? 75)%F then "background-color: #2ECC71"
  else if (val >=? 50)%F then "background-color: #F1C40F"
  else "background-color: #E74C3C".


(** *** Floor-area bins as text *)

(** [str] of a Python integer. *)
Definition int_str (z : Z) : string :=
  if z <? 0 then ("-" ++ digits (- z))%string else digits z.

(** [str] of a right-closed interval with integer ends. *)
Definition interval_str (iv : Z * Z) : string :=
  ("(" ++ int_str (fst iv) ++ ", " ++ int_str (snd iv) ++ "]")%string.

(** One cell of [floor_bin_str] (line 149): [astype(str)] writes a missing
    bin as "nan". *)
Definition floor_bin_str (cell : option (Z * Z)) : string :=
  match cell with
  | Some iv => interval_str iv
  | None => "nan"%string
  end.

(** No character of [s] is [c]. *)
Fixpoint lacks (c : ascii) (s : string) : bool :=
  match s with
  | EmptyString => true
  | String x s' => negb (Ascii.eqb x c) && lacks c s'
  end.

(** *** The palette of the charts *)

(** [color_palette] (line 114), a dict from lease bucket to colour, and
    [dict.get]. *)
Definition color_palette : list (string * string) :=
  [("0-60 yrs", "#FFA600"); ("61-80 yrs", "#4ECDC4");
   ("81-99 yrs", "#FF6B6B")]%string.

Fixpoint lookup (k : string) (d : list (string * string)) : option string :=
  match d with
  | [] => None
  | (k', v) :: d' => if (k' =? k)%string then Some v else lookup k d'
  end.

(** *** The sidebar as a whole *)

(** [df["month"].max()] (line 84); NaT ([None]) on an empty table. *)
Definition latest_month (df : list Listing) : option Z :=
  match map month df with
  | [] => None
  | m :: ms => Some (fold_left Z.max ms m)
  end.

Section SidebarRun.

(** Streamlit's widgets: what each returns for its label and arguments is
    the user's doing.  [selectbox label options index], [button label],
    [checkbox column label value], [slider label min max value] and
    [date_input label value]. *)
Variable selectbox : string -> list string -> nat -> string.
Variable button : string -> bool.
Variable checkbox : nat -> string -> bool -> bool.
Variable slider : string -> Z -> Z -> Z * Z -> Z * Z.
Variable date_input : string -> Z * Z -> Z * Z.

(** Lines 44 to 85, top to bottom.  The last branch is not reached: on an
    empty table line 47 has raised. *)
Definition sidebar (session : option (list string)) (df : list Listing)
    : result Sidebar.t :=
  i <- town_index df ;;
  let town := selectbox "Town" (town_options df) i in
  j <- flat_type_index df ;;
  let flat_type := selectbox "Flat Type" (flat_type_options df) j in
  let select_all := button "Select All" in
  let deselect_all := button "Deselect All" in
  let selected :=
    selected_flat_models checkbox session select_all deselect_all
      (flat_model_options df) in
  storey <- storey_slider df ;;
  let storey_range := slider "Storey Range" (fst storey) (snd storey) storey in
  area <- floor_area_slider df ;;
  let floor_area_range :=
    slider "Floor Area (sqm)" (fst area) (snd area) area in
  lease <- lease_slider df ;;
  let lease_range :=
    slider "Remaining Lease (Years)" (fst lease) (snd lease) lease in
  match latest_month df with
  | Some latest =>
      let month_range := date_input "Month Sold Range" (latest - 12, latest) in
      Ok {| Sidebar.town := town; Sidebar.flat_type := flat_type;
            Sidebar.selected_flat_models := selected;
            Sidebar.storey_range := storey_range;
            Sidebar.floor_area_range := floor_area_range;
            Sidebar.lease_range := lease_range;
            Sidebar.month_range := month_range |}
  | None => Raise ValueError
  end.

End SidebarRun.

(** ** Tables and sidebars used in the statements below *)

Module Samples.

Local Open Scope string_scope.

Definition listing (r : Row) (m : Z) (town flat_type flat_model street : string)
    : Listing :=
  {| columns := r; month := m; town := town; flat_type := flat_type;
     flat_model := flat_model; street_name := street |}.

(** Rows A and B of the scenario as two sales in Bukit Merah, one month
    apart, the second with its town in mixed case. *)
Definition saleA : Listing :=
  listing Examples.rowA 24200 "BUKIT MERAH" "4 ROOM" "Improved" "JLN BUKIT MERAH".

Definition saleB : Listing :=
  listing Examples.rowB 24201 "Bukit Merah" "4 ROOM" "Model A" "HENDERSON RD".

(** A five-room flat elsewhere, with a floor area of 95.5 sqm. *)
Definition saleC : Listing :=
  listing (Examples.flat "C" 11 (Fin (191 # 2)) 93 700000)
    24195 "QUEENSTOWN" "5 ROOM" "Improved" "HENDERSON RD".

Definition df3 : list Listing := [saleA; saleB; saleC].

(** A sidebar whose ranges span the three sales. *)
Definition wide : Sidebar.t :=
  {| Sidebar.town := "BUKIT MERAH"; Sidebar.flat_type := "4 ROOM";
     Sidebar.selected_flat_models := ["Improved"; "Model A"];
     Sidebar.storey_range := (5, 25); Sidebar.floor_area_range := (60, 120);
     Sidebar.lease_range := (55, 93); Sidebar.month_range := (24189, 24201) |}.

(** The same sidebar with no flat model ticked. *)
Definition none_ticked : Sidebar.t :=
  {| Sidebar.town := "BUKIT MERAH"; Sidebar.flat_type := "4 ROOM";
     Sidebar.selected_flat_models := [];
     Sidebar.storey_range := (5, 25); Sidebar.floor_area_range := (60, 120);
     Sidebar.lease_range := (55, 93); Sidebar.month_range := (24189, 24201) |}.

(** Four flat models as the tiles list them. *)
Definition four_models : list string :=
  ["DBSS"; "Improved"; "Model A"; "Terrace"].

(** A check box that returns the value it is created with. *)
Definition untouched (col : nat) (label : string) (value : bool) : bool := value.

(** Widgets nobody has touched: each returns what it is created with. *)
Definition selectbox_untouched (label : string) (options : list string)
    (index : nat) : string := nth index options "".

Definition button_untouched (label : string) : bool := false.

Definition slider_untouched (label : string) (lo hi : Z) (value : Z * Z)
    : Z * Z := value.

Definition date_input_untouched (label : string) (value : Z * Z) : Z * Z :=
  value.

End Samples.


(** * Properties *)

(** ** Facts about floats *)

Module FloatFacts.

Lemma compare_of_Z (a b : Z) :
  Float.compare (of_Z a) (of_Z b) = Some (a ?= b).
Proof.
  unfold Float.compare, of_Z, Qcompare; simpl.
  now rewrite !Z.mul_1_r.
Qed.

Lemma ltb_of_Z (a b : Z) : (of_Z a <? of_Z b)%F = (a <? b).
Proof.
  unfold Float.ltb; rewrite compare_of_Z; unfold Z.ltb.
  now destruct (a ?= b).
Qed.

Lemma leb_of_Z (a b : Z) : (of_Z a <=? of_Z b)%F = (a <=? b).
Proof.
  unfold Float.leb; rewrite compare_of_Z; unfold Z.leb.
  now destruct (a ?= b).
Qed.

Lemma ltb_Fin (a b : Q) : (Fin a <? Fin b)%F = true <-> (a < b)%Q.
Proof.
  unfold Float.ltb; simpl. rewrite Qlt_alt.
  destruct (a ?= b)%Q; split; congruence.
Qed.

Lemma leb_Fin (a b : Q) : (Fin a <=? Fin b)%F = true <-> (a <= b)%Q.
Proof.
  unfold Float.leb; simpl. rewrite Qle_alt.
  destruct (a ?= b)%Q; split; congruence.
Qed.

Lemma ltb_Fin_false (a b : Q) : (Fin a <? Fin b)%F = false <-> (b <= a)%Q.
Proof.
  rewrite <- not_true_iff_false, ltb_Fin. split.
  - apply Qnot_lt_le.
  - apply Qle_not_lt.
Qed.

Lemma Qzero_true (a : Q) : Qzero a = true <-> (a == 0)%Q.
Proof.
  unfold Qzero. rewrite Qeq_alt. destruct (a ?= 0)%Q; split; congruence.
Qed.

Lemma Qzero_false (a : Q) : Qzero a = false <-> ~ (a == 0)%Q.
Proof.
  rewrite <- Qzero_true. destruct (Qzero a); split; congruence.
Qed.

Lemma Qneg_true (a : Q) : Qneg a = true <-> (a < 0)%Q.
Proof.
  unfold Qneg. rewrite Qlt_alt. destruct (a ?= 0)%Q; split; congruence.
Qed.

End FloatFacts.

Import FloatFacts.

(** ** Lease bucket *)

(** C5.  Every number of remaining lease years (non-negative or not) gets
    exactly one of the three buckets: "0-60 yrs" up to 60, "61-80 yrs" from
    61 to 80, "81-99 yrs" from 81 on; the three labels are distinct, and the
    boundary values 60, 61, 80 and 81 fall as documented. *)
Theorem lease_bucket_partition (x : Z) :
  ((x <= 60 /\ lease_bucket x = "0-60 yrs"%string)
   \/ (61 <= x <= 80 /\ lease_bucket x = "61-80 yrs"%string)
   \/ (81 <= x /\ lease_bucket x = "81-99 yrs"%string))
  /\ "0-60 yrs"%string <> "61-80 yrs"%string
  /\ "0-60 yrs"%string <> "81-99 yrs"%string
  /\ "61-80 yrs"%string <> "81-99 yrs"%string
  /\ lease_bucket 60 = "0-60 yrs"%string
  /\ lease_bucket 61 = "61-80 yrs"%string
  /\ lease_bucket 80 = "61-80 yrs"%string
  /\ lease_bucket 81 = "81-99 yrs"%string.
Proof.
  split; [| repeat split; (reflexivity || discriminate)].
  unfold lease_bucket.
  destruct (Z.geb_spec x 81) as [H81 | H81].
  - right; right; split; [lia | reflexivity].
  - destruct (Z.geb_spec x 61) as [H61 | H61].
    + right; left; split; [lia | reflexivity].
    + left; split; [lia | reflexivity].
Qed.

(** ** Floor category *)

Lemma floor_category_cases (r : Row) :
  floor_category r =
    if storey_floor r <=? -1 then None
    else if storey_floor r <=? 9 then Some "Low (<10)"%string
    else if storey_floor r <=? 20 then Some "Mid (10-20)"%string
    else if storey_floor r <=? 100 then Some "High (>20)"%string
    else None.
Proof.
  unfold floor_category, cut, searchsorted_left, floor_category_bins.
  cbn [filter]. rewrite !ltb_of_Z.
  destruct (Z.leb_spec (storey_floor r) (-1)), (Z.leb_spec (storey_floor r) 9),
    (Z.leb_spec (storey_floor r) 20), (Z.leb_spec (storey_floor r) 100);
    try lia;
    destruct (Z.ltb_spec (-1) (storey_floor r)), (Z.ltb_spec 9 (storey_floor r)),
      (Z.ltb_spec 20 (storey_floor r)), (Z.ltb_spec 100 (storey_floor r));
    try lia; reflexivity.
Qed.

(** C4, as the code has it.  The category is fixed by [storey_floor] alone:
    0 to 9 gives "Low (<10)", 10 to 20 gives "Mid (10-20)", 21 to 100 gives
    "High (>20)"; a storey above 100 (or below 0) is outside the bins of
    [pd.cut] and gets no category. *)
Theorem floor_category_piecewise (r : Row) :
  floor_category r =
    if (0 <=? storey_floor r) && (storey_floor r <=? 9)
    then Some "Low (<10)"%string
    else if (10 <=? storey_floor r) && (storey_floor r <=? 20)
    then Some "Mid (10-20)"%string
    else if (21 <=? storey_floor r) && (storey_floor r <=? 100)
    then Some "High (>20)"%string
    else None.
Proof.
  rewrite floor_category_cases.
  destruct (Z.leb_spec (storey_floor r) (-1)), (Z.leb_spec (storey_floor r) 9),
    (Z.leb_spec (storey_floor r) 20), (Z.leb_spec (storey_floor r) 100),
    (Z.leb_spec 0 (storey_floor r)), (Z.leb_spec 10 (storey_floor r)),
    (Z.leb_spec 21 (storey_floor r)); try lia; reflexivity.
Qed.

(** C4 fails as stated: a row on storey 101 has a non-negative storey above
    20 and receives no category at all. *)
Lemma floor_category_above_100 :
  0 <= storey_floor Examples.penthouse
  /\ 20 < storey_floor Examples.penthouse
  /\ floor_category Examples.penthouse = None.
Proof. repeat split; vm_compute; congruence. Qed.

(** ** Floor-area bins *)

(** C7, on the code.  With no row left after filtering, [min()] of the empty
    column is NaN and [int(NaN)] raises [ValueError] at line 147: neither the
    bin edges nor the [floor_bin] column is produced. *)
Theorem floor_bin_empty_raises :
  Series.min (map floor_area_sqm []) = NaN
  /\ floor_bins [] = Raise ValueError
  /\ floor_bin [] = Raise ValueError.
Proof. repeat split. Qed.

(** C6, on the code.  [pd.cut] is called with its defaults, so every bin is
    open on the left and the first edge is [int(min)]: when the smallest
    floor area is a whole number the rows attaining it get no bin (areas 60
    and 75 give edges 60, 70, 80; the scenario table of C1 gives edges 60 to
    120).  The last edge is the largest [int(min) + 10 k] below
    [int(max) + 10], which can be [int(max)] itself: a largest area of 95.5
    with smallest 65 gives edges 65, 75, 85, 95 and no bin for 95.5. *)
Theorem floor_bin_misses_extremes :
  floor_bins Examples.areas_60_75 = Ok [60; 70; 80]
  /\ floor_bin Examples.areas_60_75 = Ok [None; Some (70, 80)]
  /\ floor_bin [Examples.rowA; Examples.rowB] = Ok [Some (110, 120); None]
  /\ floor_bins Examples.areas_65_955 = Ok [65; 75; 85; 95]
  /\ floor_bin Examples.areas_65_955 = Ok [None; Some (65, 75); None].
Proof. repeat split. Qed.

Module BinFacts.

Lemma filter_all {A : Type} (p : A -> bool) (l : list A) :
  (forall x, In x l -> p x = true) -> filter p l = l.
Proof.
  induction l as [| x l IH]; intros H; simpl; [reflexivity |].
  rewrite (H x (or_introl eq_refl)), IH; [reflexivity |].
  intros y Hy. apply H. now right.
Qed.

Lemma filter_none {A : Type} (p : A -> bool) (l : list A) :
  (forall x, In x l -> p x = false) -> filter p l = [].
Proof.
  induction l as [| x l IH]; intros H; simpl; [reflexivity |].
  rewrite (H x (or_introl eq_refl)). apply IH.
  intros y Hy. apply H. now right.
Qed.

Lemma py_range_length (start stop step : Z) :
  List.length (py_range start stop step)
  = Z.to_nat ((stop - start + step - 1) / step).
Proof. unfold py_range. now rewrite length_map, length_seq. Qed.

Lemma py_range_nth (start stop step : Z) (k : nat) :
  (k < List.length (py_range start stop step))%nat ->
  nth k (py_range start stop step) 0 = start + step * Z.of_nat k.
Proof.
  intros Hk. rewrite py_range_length in Hk. unfold py_range.
  rewrite (nth_indep _ 0 (start + step * Z.of_nat 0))
    by now rewrite length_map, length_seq.
  rewrite (map_nth (fun k => start + step * Z.of_nat k)).
  now rewrite seq_nth.
Qed.

(** The number of edges lying strictly below a value that falls in bin [k]
    of the grid. *)
Lemma searchsorted_left_grid (start step : Z) (n k : nat) (a : Q) :
  0 < step ->
  (S k < n)%nat ->
  (inject_Z (start + step * Z.of_nat k) < a)%Q ->
  (a <= inject_Z (start + step * Z.of_nat (S k)))%Q ->
  searchsorted_left
    (map (fun j => start + step * Z.of_nat j) (seq 0 n)) (Fin a) = S k.
Proof.
  intros Hstep Hk Hlo Hhi. unfold searchsorted_left.
  replace n with (S k + (n - S k))%nat by lia.
  rewrite seq_app, map_app, filter_app, length_app.
  rewrite filter_all, filter_none.
  - rewrite length_map, length_seq. simpl. lia.
  - intros x Hx. apply in_map_iff in Hx. destruct Hx as (j & <- & Hj).
    apply in_seq in Hj. apply ltb_Fin_false.
    eapply Qle_trans; [exact Hhi |]. rewrite <- Zle_Qle. nia.
  - intros x Hx. apply in_map_iff in Hx. destruct Hx as (j & <- & Hj).
    apply in_seq in Hj. apply ltb_Fin.
    eapply Qle_lt_trans; [| exact Hlo]. rewrite <- Zle_Qle. nia.
Qed.

Lemma cut_grid (start stop step : Z) (k : nat) (a : Q) :
  0 < step ->
  (S k < List.length (py_range start stop step))%nat ->
  (inject_Z (start + step * Z.of_nat k) < a)%Q ->
  (a <= inject_Z (start + step * Z.of_nat (S k)))%Q ->
  option_map (interval (py_range start stop step))
    (cut (py_range start stop step) (Fin a))
  = Some (start + step * Z.of_nat k, start + step * Z.of_nat (S k)).
Proof.
  intros Hstep Hk Hlo Hhi. unfold cut.
  pose proof Hk as Hlen. rewrite py_range_length in Hlen.
  assert (E : searchsorted_left (py_range start stop step) (Fin a) = S k)
    by (unfold py_range; now apply searchsorted_left_grid).
  rewrite E.
  cbn [is_nan orb].
  destruct (Nat.eqb_spec (S k) (List.length (py_range start stop step)));
    [lia |].
  cbn [Nat.eqb orb option_map]. unfold interval.
  rewrite Nat.sub_1_r. cbn [Nat.pred].
  now rewrite !py_range_nth by lia.
Qed.

End BinFacts.

(** X1.  Where the bins do work: when [int(min)] is [lo] and [int(max)] is
    [hi], the edges are [lo, lo + 10, ...] below [hi + 10], and a row whose
    floor area lies in (lo + 10 k, lo + 10 k + 10], that upper edge being one
    of the edges, gets exactly that interval as its [floor_bin]. *)
Theorem floor_bin_on_grid (filtered : list Row) (lo hi : Z) (r : Row) (a : Q)
    (k : nat) :
  py_int (Series.min (map floor_area_sqm filtered)) = Ok lo ->
  py_int (Series.max (map floor_area_sqm filtered)) = Ok hi ->
  floor_area_sqm r = Fin a ->
  lo + 10 * Z.of_nat (S k) < hi + 10 ->
  (inject_Z (lo + 10 * Z.of_nat k) < a)%Q ->
  (a <= inject_Z (lo + 10 * Z.of_nat (S k)))%Q ->
  let bins := py_range lo (hi + 10) 10 in
  let cell := fun r => option_map (interval bins) (cut bins (floor_area_sqm r)) in
  floor_bins filtered = Ok bins
  /\ floor_bin filtered = Ok (map cell filtered)
  /\ cell r = Some (lo + 10 * Z.of_nat k, lo + 10 * Z.of_nat (S k)).
Proof.
  intros Hlo Hhi Ha Hedge Hgt Hle bins cell.
  assert (Ebins : floor_bins filtered = Ok bins)
    by (unfold floor_bins; now rewrite Hlo, Hhi).
  split; [exact Ebins |]. split.
  - unfold floor_bin. now rewrite Ebins.
  - unfold cell, bins. rewrite Ha. apply BinFacts.cut_grid; try assumption.
    + lia.
    + rewrite BinFacts.py_range_length.
      assert (Z.of_nat (S (S k)) <= (hi + 10 - lo + 10 - 1) / 10).
      { apply Z.div_le_lower_bound; lia. }
      lia.
Qed.

(** The theorem applies to the flat of 75 sqm in the table of areas 60 and
    75: edges 60, 70, 80 and bin (70, 80]. *)
Lemma floor_bin_on_grid_witness :
  floor_bins Examples.areas_60_75 = Ok (py_range 60 85 10)
  /\ floor_bin Examples.areas_60_75
     = Ok (map (fun r => option_map (interval (py_range 60 85 10))
                           (cut (py_range 60 85 10) (floor_area_sqm r)))
               Examples.areas_60_75)
  /\ option_map (interval (py_range 60 85 10))
       (cut (py_range 60 85 10)
          (floor_area_sqm (Examples.flat "2" 5 75 70 400000)))
     = Some (70, 80).
Proof.
  apply (floor_bin_on_grid Examples.areas_60_75 60 75
           (Examples.flat "2" 5 75 70 400000) 75 1).
  - reflexivity.
  - reflexivity.
  - reflexivity.
  - simpl; lia.
  - reflexivity.
  - unfold Qle; simpl; lia.
Defined.

(** ** The end-to-end scenario *)

Lemma sorted_pair_inv (a b : ScoredRow) :
  StronglySorted score_order [a; b] -> score_order a b.
Proof.
  intros H. inversion H as [| x l _ Hall]; subst.
  now inversion Hall.
Qed.

Lemma sorted_pair (a b : ScoredRow) :
  score_order a b -> StronglySorted score_order [a; b].
Proof.
  intros H. repeat constructor. exact H.
Qed.

(** C1.  The two CSV records load as rows A and B; over the table of the two
    the median floor area is 90 and the median price per sqm is 5000; A
    scores 75 with rationale "High floor, Spacious, Good value $/sqm" and B
    scores 22 with rationale "Low remaining lease"; and taking the top 2
    (or the top 20) of the scored table gives A then B, whichever way round
    the two rows enter. *)
Theorem scenario_9 :
  load_data [Examples.csvA; Examples.csvB] = Ok [Examples.rowA; Examples.rowB]
  /\ median_floor_area [Examples.rowA; Examples.rowB] = Fin 90
  /\ median_psqm [Examples.rowA; Examples.rowB] = Fin 5000
  /\ score_table [Examples.rowA; Examples.rowB]
     = [Examples.scoredA; Examples.scoredB]
  /\ score_table [Examples.rowB; Examples.rowA]
     = [Examples.scoredB; Examples.scoredA]
  /\ (forall out,
        top_n 2 (score_table [Examples.rowA; Examples.rowB]) out
        <-> out = [Examples.scoredA; Examples.scoredB])
  /\ (forall out,
        top_n 2 (score_table [Examples.rowB; Examples.rowA]) out
        <-> out = [Examples.scoredA; Examples.scoredB])
  /\ (forall out,
        top20 (score_table [Examples.rowA; Examples.rowB]) out
        <-> out = [Examples.scoredA; Examples.scoredB]).
Proof.
  assert (Hab : score_order Examples.scoredA Examples.scoredB)
    by (vm_compute; reflexivity).
  assert (Hba : ~ score_order Examples.scoredB Examples.scoredA)
    by (vm_compute; discriminate).
  assert (Hrank : forall n t out,
            (n = 2 \/ n = 20)%nat ->
            Permutation t [Examples.scoredA; Examples.scoredB] ->
            top_n n t out <-> out = [Examples.scoredA; Examples.scoredB]).
  { intros n t out Hn Ht. split.
    - intros (s & (Hperm & Hsorted) & ->).
      assert (Hs : Permutation [Examples.scoredA; Examples.scoredB] s)
        by (now rewrite <- Ht).
      apply Permutation_length_2_inv in Hs. destruct Hs as [-> | ->].
      + destruct Hn as [-> | ->]; reflexivity.
      + apply sorted_pair_inv in Hsorted. contradiction.
    - intros ->. exists [Examples.scoredA; Examples.scoredB].
      split; [split; [exact Ht | now apply sorted_pair] |].
      destruct Hn as [-> | ->]; reflexivity. }
  assert (Et : score_table [Examples.rowA; Examples.rowB]
               = [Examples.scoredA; Examples.scoredB]) by (vm_compute; reflexivity).
  assert (Et' : score_table [Examples.rowB; Examples.rowA]
                = [Examples.scoredB; Examples.scoredA]) by (vm_compute; reflexivity).
  split; [vm_compute; reflexivity |].
  split; [vm_compute; reflexivity |].
  split; [vm_compute; reflexivity |].
  split; [exact Et |]. split; [exact Et' |].
  rewrite Et, Et'. unfold top20.
  split; [| split]; intros out; apply Hrank; auto.
  apply perm_swap.
Qed.

(** ** The loader *)

Lemma mapM_Forall2 {A B : Type} (f : A -> result B) (l : list A) (t : list B) :
  mapM f l = Ok t -> Forall2 (fun a b => f a = Ok b) l t.
Proof.
  revert t. induction l as [| a l IH]; intros t H; simpl in H.
  - injection H as <-. constructor.
  - destruct (f a) as [b |] eqn:Ea; simpl in H; [| discriminate].
    destruct (mapM f l) as [bs |] eqn:El; simpl in H; [| discriminate].
    injection H as <-. constructor; auto.
Qed.

Lemma mapM_total {A B : Type} (f : A -> result B) (l : list A) :
  (forall a, In a l -> exists b, f a = Ok b) -> exists t, mapM f l = Ok t.
Proof.
  induction l as [| a l IH]; intros H; simpl.
  - now exists [].
  - destruct (H a (or_introl eq_refl)) as [b ->].
    destruct IH as [t ->]; [intros; apply H; now right |].
    now exists (b :: t).
Qed.


Lemma astype_int_Ok (cell : string) (n : Z) :
  astype_int (str_extract cell) = Ok n
  <-> exists d, str_extract cell = Some d /\ int_of_digits 0 d = n
                /\ n <= int64_max.
Proof.
  unfold astype_int. destruct (str_extract cell) as [d |]; cbv zeta.
  - destruct (Z.leb_spec (int_of_digits 0 d) int64_max) as [Hle | Hgt]; split.
    + intros H. injection H as <-. eauto.
    + intros (d' & E & <- & _). congruence.
    + discriminate.
    + intros (d' & E & <- & Hle). injection E as ->. lia.
  - split; [discriminate | intros (d & E & _); discriminate].
Qed.



(** Column by column or record by record, a table that loads is the same. *)
Lemma load_data_by_rows (csv : list CsvRecord) (t : list Row) :
  load_data csv = Ok t <-> mapM load_row csv = Ok t.
Proof.
  unfold load_data. revert t. induction csv as [| c csv IH]; intros t.
  - reflexivity.
  - cbn [mapM]. unfold load_row at 1.
    destruct (astype_int (str_extract (csv_remaining_lease c))) as [l |];
      destruct (mapM (fun c0 => astype_int (str_extract (csv_remaining_lease c0)))
                  csv) as [ls |];
      destruct (astype_int (str_extract (csv_storey_range c))) as [st |];
      destruct (mapM (fun c0 => astype_int (str_extract (csv_storey_range c0)))
                  csv) as [ss |];
      cbn [bind add_columns] in *;
      destruct (mapM load_row csv) as [rs |] eqn:E; cbn [bind];
      try (split; discriminate);
      try (pose proof (proj2 (IH rs) eq_refl) as H2; discriminate H2);
      try (pose proof (proj1 (IH _) eq_refl) as H1; discriminate H1).
    pose proof (proj2 (IH rs) eq_refl) as H2. injection H2 as <-. reflexivity.
Qed.








Lemma mapM_exn {A B : Type} (f : A -> result B) (l : list A) (e : exn) :
  mapM f l = Raise e -> exists a, In a l /\ f a = Raise e.
Proof.
  induction l as [| a l IH]; simpl; intros H; [discriminate |].
  destruct (f a) as [b |] eqn:Ea; simpl in H.
  - destruct (mapM f l) as [bs |] eqn:El; simpl in H; [discriminate |].
    destruct (IH H) as (a' & Hin & Ha'). exists a'. auto.
  - exists a. split; [now left | congruence].
Qed.





(** ** Ranking *)

Module Ranking.

Lemma ranks_beforeb_spec (a b : pyfloat) :
  ranks_beforeb a b = true <-> ranks_before a b.
Proof. unfold ranks_beforeb, ranks_before. destruct b; tauto. Qed.

Lemma leb_total (a b : pyfloat) :
  is_nan a = false -> is_nan b = false ->
  (a <=? b)%F = true \/ (b <=? a)%F = true.
Proof.
  destruct a as [p | | |], b as [q | | |]; simpl; try discriminate;
    intros _ _; auto.
  rewrite !leb_Fin. destruct (Qlt_le_dec p q); [left | right]; auto.
  now apply Qlt_le_weak.
Qed.

Lemma leb_trans (a b c : pyfloat) :
  (a <=? b)%F = true -> (b <=? c)%F = true -> (a <=? c)%F = true.
Proof.
  destruct a as [p | | |], b as [q | | |], c as [r | | |];
    try (cbv; congruence); try reflexivity.
  rewrite !leb_Fin. apply Qle_trans.
Qed.

Lemma leb_not_nan (a b : pyfloat) :
  (a <=? b)%F = true -> is_nan a = false /\ is_nan b = false.
Proof. destruct a, b; cbv; auto; discriminate. Qed.

Lemma ranks_before_total (a b : pyfloat) : ranks_before a b \/ ranks_before b a.
Proof.
  destruct (is_nan b) eqn:Eb; [left; now destruct b |].
  destruct (is_nan a) eqn:Ea; [right; now destruct a |].
  destruct (leb_total a b Ea Eb); [right | left];
    unfold ranks_before; [destruct a | destruct b]; try discriminate; auto.
Qed.

Lemma ranks_before_trans (a b c : pyfloat) :
  ranks_before a b -> ranks_before b c -> ranks_before a c.
Proof.
  intros Hab Hbc. destruct (is_nan c) eqn:Ec; [now destruct c |].
  assert (Hcb : (c <=? b)%F = true) by (destruct c; auto; discriminate).
  destruct (leb_not_nan _ _ Hcb) as [_ Eb].
  assert (Hba : (b <=? a)%F = true) by (destruct b; auto; discriminate).
  pose proof (leb_trans _ _ _ Hcb Hba) as Hca.
  unfold ranks_before. now destruct c.
Qed.

Lemma score_order_trans (x y z : ScoredRow) :
  score_order x y -> score_order y z -> score_order x z.
Proof. apply ranks_before_trans. Qed.

Lemma insert_row_perm (x : ScoredRow) (l : list ScoredRow) :
  Permutation (x :: l) (insert_row x l).
Proof.
  induction l as [| y l IH]; simpl; [reflexivity |].
  destruct (ranks_beforeb _ _); [reflexivity |].
  rewrite perm_swap. now constructor.
Qed.

Lemma insert_row_sorted (x : ScoredRow) (l : list ScoredRow) :
  StronglySorted score_order l -> StronglySorted score_order (insert_row x l).
Proof.
  induction l as [| y l IH]; intros Hs; simpl.
  - repeat constructor.
  - inversion Hs as [| ? ? Hl Hy]; subst.
    destruct (ranks_beforeb _ _) eqn:E.
    + apply ranks_beforeb_spec in E. constructor; [exact Hs |].
      constructor; [exact E |].
      eapply Forall_impl; [| exact Hy].
      intros z. now apply score_order_trans.
    + constructor; [now apply IH |].
      rewrite <- insert_row_perm. constructor; [| exact Hy].
      destruct (ranks_before_total (potential_score x) (potential_score y))
        as [H | H]; [| exact H].
      apply ranks_beforeb_spec in H. congruence.
Qed.

Lemma stable_sort_desc_meets_contract (t : list ScoredRow) :
  sort_values_desc t (stable_sort_desc t).
Proof.
  unfold sort_values_desc, stable_sort_desc.
  induction t as [| x t [IHp IHs]]; simpl.
  - split; constructor.
  - split; [| now apply insert_row_sorted].
    rewrite <- insert_row_perm. now constructor.
Qed.

Lemma sorted_app_inv (l1 l2 : list ScoredRow) :
  StronglySorted score_order (l1 ++ l2) ->
  StronglySorted score_order l1
  /\ forall x y, In x l1 -> In y l2 -> score_order x y.
Proof.
  induction l1 as [| a l1 IH]; simpl; intros H.
  - split; [constructor | intros x y []].
  - inversion H as [| ? ? Hs Ha]; subst.
    destruct (IH Hs) as [IH1 IH2].
    apply Forall_app in Ha. destruct Ha as [Ha1 Ha2].
    split; [now constructor |].
    intros x y [<- | Hx] Hy; [| now apply IH2].
    rewrite Forall_forall in Ha2. now apply Ha2.
Qed.

End Ranking.

(** C3, as the code has it.  The top-20 step always has a result; any result
    holds the first 20 rows of a descending-score arrangement of the table:
    it has [min 20 (length t)] rows, in descending score order (NaN last),
    each ranking at least as high as every row left out, and it holds every
    row when the table has at most 20.  Nothing is promised about the order
    of rows with equal scores. *)
Theorem top20_sorted_truncated (t : list ScoredRow) :
  (exists out, top20 t out)
  /\ forall out, top20 t out ->
       List.length out = Nat.min 20 (List.length t)
       /\ StronglySorted score_order out
       /\ (exists rest,
             Permutation t (out ++ rest)
             /\ forall x y, In x out -> In y rest -> score_order x y)
       /\ ((List.length t <= 20)%nat -> Permutation t out).
Proof.
  split.
  - exists (head 20 (stable_sort_desc t)), (stable_sort_desc t).
    split; [apply Ranking.stable_sort_desc_meets_contract | reflexivity].
  - intros out (s & (Hperm & Hsorted) & ->). unfold head.
    rewrite <- (firstn_skipn 20 s) in Hsorted.
    apply Ranking.sorted_app_inv in Hsorted. destruct Hsorted as [Hs Hcut].
    split; [| split; [exact Hs | split]].
    + rewrite length_firstn. now rewrite (Permutation_length Hperm).
    + exists (skipn 20 s). split; [now rewrite firstn_skipn | exact Hcut].
    + intros Hlen. rewrite firstn_all2; [exact Hperm |].
      now rewrite <- (Permutation_length Hperm).
Qed.

(** Rows with one and the same score are in descending order however they
    are arranged. *)
Lemma equal_scores_sorted (q : Q) (l : list ScoredRow) :
  Forall (fun x => potential_score x = Fin q) l ->
  StronglySorted score_order l.
Proof.
  induction 1 as [| x l Hx Hl IH]; constructor; [exact IH |].
  apply Forall_forall. intros y Hy. rewrite Forall_forall in Hl.
  unfold score_order, ranks_before. rewrite Hx, (Hl y Hy).
  apply leb_Fin. apply Qle_refl.
Qed.

(** C3 fails as stated.  Eighteen flats with the same score (53) enter the
    table as T01 to T18.  pandas sorts downwards by reversing the column,
    sorting it upwards with numpy's quicksort and reversing the result; on
    eighteen equal scores the quicksort partitions once and exchanges
    elements that compare equal, so the rows T03 to T17 come out in reverse:
    T17 is listed before T03, against their order in the input.  The top 20
    is the whole sorted table, and it is one of the results the contract of
    [sort_values] admits. *)
Lemma top20_ties_may_swap :
  map (fun x => block (row x)) (score_table Examples.ties)
  = ["T01"; "T02"; "T03"; "T04"; "T05"; "T06"; "T07"; "T08"; "T09"; "T10";
     "T11"; "T12"; "T13"; "T14"; "T15"; "T16"; "T17"; "T18"]%string
  /\ Forall (fun x => potential_score x = Fin 53) (score_table Examples.ties)
  /\ exists s,
       sort_values (score_table Examples.ties) = Some s
       /\ s = firstn 2 (score_table Examples.ties)
              ++ rev (firstn 15 (skipn 2 (score_table Examples.ties)))
              ++ skipn 17 (score_table Examples.ties)
       /\ map (fun x => block (row x)) (head 20 s)
          = ["T01"; "T02"; "T17"; "T16"; "T15"; "T14"; "T13"; "T12"; "T11";
             "T10"; "T09"; "T08"; "T07"; "T06"; "T05"; "T04"; "T03";
             "T18"]%string
       /\ top20 (score_table Examples.ties) (head 20 s).
Proof.
  assert (Hscores : Forall (fun x => potential_score x = Fin 53)
                      (score_table Examples.ties)).
  { apply Forall_forall. intros x Hx. vm_compute in Hx.
    repeat (destruct Hx as [<- | Hx]; [reflexivity |]). destruct Hx. }
  split; [vm_compute; reflexivity |]. split; [exact Hscores |].
  set (t := score_table Examples.ties) in *.
  exists (firstn 2 t ++ rev (firstn 15 (skipn 2 t)) ++ skipn 17 t).
  split; [vm_compute; reflexivity |]. split; [reflexivity |].
  split; [vm_compute; reflexivity |].
  assert (Hperm : Permutation t
                    (firstn 2 t ++ rev (firstn 15 (skipn 2 t)) ++ skipn 17 t)).
  { rewrite <- (firstn_skipn 2 t) at 1. apply Permutation_app_head.
    rewrite <- (firstn_skipn 15 (skipn 2 t)) at 1.
    rewrite skipn_skipn. cbn [Nat.add].
    apply Permutation_app_tail. apply Permutation_rev. }
  exists (firstn 2 t ++ rev (firstn 15 (skipn 2 t)) ++ skipn 17 t).
  split; [split; [exact Hperm |] | vm_compute; reflexivity].
  apply (equal_scores_sorted 53).
  exact (Permutation_Forall Hperm Hscores).
Qed.

(** ** Scoring *)

Module ScoreFacts.

Local Open Scope Q_scope.

Lemma denotes_Fin (q : Q) : denotes (Fin q) q.
Proof. exists q. split; reflexivity. Qed.

Lemma denotes_of_Z (z : Z) : denotes (of_Z z) (inject_Z z).
Proof. apply denotes_Fin. Qed.

Lemma denotes_add (x y : pyfloat) (a b : Q) :
  denotes x a -> denotes y b -> denotes (x + y)%F (a + b).
Proof.
  intros (r & -> & Hr) (s & -> & Hs). eexists; split; [reflexivity |].
  now rewrite Qred_correct, Hr, Hs.
Qed.

Lemma denotes_sub (x y : pyfloat) (a b : Q) :
  denotes x a -> denotes y b -> denotes (x - y)%F (a - b).
Proof.
  intros (r & -> & Hr) (s & -> & Hs). eexists; split; [reflexivity |].
  now rewrite Qred_correct, Hr, Hs.
Qed.

Lemma denotes_mul (x y : pyfloat) (a b : Q) :
  denotes x a -> denotes y b -> denotes (x * y)%F (a * b).
Proof.
  intros (r & -> & Hr) (s & -> & Hs). eexists; split; [reflexivity |].
  now rewrite Qred_correct, Hr, Hs.
Qed.

Lemma denotes_div (x y : pyfloat) (a b : Q) :
  ~ b == 0 -> denotes x a -> denotes y b -> denotes (x / y)%F (a / b).
Proof.
  intros Hb (r & -> & Hr) (s & -> & Hs). unfold Float.div.
  assert (Hz : Qzero s = false) by (apply Qzero_false; now rewrite Hs).
  rewrite Hz. eexists; split; [reflexivity |].
  now rewrite Qred_correct, Hr, Hs.
Qed.

Lemma denotes_ext (x : pyfloat) (a b : Q) : a == b -> denotes x a -> denotes x b.
Proof. intros E (r & -> & Hr). exists r. split; [reflexivity | now rewrite Hr]. Qed.

Lemma ltb_Fin_compare (p m : Q) :
  (Fin p <? Fin m)%F = match p ?= m with Lt => true | _ => false end.
Proof. reflexivity. Qed.

(** The unclamped sum of the code is the sum of the specification's five
    terms, whenever the value adjustment divides by a non-zero median. *)
Lemma raw_score_denotes (filtered : list Row) (row : Row) (p m : Q) :
  price_per_sqm row = Fin p ->
  median_psqm filtered = Fin m ->
  ~ m == 0 ->
  denotes (raw_score filtered row)
    (50 + Spec.floor_bonus (storey_floor row)
     + Spec.area_bonus (floor_area_sqm row >? median_floor_area filtered)%F
     + Spec.value_adjustment p m
     + Spec.lease_penalty (remaining_lease_years row)).
Proof.
  intros Hp Hm Hm0. unfold raw_score. rewrite Hp, Hm, ltb_Fin_compare.
  assert (H50 : denotes (of_Z 50) 50) by apply denotes_of_Z.
  assert (Hfloor : denotes
            (if (storey_floor row >? 20)%Z then (of_Z 50 + of_Z 5)%F
             else if (storey_floor row >=? 10)%Z then (of_Z 50 + of_Z 3)%F
             else of_Z 50)
            (50 + Spec.floor_bonus (storey_floor row))).
  { unfold Spec.floor_bonus.
    destruct (storey_floor row >? 20)%Z; [| destruct (storey_floor row >=? 10)%Z].
    - apply denotes_add; [exact H50 | apply denotes_of_Z].
    - apply denotes_add; [exact H50 | apply denotes_of_Z].
    - eapply denotes_ext; [| exact H50]. ring. }
  set (s1 := if (storey_floor row >? 20)%Z then _ else _) in *.
  assert (Harea : denotes
            (if (floor_area_sqm row >? median_floor_area filtered)%F
             then (s1 + of_Z 5)%F else s1)
            (50 + Spec.floor_bonus (storey_floor row)
             + Spec.area_bonus
                 (floor_area_sqm row >? median_floor_area filtered)%F)).
  { unfold Spec.area_bonus.
    destruct (floor_area_sqm row >? median_floor_area filtered)%F.
    - apply denotes_add; [exact Hfloor | apply denotes_of_Z].
    - eapply denotes_ext; [| exact Hfloor]. ring. }
  set (s2 := if (floor_area_sqm row >? median_floor_area filtered)%F
             then _ else _) in *.
  assert (Hvalue : denotes
            (if match p ?= m with Lt => true | _ => false end
             then (s2 + of_Z 15)%F
             else (s2 - of_Z 15 * ((Fin p - Fin m) / Fin m))%F)
            (50 + Spec.floor_bonus (storey_floor row)
             + Spec.area_bonus
                 (floor_area_sqm row >? median_floor_area filtered)%F
             + Spec.value_adjustment p m)).
  { assert (Hpen : denotes (of_Z 15 * ((Fin p - Fin m) / Fin m))%F
                     (15 * ((p - m) / m))).
    { apply denotes_mul; [apply denotes_of_Z |].
      apply denotes_div; [exact Hm0 | | apply denotes_Fin].
      apply denotes_sub; apply denotes_Fin. }
    unfold Spec.value_adjustment. destruct (p ?= m).
    - eapply denotes_ext; [| apply denotes_sub; [exact Harea | exact Hpen]].
      ring.
    - apply denotes_add; [exact Harea | apply denotes_of_Z].
    - eapply denotes_ext; [| apply denotes_sub; [exact Harea | exact Hpen]].
      ring. }
  set (s3 := if match p ?= m with Lt => true | _ => false end then _ else _)
    in *.
  unfold Spec.lease_penalty.
  destruct (remaining_lease_years row <? 60)%Z;
    [| destruct (remaining_lease_years row <? 80)%Z].
  - eapply denotes_ext; [| apply denotes_sub; [exact Hvalue | apply denotes_of_Z]].
    ring.
  - eapply denotes_ext; [| apply denotes_sub; [exact Hvalue | apply denotes_of_Z]].
    ring.
  - eapply denotes_ext; [| exact Hvalue]. ring.
Qed.

Lemma clamp_bounds (q : Q) : 0 <= Spec.clamp q 0 100 <= 100.
Proof.
  unfold Spec.clamp.
  destruct (Qcompare_spec q 0); try lra;
    destruct (Qcompare_spec 100 q); lra.
Qed.

Lemma clamp_upper (q u : Q) : q <= u -> 0 <= u -> Spec.clamp q 0 100 <= u.
Proof.
  intros Hq Hu. unfold Spec.clamp.
  destruct (Qcompare_spec q 0); try lra;
    destruct (Qcompare_spec 100 q); lra.
Qed.

Lemma clamp_comp (r q : Q) :
  r == q -> Spec.clamp r 0 100 == Spec.clamp q 0 100.
Proof.
  intros E. unfold Spec.clamp.
  destruct (Qcompare_spec r 0), (Qcompare_spec q 0); try lra;
    destruct (Qcompare_spec 100 r), (Qcompare_spec 100 q); lra.
Qed.

(** Python's [max(min(score, 100), 0)] on a finite score is the clamp. *)
Lemma py_clamp_Fin (r : Q) :
  denotes (py_max (py_min (Fin r) (of_Z 100)) (of_Z 0)) (Spec.clamp r 0 100).
Proof.
  unfold py_min, py_max, gtb, Spec.clamp.
  change (of_Z 100) with (Fin 100). change (of_Z 0) with (Fin 0).
  rewrite ltb_Fin_compare.
  destruct (Qcompare_spec 100 r) as [E | L | G]; rewrite ltb_Fin_compare.
  - destruct (Qcompare_spec r 0); try lra; apply denotes_Fin.
  - destruct (Qcompare_spec 100 0); try lra.
    destruct (Qcompare_spec r 0); try lra. apply denotes_Fin.
  - destruct (Qcompare_spec r 0); try lra; apply denotes_Fin.
Qed.

Lemma py_clamp_denotes (x : pyfloat) (q : Q) :
  denotes x q ->
  denotes (py_max (py_min x (of_Z 100)) (of_Z 0)) (Spec.clamp q 0 100).
Proof.
  intros (r & -> & Hr).
  eapply denotes_ext; [apply clamp_comp; exact Hr | apply py_clamp_Fin].
Qed.

End ScoreFacts.

(** The code's score of a row is the specification's score, for a finite
    price per sqm against a finite non-zero median. *)
Lemma calculate_value_score_refines (filtered : list Row) (row : Row) (p m : Q) :
  price_per_sqm row = Fin p ->
  median_psqm filtered = Fin m ->
  ~ (m == 0)%Q ->
  exists s,
    calculate_value_score filtered row = Fin s
    /\ (s == Spec.score (storey_floor row)
              (floor_area_sqm row >? median_floor_area filtered)%F
              p m (remaining_lease_years row))%Q.
Proof.
  intros Hp Hm Hm0.
  pose proof (ScoreFacts.raw_score_denotes filtered row p m Hp Hm Hm0) as Hraw.
  apply ScoreFacts.py_clamp_denotes in Hraw.
  destruct Hraw as (s & Hs & Es). now exists s.
Qed.

(** Against a finite, non-zero median price per sqm, the score of a row with
    a finite price per sqm is a number in [0, 100]: the clamp to [0, 100] of
    the base 50 plus the floor bonus, the area bonus, the value adjustment
    and the lease penalty of the specification. *)
Lemma score_is_clamped_sum (filtered : list Row) (row : Row) (p m : Q) :
  price_per_sqm row = Fin p ->
  median_psqm filtered = Fin m ->
  ~ (m == 0)%Q ->
  exists s,
    calculate_value_score filtered row = Fin s
    /\ (s == Spec.score (storey_floor row)
              (floor_area_sqm row >? median_floor_area filtered)%F
              p m (remaining_lease_years row))%Q
    /\ (0 <= s <= 100)%Q.
Proof.
  intros Hp Hm Hm0.
  destruct (calculate_value_score_refines filtered row p m Hp Hm Hm0) as (s & Hs & Es).
  exists s. split; [exact Hs |]. split; [exact Es |].
  rewrite Es. apply ScoreFacts.clamp_bounds.
Qed.

(** What [max(min(score, 100), 0)] does to each kind of float: a number is
    clamped, the infinities go to 100 and to 0, and NaN comes back as NaN,
    because every comparison with NaN is false. *)
Lemma py_clamp_cases (x : pyfloat) :
  match x with
  | NaN => py_max (py_min x 100) 0 = NaN
  | _ => exists s, py_max (py_min x 100) 0 = Fin s /\ (0 <= s <= 100)%Q
  end.
Proof.
  destruct x as [r | | |].
  - destruct (ScoreFacts.py_clamp_Fin r) as (s & Es & Hs).
    exists s. split; [exact Es |]. rewrite Hs. apply ScoreFacts.clamp_bounds.
  - exists 100%Q. split; [reflexivity | lra].
  - exists 0%Q. split; [reflexivity | lra].
  - reflexivity.
Qed.

(** C2.  The clamp of line 208 is meant to keep every score within
    [0, 100], and does so for every sum that is a number or an infinity; but
    it lets NaN through: the score of a row is NaN exactly when the sum
    before the clamp is NaN, and is otherwise a number from 0 to 100.  The
    sum is NaN for the row of a subset that holds one flat recorded with a
    price of 0: the median price per sqm is 0, the value adjustment is 0/0,
    and the score, NaN, is neither at least 0 nor at most 100. *)
Theorem score_nan_escapes_clamp :
  (forall filtered row,
     calculate_value_score filtered row = NaN
     <-> raw_score filtered row = NaN)
  /\ (forall filtered row,
        raw_score filtered row <> NaN ->
        exists s,
          calculate_value_score filtered row = Fin s /\ (0 <= s <= 100)%Q)
  /\ In Examples.free_flat [Examples.free_flat]
  /\ price_per_sqm Examples.free_flat = Fin 0
  /\ median_psqm [Examples.free_flat] = Fin 0
  /\ raw_score [Examples.free_flat] Examples.free_flat = NaN
  /\ calculate_value_score [Examples.free_flat] Examples.free_flat = NaN
  /\ (0 <=? NaN)%F = false
  /\ (NaN <=? 100)%F = false.
Proof.
  split; [| split].
  - intros filtered row. unfold calculate_value_score.
    pose proof (py_clamp_cases (raw_score filtered row)) as H.
    destruct (raw_score filtered row) as [r | | |].
    + destruct H as (s & -> & _). split; discriminate.
    + destruct H as (s & -> & _). split; discriminate.
    + destruct H as (s & -> & _). split; discriminate.
    + now rewrite H.
  - intros filtered row Hraw. unfold calculate_value_score.
    pose proof (py_clamp_cases (raw_score filtered row)) as H.
    destruct (raw_score filtered row) as [r | | |];
      [exact H | exact H | exact H | contradiction].
  - repeat split. now left.
Qed.

Module MedianFacts.









End MedianFacts.

Lemma value_adjustment_at_most_15 (p m : Q) :
  (0 < m)%Q -> (Spec.value_adjustment p m <= 15)%Q.
Proof.
  intros Hm. unfold Spec.value_adjustment.
  destruct (Qcompare_spec p m) as [E | L | G]; try lra.
  - assert (0 <= (p - m) / m)%Q by (apply Qle_shift_div_l; lra). lra.
  - assert (0 <= (p - m) / m)%Q by (apply Qle_shift_div_l; lra). lra.
Qed.

(** Against a positive finite median price per sqm, no row with a finite
    price per sqm scores above 75 (base 50, at most 5 for the floor, 5 for
    the area and 15 for the value): the upper bound 100 of the clamp is never
    reached. *)
Lemma calculate_value_score_le_75 (filtered : list Row) (row : Row) (p m : Q) :
  price_per_sqm row = Fin p ->
  median_psqm filtered = Fin m ->
  (0 < m)%Q ->
  exists s, calculate_value_score filtered row = Fin s /\ (0 <= s <= 75)%Q.
Proof.
  intros Hp Hm Hpos.
  assert (Hm0 : ~ (m == 0)%Q) by lra.
  destruct (calculate_value_score_refines filtered row p m Hp Hm Hm0)
    as (s & Hs & Es).
  exists s. split; [exact Hs |]. rewrite Es.
  split; [apply ScoreFacts.clamp_bounds |].
  unfold Spec.score. apply ScoreFacts.clamp_upper; [| lra].
  pose proof (value_adjustment_at_most_15 p m Hpos) as Hva.
  unfold Spec.floor_bonus, Spec.area_bonus, Spec.lease_penalty.
  destruct (storey_floor row >? 20), (storey_floor row >=? 10),
    (floor_area_sqm row >? median_floor_area filtered)%F,
    (remaining_lease_years row <? 60), (remaining_lease_years row <? 80);
    lra.
Qed.




(** ** Rationale *)

Lemma geb_not_ltb (x y : pyfloat) : (x >=? y)%F = true -> (x <? y)%F = false.
Proof.
  destruct x as [p | | |], y as [q | | |]; try (cbv; congruence).
  unfold geb. rewrite leb_Fin, ltb_Fin_false. auto.
Qed.

Lemma value_adjustment_nonpos (p m : Q) :
  (0 < m)%Q -> (m <= p)%Q -> (Spec.value_adjustment p m <= 0)%Q.
Proof.
  intros Hm Hp. unfold Spec.value_adjustment.
  assert (Hq : (0 <= (p - m) / m)%Q).
  { apply Qle_shift_div_l; [exact Hm | lra]. }
  destruct (Qcompare_spec p m); lra.
Qed.

(** C10, as the code has it.  In a subset whose median price per sqm is a
    positive finite number, a row with 60 <= remaining lease < 80, storey
    below 10, floor area not above the median and price per sqm at least the
    median has an empty rationale and a score between 0 and 40. *)
Theorem empty_rationale_low_score (filtered : list Row) (row : Row) (m : Q) :
  60 <= remaining_lease_years row < 80 ->
  storey_floor row < 10 ->
  (floor_area_sqm row >? median_floor_area filtered)%F = false ->
  median_psqm filtered = Fin m ->
  (0 < m)%Q ->
  (price_per_sqm row >=? median_psqm filtered)%F = true ->
  explain_score filtered row = ""%string
  /\ exists s,
       calculate_value_score filtered row = Fin s /\ (0 <= s <= 40)%Q.
Proof.
  intros Hlease Hstorey Harea Hm Hpos Hprice.
  assert (H20 : (storey_floor row >? 20) = false) by lia.
  assert (H10 : (storey_floor row >=? 10) = false) by lia.
  assert (H60 : (remaining_lease_years row <? 60) = false) by lia.
  assert (H80 : (remaining_lease_years row <? 80) = true) by lia.
  pose proof (geb_not_ltb _ _ Hprice) as Hlt.
  split.
  - unfold explain_score. now rewrite H20, H10, Harea, H60, Hlt.
  - destruct (price_per_sqm row) as [p | | |] eqn:Hp.
    + assert (Hm0 : ~ (m == 0)%Q) by lra.
      destruct (calculate_value_score_refines filtered row p m Hp Hm Hm0)
        as (s & Hs & Es).
      exists s. split; [exact Hs |].
      rewrite Hm in Hprice. unfold geb in Hprice. apply leb_Fin in Hprice.
      pose proof (value_adjustment_nonpos p m Hpos Hprice) as Hva.
      split; [rewrite Es; apply ScoreFacts.clamp_bounds |].
      rewrite Es. unfold Spec.score. apply ScoreFacts.clamp_upper; [| lra].
      unfold Spec.floor_bonus, Spec.area_bonus, Spec.lease_penalty.
      rewrite H20, H10, Harea, H60, H80. lra.
    + exists 0%Q. split; [| lra].
      unfold calculate_value_score, raw_score.
      rewrite H20, H10, Harea, H60, H80, Hp, Hm.
      assert (Hneg : Qneg m = false).
      { destruct (Qneg m) eqn:E; [| reflexivity].
        apply Qneg_true in E. lra. }
      cbn. rewrite Hneg. reflexivity.
    + rewrite Hm in Hprice. discriminate.
    + rewrite Hm in Hprice. discriminate.
Qed.

(** The theorem applies to a subset holding one ordinary flat: its price per
    sqm is the median (5000), its floor area is the median, it has 70 years
    left and sits on storey 5. *)
Lemma empty_rationale_low_score_witness :
  explain_score [Examples.plain_flat] Examples.plain_flat = ""%string
  /\ exists s,
       calculate_value_score [Examples.plain_flat] Examples.plain_flat = Fin s
       /\ (0 <= s <= 40)%Q.
Proof.
  apply (empty_rationale_low_score [Examples.plain_flat] Examples.plain_flat
           5000).
  - simpl; lia.
  - simpl; lia.
  - reflexivity.
  - reflexivity.
  - reflexivity.
  - reflexivity.
Defined.

(** C10 fails as stated.  With a median price per sqm of 0 the row of the
    one-flat subset meets every condition of the claim, its rationale is
    empty and its score is NaN, which is not at most 40.  With a negative
    median (two flats recorded with negative prices, median -2000) the row
    priced at -1000 per sqm meets every condition, its "penalty" is a bonus
    and its score is 47.5. *)
Lemma empty_rationale_needs_positive_median :
  (60 <= remaining_lease_years Examples.free_flat < 80
   /\ storey_floor Examples.free_flat < 10
   /\ (floor_area_sqm Examples.free_flat
       >? median_floor_area [Examples.free_flat])%F = false
   /\ (price_per_sqm Examples.free_flat
       >=? median_psqm [Examples.free_flat])%F = true
   /\ explain_score [Examples.free_flat] Examples.free_flat = ""%string
   /\ calculate_value_score [Examples.free_flat] Examples.free_flat = NaN
   /\ (NaN <=? 40)%F = false)
  /\ (60 <= remaining_lease_years Examples.refund1 < 80
      /\ storey_floor Examples.refund1 < 10
      /\ (floor_area_sqm Examples.refund1
          >? median_floor_area [Examples.refund1; Examples.refund2])%F = false
      /\ median_psqm [Examples.refund1; Examples.refund2] = Fin (-2000)
      /\ (price_per_sqm Examples.refund1
          >=? median_psqm [Examples.refund1; Examples.refund2])%F = true
      /\ explain_score [Examples.refund1; Examples.refund2] Examples.refund1
         = ""%string
      /\ calculate_value_score [Examples.refund1; Examples.refund2]
           Examples.refund1 = Fin (95 # 2)
      /\ (Fin (95 # 2) <=? 40)%F = false).
Proof.
  split.
  - repeat split; try reflexivity; simpl; lia.
  - repeat split; try reflexivity; simpl; lia.
Qed.

(** X4.  The rationale is empty exactly for a row below storey 10, with a
    floor area not above the median, at least 60 years of lease left and a
    price per sqm not below the median; the lease penalty of 10 (60 to 79
    years) and the over-median price penalty never show in it. *)
Theorem explain_score_empty_iff (filtered : list Row) (row : Row) :
  explain_score filtered row = ""%string
  <-> storey_floor row < 10
      /\ (floor_area_sqm row >? median_floor_area filtered)%F = false
      /\ 60 <= remaining_lease_years row
      /\ (price_per_sqm row <? median_psqm filtered)%F = false.
Proof.
  unfold explain_score.
  destruct (Z.gtb_spec (storey_floor row) 20),
    (Z.geb_spec (storey_floor row) 10),
    (floor_area_sqm row >? median_floor_area filtered)%F,
    (Z.ltb_spec (remaining_lease_years row) 60),
    (price_per_sqm row <? median_psqm filtered)%F;
    cbn [app String.concat]; split;
    try discriminate;
    try (intros (? & ? & ? & ?); (discriminate || lia));
    intros _; repeat split; lia.
Qed.

(** ** Price formatting *)

Module FormatFacts.

Lemma append_nil_r (s : string) : (s ++ "")%string = s.
Proof. induction s; simpl; congruence. Qed.

Lemma append_assoc (s1 s2 s3 : string) :
  ((s1 ++ s2) ++ s3)%string = (s1 ++ s2 ++ s3)%string.
Proof. induction s1; simpl; congruence. Qed.

Lemma length_append (s1 s2 : string) :
  String.length (s1 ++ s2) = (String.length s1 + String.length s2)%nat.
Proof. induction s1; simpl; congruence. Qed.

Lemma all_digits_app (s1 s2 : string) :
  all_digits (s1 ++ s2) = all_digits s1 && all_digits s2.
Proof.
  induction s1 as [| c s1 IH]; simpl; [reflexivity |].
  now rewrite IH, andb_assoc.
Qed.

Lemma int_of_digits_app (s1 s2 : string) (a : Z) :
  int_of_digits a (s1 ++ s2) = int_of_digits (int_of_digits a s1) s2.
Proof.
  revert a. induction s1 as [| c s1 IH]; intros a; simpl; [reflexivity |].
  apply IH.
Qed.

Lemma digit_char_spec (d : Z) :
  0 <= d < 10 ->
  is_digit (digit_char d) = true
  /\ Z.of_nat (nat_of_ascii (digit_char d)) - 48 = d.
Proof.
  intros Hd. unfold is_digit, digit_char.
  rewrite nat_ascii_embedding by lia.
  split; [| lia].
  apply andb_true_iff. split; apply Nat.leb_le; lia.
Qed.

Lemma single_digit (r : Z) :
  0 <= r < 10 ->
  all_digits (String (digit_char r) "") = true
  /\ int_of_digits 0 (String (digit_char r) "") = r.
Proof.
  intros Hr. destruct (digit_char_spec r Hr) as [Hc Hv].
  cbn [all_digits int_of_digits]. rewrite Hc, Hv. split; [reflexivity | lia].
Qed.

(** Appending one digit to a numeral. *)
Lemma snoc_digit (d : string) (k r : Z) :
  0 <= r < 10 ->
  all_digits d = true ->
  int_of_digits 0 d = k ->
  all_digits (d ++ String (digit_char r) "") = true
  /\ int_of_digits 0 (d ++ String (digit_char r) "") = 10 * k + r.
Proof.
  intros Hr Hd Hk. destruct (digit_char_spec r Hr) as [Hc Hv].
  rewrite all_digits_app, int_of_digits_app, Hd, Hk.
  cbn [all_digits int_of_digits andb]. rewrite Hc, Hv. auto.
Qed.

Lemma digits_aux_step (fuel : nat) (n : Z) (acc : string) :
  digits_aux (S fuel) n acc =
    if n / 10 =? 0 then String (digit_char (n mod 10)) acc
    else digits_aux fuel (n / 10) (String (digit_char (n mod 10)) acc).
Proof. reflexivity. Qed.

Lemma digits_aux_spec (fuel : nat) :
  forall n acc,
    0 <= n < 2 ^ Z.of_nat (S fuel) ->
    exists d,
      digits_aux (S fuel) n acc = (d ++ acc)%string
      /\ d <> ""%string
      /\ all_digits d = true
      /\ int_of_digits 0 d = n.
Proof.
  induction fuel as [| fuel IH]; intros n acc Hn;
    assert (Hr : 0 <= n mod 10 < 10) by (apply Z.mod_pos_bound; lia);
    pose proof (Z.div_mod n 10 ltac:(lia)) as Hdm;
    rewrite digits_aux_step;
    destruct (single_digit _ Hr) as [Hone Hval1];
    destruct (Z.eqb_spec (n / 10) 0) as [E | E].
  - exists (String (digit_char (n mod 10)) "").
    repeat split; [discriminate | exact Hone | rewrite Hval1; lia].
  - exfalso. apply E. apply Z.div_small.
    change (Z.of_nat 1) with 1 in Hn. lia.
  - exists (String (digit_char (n mod 10)) "").
    repeat split; [discriminate | exact Hone | rewrite Hval1; lia].
  - assert (Hq : 0 <= n / 10 < 2 ^ Z.of_nat (S fuel)).
    { split; [apply Z.div_pos; lia |].
      apply Z.div_lt_upper_bound; [lia |].
      rewrite (Nat2Z.inj_succ (S fuel)), Z.pow_succ_r in Hn by lia. lia. }
    destruct (IH (n / 10) (String (digit_char (n mod 10)) acc) Hq)
      as (d & Ed & _ & Hd & Hk).
    exists (d ++ String (digit_char (n mod 10)) "")%string.
    destruct (snoc_digit d (n / 10) (n mod 10) Hr Hd Hk) as [Hall Hval].
    repeat split.
    + rewrite Ed, append_assoc. reflexivity.
    + destruct d; discriminate.
    + exact Hall.
    + rewrite Hval. lia.
Qed.

(** [digits] prints a numeral that reads back as the number. *)
Lemma digits_spec (n : Z) :
  0 <= n ->
  digits n <> ""%string
  /\ all_digits (digits n) = true
  /\ int_of_digits 0 (digits n) = n.
Proof.
  intros Hn. unfold digits.
  destruct (digits_aux_spec (Z.to_nat (Z.log2 n)) n "") as (d & Ed & H).
  { split; [exact Hn |].
    rewrite Nat2Z.inj_succ, Z2Nat.id by apply Z.log2_nonneg.
    destruct (Z.eq_dec n 0) as [-> | Hne]; [reflexivity |].
    apply Z.log2_spec. lia. }
  rewrite Ed, append_nil_r. exact H.
Qed.

Lemma frac_digits_spec (k : nat) :
  forall n acc,
    0 <= n < 10 ^ Z.of_nat k ->
    exists d,
      frac_digits k n acc = (d ++ acc)%string
      /\ String.length d = k
      /\ all_digits d = true
      /\ int_of_digits 0 d = n.
Proof.
  induction k as [| k IH]; intros n acc Hn.
  - exists ""%string. change (10 ^ Z.of_nat 0) with 1 in Hn.
    repeat split. cbn [int_of_digits]. lia.
  - assert (Hr : 0 <= n mod 10 < 10) by (apply Z.mod_pos_bound; lia).
    pose proof (Z.div_mod n 10 ltac:(lia)) as Hdm.
    assert (Hq : 0 <= n / 10 < 10 ^ Z.of_nat k).
    { split; [apply Z.div_pos; lia |].
      apply Z.div_lt_upper_bound; [lia |].
      rewrite Nat2Z.inj_succ, Z.pow_succ_r in Hn by lia. lia. }
    cbn [frac_digits].
    destruct (IH (n / 10) (String (digit_char (n mod 10)) acc) Hq)
      as (d & Ed & Hlen & Hd & Hk).
    exists (d ++ String (digit_char (n mod 10)) "")%string.
    destruct (snoc_digit d (n / 10) (n mod 10) Hr Hd Hk) as [Hall Hval].
    repeat split.
    + rewrite Ed, append_assoc. reflexivity.
    + rewrite length_append, Hlen. cbn [String.length]. lia.
    + exact Hall.
    + rewrite Hval. lia.
Qed.

End FormatFacts.

Import FormatFacts.





Module RoundFacts.

Lemma round_half_even_cases (x : Q) :
  round_half_even x = Qfloor x \/ round_half_even x = Qfloor x + 1.
Proof.
  unfold round_half_even.
  destruct (x - inject_Z (Qfloor x) ?= 1 # 2)%Q; auto.
  destruct (Z.even (Qfloor x)); auto.
Qed.

Lemma round_half_even_nearest (x : Q) :
  (Qabs (inject_Z (round_half_even x) - x) <= 1 # 2)%Q.
Proof.
  pose proof (Qfloor_le x) as Hle. pose proof (Qlt_floor x) as Hlt.
  rewrite inject_Z_plus in Hlt. change (inject_Z 1) with 1%Q in Hlt.
  apply Qabs_Qle_condition. unfold round_half_even.
  destruct (Qcompare_spec (x - inject_Z (Qfloor x)) (1 # 2)) as [E | L | G].
  - destruct (Z.even (Qfloor x));
      rewrite ?inject_Z_plus; change (inject_Z 1) with 1%Q; lra.
  - lra.
  - rewrite inject_Z_plus. change (inject_Z 1) with 1%Q. lra.
Qed.

Lemma round_half_even_nonneg (x : Q) : (0 <= x)%Q -> 0 <= round_half_even x.
Proof.
  intros Hx. pose proof (Qfloor_resp_le _ _ Hx) as Hf.
  change (Qfloor 0) with 0 in Hf.
  destruct (round_half_even_cases x) as [-> | ->]; lia.
Qed.

Lemma round_half_even_comp (x y : Q) :
  (x == y)%Q -> round_half_even x = round_half_even y.
Proof.
  intros E. unfold round_half_even.
  rewrite (Qfloor_comp _ _ E).
  assert (C : (x - inject_Z (Qfloor y) ?= 1 # 2)%Q
              = (y - inject_Z (Qfloor y) ?= 1 # 2)%Q).
  { apply Qcompare_comp; [| reflexivity]. now apply Qplus_comp. }
  now rewrite C.
Qed.

Lemma div_of_Z (q : Q) (z : Z) :
  z <> 0 -> (Fin q / of_Z z)%F = Fin (Qred (q / inject_Z z)).
Proof.
  intros Hz. unfold Float.div, of_Z.
  assert (E : Qzero (inject_Z z) = false).
  { apply Qzero_false. unfold Qeq; simpl. lia. }
  now rewrite E.
Qed.


End RoundFacts.

(** ** Binary64 rounding *)

Module B64Facts.

Import Binary64.

Local Open Scope Q_scope.

Lemma two_neq_0 : ~ 2 == 0.
Proof. discriminate. Qed.

Lemma pow2_pos (k : Z) : 0 < pow2 k.
Proof. apply Qpower_0_lt. reflexivity. Qed.

Lemma pow2_plus (a b : Z) : pow2 (a + b) == pow2 a * pow2 b.
Proof. apply Qpower_plus, two_neq_0. Qed.

Lemma pow2_succ (k : Z) : pow2 (k + 1) == 2 * pow2 k.
Proof. rewrite pow2_plus. unfold pow2 at 2. rewrite Qpower_1_r. ring. Qed.

Lemma pow2_cancel (k : Z) : pow2 (- k) * pow2 k == 1.
Proof.
  rewrite <- pow2_plus. replace (- k + k)%Z with 0%Z by lia. reflexivity.
Qed.

Lemma pow2_le (a b : Z) : (a <= b)%Z -> pow2 a <= pow2 b.
Proof. intros H. apply Qpower_le_compat_l; [exact H | discriminate]. Qed.

Lemma pow2_lt_inv (a b : Z) : pow2 a < pow2 b -> (a < b)%Z.
Proof. intros H. apply (Qpower_lt_compat_l_inv 2); [exact H | reflexivity]. Qed.

Lemma pow2_inject (k : Z) : (0 <= k)%Z -> inject_Z (2 ^ k) == pow2 k.
Proof. intros H. unfold pow2. now rewrite Zpower_Qpower. Qed.

(** [ilog2] finds the binade of a positive rational. *)
Lemma ilog2_spec (a : Q) :
  0 < a -> pow2 (ilog2 a) <= a /\ a < pow2 (ilog2 a + 1).
Proof.
  intros Ha. destruct a as [n d]. unfold ilog2. cbn [Qnum Qden].
  assert (Hn : (0 < n)%Z) by (unfold Qlt in Ha; simpl in Ha; lia).
  destruct (Z.log2_spec n Hn) as [Hn1 Hn2].
  destruct (Z.log2_spec (Zpos d) (Pos2Z.is_pos d)) as [Hd1 Hd2].
  set (ln := Z.log2 n) in *. set (ld := Z.log2 (Zpos d)) in *.
  assert (Hln : (0 <= ln)%Z) by apply Z.log2_nonneg.
  assert (Hld : (0 <= ld)%Z) by apply Z.log2_nonneg.
  assert (En : n # d == inject_Z n / inject_Z (Zpos d)) by apply Qmake_Qdiv.
  assert (Hdpos : 0 < inject_Z (Zpos d)) by (rewrite <- (Zlt_Qlt 0); lia).
  assert (Qn1 : pow2 ln <= inject_Z n)
    by (rewrite <- pow2_inject by lia; now rewrite <- Zle_Qle).
  assert (Qn2 : inject_Z n < pow2 (ln + 1))
    by (rewrite <- pow2_inject by lia; now rewrite <- Zlt_Qlt).
  assert (Qd1 : pow2 ld <= inject_Z (Zpos d))
    by (rewrite <- pow2_inject by lia; now rewrite <- Zle_Qle).
  assert (Qd2 : inject_Z (Zpos d) < pow2 (ld + 1))
    by (rewrite <- pow2_inject by lia; now rewrite <- Zlt_Qlt).
  assert (Elow : pow2 (ln - ld - 1) * pow2 (ld + 1) == pow2 ln)
    by (rewrite <- pow2_plus; now replace (ln - ld - 1 + (ld + 1))%Z with ln by lia).
  assert (Ehigh : pow2 (ln - ld + 1) * pow2 ld == pow2 (ln + 1))
    by (rewrite <- pow2_plus;
        now replace (ln - ld + 1 + ld)%Z with (ln + 1)%Z by lia).
  assert (Hlow : pow2 (ln - ld - 1) < n # d).
  { rewrite En. apply Qlt_shift_div_l; [exact Hdpos |].
    apply Qlt_le_trans with (pow2 (ln - ld - 1) * pow2 (ld + 1)).
    - apply Qmult_lt_l; [apply pow2_pos | exact Qd2].
    - rewrite Elow. exact Qn1. }
  assert (Hhigh : n # d < pow2 (ln - ld + 1)).
  { rewrite En. apply Qlt_shift_div_r; [exact Hdpos |].
    apply Qlt_le_trans with (pow2 (ln + 1)); [exact Qn2 |].
    rewrite <- Ehigh. apply Qmult_le_l; [apply pow2_pos | exact Qd1]. }
  destruct (Qle_bool (pow2 (ln - ld)) (n # d)) eqn:E.
  - apply Qle_bool_iff in E. split; [exact E | exact Hhigh].
  - assert (Hlt : n # d < pow2 (ln - ld)).
    { apply Qnot_le_lt. intros H. apply Qle_bool_iff in H. congruence. }
    split; [now apply Qlt_le_weak |].
    now replace (ln - ld - 1 + 1)%Z with (ln - ld)%Z by lia.
Qed.

Lemma ilog2_unique (a : Q) (k : Z) :
  pow2 k <= a -> a < pow2 (k + 1) -> ilog2 a = k.
Proof.
  intros Hlo Hhi.
  assert (Ha : 0 < a) by (eapply Qlt_le_trans; [apply (pow2_pos k) | exact Hlo]).
  destruct (ilog2_spec a Ha) as [Slo Shi].
  assert (H1 : (ilog2 a < k + 1)%Z)
    by (apply pow2_lt_inv; eapply Qle_lt_trans; eassumption).
  assert (H2 : (k < ilog2 a + 1)%Z)
    by (apply pow2_lt_inv; eapply Qle_lt_trans; eassumption).
  lia.
Qed.

End B64Facts.

Module B64Round.

Import Binary64 B64Facts.

Local Open Scope Q_scope.

(** Rounding to the nearest integer stays between two integers. *)
Lemma round_half_even_between (s : Q) (z1 z2 : Z) :
  inject_Z z1 <= s -> s <= inject_Z z2 ->
  (z1 <= round_half_even s <= z2)%Z.
Proof.
  intros H1 H2.
  pose proof (Qfloor_le s) as Hfl. pose proof (Qlt_floor s) as Hlt.
  rewrite inject_Z_plus in Hlt. change (inject_Z 1) with 1 in Hlt.
  assert (Hz1 : (z1 <= Qfloor s)%Z).
  { apply Qfloor_resp_le in H1. now rewrite Qfloor_Z in H1. }
  unfold round_half_even.
  assert (Hup : s - inject_Z (Qfloor s) > 0 -> (Qfloor s + 1 <= z2)%Z).
  { intros Hpos.
    assert (Hq : inject_Z (Qfloor s) < inject_Z z2) by lra.
    rewrite <- Zlt_Qlt in Hq. lia. }
  assert (Hfloor : (Qfloor s <= z2)%Z).
  { assert (Hq : inject_Z (Qfloor s) <= inject_Z z2) by lra.
    now rewrite <- Zle_Qle in Hq. }
  destruct (Qcompare_spec (s - inject_Z (Qfloor s)) (1 # 2)) as [E | L | G].
  - destruct (Z.even (Qfloor s)); [lia |].
    assert ((Qfloor s + 1 <= z2)%Z) by (apply Hup; lra). lia.
  - lia.
  - assert ((Qfloor s + 1 <= z2)%Z) by (apply Hup; lra). lia.
Qed.

(** What [round] returns for a rational that is not 0 and is below 2^1023
    in magnitude: the nearest multiple of the unit in the last place. *)
Lemma round_spec (y : Q) :
  ~ y == 0 -> Qabs y < pow2 1023 ->
  exists r,
    r == inject_Z (round_half_even
                     (Qabs y * pow2 (- ulp_exponent (Qabs y))))
         * pow2 (ulp_exponent (Qabs y))
    /\ 0 <= r
    /\ round y = Fin (if Qneg y then Qred (- r) else r).
Proof.
  intros Hy Hmax. unfold round.
  assert (Hz : Qzero y = false) by now apply Qzero_false.
  rewrite Hz. cbv zeta.
  set (a := Qabs y) in *. set (e := ulp_exponent a).
  set (s := a * pow2 (- e)). set (m := round_half_even s).
  set (P := pow2 e).
  assert (Ha : 0 < a).
  { unfold a. destruct (Qlt_le_dec 0 (Qabs y)) as [H | H]; [exact H |].
    exfalso. apply Hy. pose proof (Qabs_nonneg y) as Hnn.
    destruct (Qlt_le_dec y 0) as [L | L].
    - assert (E : Qabs y == - y) by (apply Qabs_neg; lra). lra.
    - assert (E : Qabs y == y) by now apply Qabs_pos. lra. }
  assert (HP : 0 < P) by apply pow2_pos.
  assert (HP' : 0 < pow2 (- e)) by apply pow2_pos.
  assert (EsP : s * P == a).
  { unfold s, P. rewrite <- Qmult_assoc, pow2_cancel. ring. }
  assert (Hs : 0 <= s).
  { unfold s. apply Qmult_le_0_compat; now apply Qlt_le_weak. }
  assert (Hm : (0 <= m)%Z) by now apply RoundFacts.round_half_even_nonneg.
  pose proof (RoundFacts.round_half_even_nearest s) as Hnear. fold m in Hnear.
  apply Qabs_Qle_condition in Hnear. destruct Hnear as [_ Hn2].
  assert (Hk : (ilog2 a < 1023)%Z).
  { destruct (ilog2_spec a Ha) as [Slo _].
    apply pow2_lt_inv. eapply Qle_lt_trans; eassumption. }
  assert (He : P <= pow2 1023).
  { unfold P. apply pow2_le. unfold e, ulp_exponent. lia. }
  assert (Er : Qred (inject_Z m * P) == inject_Z m * P) by apply Qred_correct.
  assert (Hr0 : 0 <= inject_Z m * P).
  { apply Qmult_le_0_compat; [| now apply Qlt_le_weak].
    now rewrite <- (Zle_Qle 0). }
  assert (Hr : inject_Z m * P < pow2 1024).
  { assert (Hup : inject_Z m * P <= (s + (1 # 2)) * P).
    { apply Qmult_le_compat_r; [lra | now apply Qlt_le_weak]. }
    assert (E1024 : pow2 1024 == 2 * pow2 1023)
      by (change 1024%Z with (1023 + 1)%Z; apply pow2_succ).
    rewrite E1024.
    assert (Eexp : (s + (1 # 2)) * P == a + (1 # 2) * P)
      by (rewrite <- EsP; ring).
    clearbody P a s m. lra. }
  assert (Hno : Qle_bool (pow2 1024) (Qred (inject_Z m * P)) = false).
  { destruct (Qle_bool (pow2 1024) (Qred (inject_Z m * P))) eqn:E;
      [| reflexivity].
    apply Qle_bool_iff in E. rewrite Er in E. lra. }
  rewrite Hno. exists (Qred (inject_Z m * P)).
  split; [exact Er |]. split; [now rewrite Er | reflexivity].
Qed.

(** In the normal range the rounding error is at most [2^-53], relative. *)
Lemma round_accuracy (y : Q) :
  pow2 (- 1022) <= Qabs y -> Qabs y < pow2 1023 ->
  exists x, round y = Fin x /\ Qabs (x - y) <= Qabs y * pow2 (- 53).
Proof.
  intros Hmin Hmax.
  assert (Ha : 0 < Qabs y)
    by (eapply Qlt_le_trans; [apply (pow2_pos (- 1022)) | exact Hmin]).
  assert (Hy : ~ y == 0).
  { intros E. rewrite E in Ha. now apply Qlt_irrefl in Ha. }
  destruct (round_spec y Hy Hmax) as (r & Er & Hr0 & Eround).
  destruct (ilog2_spec (Qabs y) Ha) as [Slo Shi].
  assert (Hk : (- 1022 < ilog2 (Qabs y) + 1)%Z).
  { apply pow2_lt_inv. eapply Qle_lt_trans; eassumption. }
  assert (Ee : ulp_exponent (Qabs y) = (ilog2 (Qabs y) - 52)%Z)
    by (unfold ulp_exponent; lia).
  rewrite Ee in Er.
  set (a := Qabs y) in *. set (k := ilog2 a) in *.
  set (P := pow2 (k - 52)) in *. set (s := a * pow2 (- (k - 52))) in *.
  assert (HP : 0 < P) by apply pow2_pos.
  assert (EsP : s * P == a).
  { unfold s, P. rewrite <- Qmult_assoc, pow2_cancel. ring. }
  pose proof (RoundFacts.round_half_even_nearest s) as Hnear.
  apply Qabs_Qle_condition in Hnear. destruct Hnear as [Hn1 Hn2].
  assert (EP : P == 2 * (pow2 k * pow2 (- 53))).
  { unfold P. rewrite <- pow2_plus, <- pow2_succ. apply Qpower_comp;
      [reflexivity | lia]. }
  assert (Hbound : pow2 k * pow2 (- 53) <= a * pow2 (- 53)).
  { apply Qmult_le_compat_r; [exact Slo | apply Qlt_le_weak, pow2_pos]. }
  assert (Hlo : a - (1 # 2) * P <= r).
  { rewrite Er, <- EsP.
    setoid_replace (s * P - (1 # 2) * P) with ((s - (1 # 2)) * P) by ring.
    apply Qmult_le_compat_r; [lra | now apply Qlt_le_weak]. }
  assert (Hhi : r <= a + (1 # 2) * P).
  { rewrite Er, <- EsP.
    setoid_replace (s * P + (1 # 2) * P) with ((s + (1 # 2)) * P) by ring.
    apply Qmult_le_compat_r; [lra | now apply Qlt_le_weak]. }
  assert (Herr : Qabs (r - a) <= a * pow2 (- 53)).
  { apply Qabs_Qle_condition.
    clearbody P. generalize dependent (a * pow2 (- 53)).
    generalize dependent (pow2 k * pow2 (- 53)). intros u EP v Hbound.
    clear - EP Hbound Hlo Hhi. clearbody a. lra. }
  eexists. split; [exact Eround |].
  destruct (Qneg y) eqn:En.
  - apply Qneg_true in En.
    assert (Eabs : a == - y) by (unfold a; apply Qabs_neg; lra).
    rewrite Qred_correct.
    setoid_replace (- r - y) with (- (r - a)) by (rewrite Eabs; ring).
    now rewrite Qabs_opp.
  - assert (Hpos : 0 <= y).
    { destruct (Qlt_le_dec y 0) as [L | L]; [| exact L].
      apply Qneg_true in L. congruence. }
    assert (Eabs : a == y) by (unfold a; now apply Qabs_pos).
    setoid_replace (r - y) with (r - a) by (rewrite Eabs; ring).
    exact Herr.
Qed.

(** Rounding keeps a value between two multiples of its unit in the last
    place. *)
Lemma round_between (y : Q) (k zlo zhi : Z) :
  pow2 k <= y -> y < pow2 (k + 1) -> (- 1022 <= k < 1023)%Z ->
  inject_Z zlo * pow2 (k - 52) <= y ->
  y <= inject_Z zhi * pow2 (k - 52) ->
  exists x,
    round y = Fin x
    /\ inject_Z zlo * pow2 (k - 52) <= x
    /\ x <= inject_Z zhi * pow2 (k - 52).
Proof.
  intros Hlo Hhi Hk Hzlo Hzhi.
  assert (Hy : 0 < y) by (eapply Qlt_le_trans; [apply (pow2_pos k) | exact Hlo]).
  assert (Eabs : Qabs y == y) by (apply Qabs_pos; now apply Qlt_le_weak).
  assert (Hy0 : ~ y == 0) by (intros E; rewrite E in Hy; now apply Qlt_irrefl in Hy).
  assert (Hmax : Qabs y < pow2 1023).
  { rewrite Eabs. eapply Qlt_le_trans; [exact Hhi |]. apply pow2_le. lia. }
  destruct (round_spec y Hy0 Hmax) as (r & Er & _ & Eround).
  assert (Ek : ilog2 (Qabs y) = k).
  { apply ilog2_unique; now rewrite Eabs. }
  assert (Ee : ulp_exponent (Qabs y) = (k - 52)%Z)
    by (unfold ulp_exponent; rewrite Ek; lia).
  rewrite Ee in Er.
  assert (Hneg : Qneg y = false).
  { destruct (Qneg y) eqn:E; [| reflexivity]. apply Qneg_true in E. lra. }
  rewrite Hneg in Eround. exists r. split; [exact Eround |].
  set (P := pow2 (k - 52)) in *.
  assert (HP : 0 < P) by apply pow2_pos.
  set (s := Qabs y * pow2 (- (k - 52))) in *.
  assert (EsP : s * P == y).
  { unfold s, P. rewrite <- Qmult_assoc, pow2_cancel, Eabs. ring. }
  assert (Hs1 : inject_Z zlo <= s).
  { apply Qmult_le_r with P; [exact HP |]. now rewrite EsP. }
  assert (Hs2 : s <= inject_Z zhi).
  { apply Qmult_le_r with P; [exact HP |]. now rewrite EsP. }
  destruct (round_half_even_between s zlo zhi Hs1 Hs2) as [Hm1 Hm2].
  rewrite Er. split; apply Qmult_le_compat_r;
    try (now apply Qlt_le_weak); now rewrite <- Zle_Qle.
Qed.

End B64Round.

(** ** Price Formatting *)

Module PriceFacts.

Import Binary64 B64Facts B64Round.

Local Open Scope Q_scope.

(** [f"{x:.2f}"] of a non-negative number: a numeral, a point and two
    digits, which write a number within half a hundredth of [x]. *)
Lemma fixed2_string (x : Q) :
  0 <= x ->
  exists ip fp,
    format_fixed 2 (Fin x) = (ip ++ "." ++ fp)%string
    /\ ip <> ""%string
    /\ all_digits ip = true
    /\ all_digits fp = true
    /\ String.length fp = 2%nat
    /\ Qabs (inject_Z (100 * int_of_digits 0 ip + int_of_digits 0 fp) / 100
             - x) <= 1 # 200.
Proof.
  intros Hx. unfold format_fixed. change (10 ^ Z.of_nat 2)%Z with 100%Z.
  assert (Hneg : Qneg x = false).
  { destruct (Qneg x) eqn:E; [| reflexivity]. apply Qneg_true in E. lra. }
  rewrite Hneg.
  set (n := round_half_even (Qabs x * inject_Z 100)).
  assert (Hn : (0 <= n)%Z).
  { apply RoundFacts.round_half_even_nonneg. apply Qmult_le_0_compat;
      [apply Qabs_nonneg | discriminate]. }
  pose proof (RoundFacts.round_half_even_nearest (Qabs x * inject_Z 100))
    as Hnear.
  fold n in Hnear.
  assert (Hmod : (0 <= n mod 100 < 10 ^ Z.of_nat 2)%Z)
    by (change (10 ^ Z.of_nat 2)%Z with 100%Z; apply Z.mod_pos_bound; lia).
  destruct (frac_digits_spec 2 (n mod 100) "" Hmod)
    as (fp & Efp & Hlen & Hfp & Vfp).
  rewrite append_nil_r in Efp.
  destruct (digits_spec (n / 100)) as (Hne & Hip & Vip);
    [apply Z.div_pos; lia |].
  exists (digits (n / 100)), fp. rewrite Efp.
  split; [reflexivity |].
  repeat split; try assumption.
  rewrite Vip, Vfp, <- Z.div_mod by lia.
  assert (Eabs : Qabs x == x) by now apply Qabs_pos.
  apply Qabs_Qle_condition in Hnear. apply Qabs_Qle_condition.
  change (inject_Z 100) with 100 in Hnear.
  assert (Ey : inject_Z n / 100 * 100 == inject_Z n) by field.
  clearbody n.
  generalize dependent (inject_Z n / 100). intros y Ey. lra.
Qed.

(** [f"{x:.0f}"]: a minus sign for a negative number, and a numeral that
    writes a number within a half of [|x|]. *)
Lemma fixed0_string (x : Q) :
  exists ip,
    format_fixed 0 (Fin x)
    = ((if Qneg x then "-" else "") ++ ip)%string
    /\ ip <> ""%string
    /\ all_digits ip = true
    /\ Qabs (inject_Z (int_of_digits 0 ip) - Qabs x) <= 1 # 2.
Proof.
  unfold format_fixed. change (10 ^ Z.of_nat 0)%Z with 1%Z.
  rewrite Z.div_1_r.
  set (n := round_half_even (Qabs x * inject_Z 1)).
  assert (Hn : (0 <= n)%Z).
  { apply RoundFacts.round_half_even_nonneg. apply Qmult_le_0_compat;
      [apply Qabs_nonneg | discriminate]. }
  pose proof (RoundFacts.round_half_even_nearest (Qabs x * inject_Z 1))
    as Hnear.
  fold n in Hnear.
  destruct (digits_spec n Hn) as (Hne & Hip & Vip).
  exists (digits n).
  split; [now rewrite append_nil_r |].
  repeat split; try assumption.
  rewrite Vip.
  apply Qabs_Qle_condition in Hnear. apply Qabs_Qle_condition.
  change (inject_Z 1) with 1 in Hnear. clearbody n.
  generalize dependent (Qabs x). intros w Hnear. lra.
Qed.

Lemma max_value_lt : max_value < pow2 1024.
Proof. vm_compute. reflexivity. Qed.

Lemma div_round (q : Q) (z : Z) :
  z <> 0%Z ->
  Binary64.div (Fin q) (of_Z z) = round (Qred (q / inject_Z z)).
Proof.
  intros Hz. unfold Binary64.div. now rewrite RoundFacts.div_of_Z.
Qed.

Lemma millions_string (q : Q) :
  1000000 <= q -> q <= max_value ->
  exists x ip fp,
    Binary64.div (Fin q) (of_Z 1000000) = Fin x
    /\ Qabs (x - q / 1000000) <= q / 1000000 * pow2 (- 53)
    /\ format_price (Fin q) = ("$" ++ ip ++ "." ++ fp ++ "M")%string
    /\ ip <> ""%string
    /\ all_digits ip = true
    /\ all_digits fp = true
    /\ String.length fp = 2%nat
    /\ Qabs (inject_Z (100 * int_of_digits 0 ip + int_of_digits 0 fp) / 100
             - x) <= 1 # 200.
Proof.
  intros Hq Hmax. unfold format_price.
  assert (Hge : (Fin q >=? of_Z 1000000)%F = true)
    by (unfold geb; apply leb_Fin; exact Hq).
  rewrite Hge, div_round by lia.
  set (y := Qred (q / inject_Z 1000000)).
  assert (Ey : y == q / 1000000) by apply Qred_correct.
  assert (Hy1 : 1 <= y).
  { rewrite Ey. apply Qle_shift_div_l; [reflexivity | lra]. }
  assert (Eabs : Qabs y == y) by (apply Qabs_pos; lra).
  pose proof max_value_lt as Hlt.
  assert (E1024 : pow2 1024 == 2 * pow2 1023)
    by (change 1024%Z with (1023 + 1)%Z; apply pow2_succ).
  assert (Hy2 : y < pow2 1023).
  { rewrite Ey. apply Qlt_shift_div_r; [reflexivity |].
    pose proof (pow2_pos 1023). clearbody y. lra. }
  assert (Hmin : pow2 (- 1022) <= Qabs y).
  { rewrite Eabs. apply Qle_trans with 1; [| exact Hy1].
    change 1 with (pow2 0). apply pow2_le. lia. }
  destruct (round_accuracy y Hmin) as (x & Ex & Hacc);
    [now rewrite Eabs |].
  assert (Hacc' : Qabs (x - q / 1000000) <= q / 1000000 * pow2 (- 53)).
  { rewrite <- Ey. now rewrite Eabs in Hacc. }
  assert (Hx : 0 <= x).
  { apply Qabs_Qle_condition in Hacc. rewrite Eabs in Hacc.
    assert (Hp : pow2 (- 53) <= 1).
    { change 1 with (pow2 0). apply pow2_le. lia. }
    assert (Hyp : y * pow2 (- 53) <= y * 1).
    { apply Qmult_le_l; [lra | exact Hp]. }
    clearbody y. lra. }
  destruct (fixed2_string x Hx) as (ip & fp & Es & H1 & H2 & H3 & H4 & H5).
  exists x, ip, fp. rewrite Ex, Es.
  split; [reflexivity |]. split; [exact Hacc' |].
  split; [cbn [append]; now rewrite !append_assoc |].
  auto.
Qed.

Lemma thousands_string (q : Q) :
  0 <= q -> q < 1000000 ->
  exists x ip,
    Binary64.div (Fin q) (of_Z 1000) = Fin x
    /\ 0 <= x
    /\ format_price (Fin q) = ("$" ++ ip ++ "k")%string
    /\ ip <> ""%string
    /\ all_digits ip = true
    /\ Qabs (inject_Z (int_of_digits 0 ip) - x) <= 1 # 2.
Proof.
  intros Hq0 Hq. unfold format_price.
  assert (Hge : (Fin q >=? of_Z 1000000)%F = false).
  { destruct (Fin q >=? of_Z 1000000)%F eqn:E; [| reflexivity].
    unfold geb in E. apply leb_Fin in E.
    change (inject_Z 1000000) with 1000000 in E. lra. }
  rewrite Hge, div_round by lia.
  set (y := Qred (q / inject_Z 1000)).
  assert (Ey : y * 1000 == q).
  { unfold y. rewrite Qred_correct. change (inject_Z 1000) with 1000. field. }
  assert (Hy0 : 0 <= y) by (clearbody y; lra).
  assert (Hround : exists x, round y = Fin x /\ 0 <= x).
  { destruct (Qeq_dec y 0) as [E0 | Hne].
    - exists 0. split; [| lra]. unfold round.
      assert (Hz : Qzero y = true) by now apply Qzero_true.
      now rewrite Hz.
    - assert (Eabs : Qabs y == y) by now apply Qabs_pos.
      assert (Hmax : Qabs y < pow2 1023).
      { rewrite Eabs. apply Qlt_le_trans with (pow2 10).
        - change (pow2 10) with (2 ^ 10). clearbody y.
          assert (E : 2 ^ 10 == 1024) by reflexivity. lra.
        - apply pow2_le. lia. }
      destruct (round_spec y Hne Hmax) as (r & _ & Hr & Er).
      assert (Hneg : Qneg y = false).
      { destruct (Qneg y) eqn:E; [| reflexivity]. apply Qneg_true in E. lra. }
      rewrite Hneg in Er. exists r. auto. }
  destruct Hround as (x & Ex & Hx).
  destruct (fixed0_string x) as (ip & Es & H1 & H2 & H3).
  assert (Hneg : Qneg x = false).
  { destruct (Qneg x) eqn:E; [| reflexivity]. apply Qneg_true in E. lra. }
  rewrite Hneg in Es.
  assert (Eabs : Qabs x == x) by now apply Qabs_pos.
  exists x, ip. rewrite Ex, Es.
  split; [reflexivity |]. split; [exact Hx |].
  split; [reflexivity |].
  split; [exact H1 |]. split; [exact H2 |]. now rewrite <- Eabs.
Qed.

Lemma thousands_negative (q : Q) :
  - max_value <= q -> q <= - (1) ->
  exists x ip,
    Binary64.div (Fin q) (of_Z 1000) = Fin x
    /\ x < 0
    /\ format_price (Fin q) = ("$-" ++ ip ++ "k")%string
    /\ ip <> ""%string
    /\ all_digits ip = true
    /\ Qabs (inject_Z (int_of_digits 0 ip) - Qabs x) <= 1 # 2.
Proof.
  intros Hmin Hq. unfold format_price.
  assert (Hge : (Fin q >=? of_Z 1000000)%F = false).
  { destruct (Fin q >=? of_Z 1000000)%F eqn:E; [| reflexivity].
    unfold geb in E. apply leb_Fin in E.
    change (inject_Z 1000000) with 1000000 in E. lra. }
  rewrite Hge, div_round by lia.
  set (y := Qred (q / inject_Z 1000)).
  assert (Ey : y * 1000 == q).
  { unfold y. rewrite Qred_correct. change (inject_Z 1000) with 1000. field. }
  assert (Hy : y <= - (1 # 1000)) by (clearbody y; lra).
  assert (Eabs : Qabs y == - y) by (apply Qabs_neg; lra).
  pose proof max_value_lt as Hlt.
  assert (E1024 : pow2 1024 == 2 * pow2 1023)
    by (change 1024%Z with (1023 + 1)%Z; apply pow2_succ).
  assert (Hsmall : pow2 (- 1022) <= 1 # 1000).
  { apply Qle_trans with (pow2 (- 10)); [apply pow2_le; lia |].
    vm_compute. discriminate. }
  assert (Hlo : pow2 (- 1022) <= Qabs y) by (rewrite Eabs; lra).
  assert (Hhi : Qabs y < pow2 1023).
  { rewrite Eabs. pose proof (pow2_pos 1023). clearbody y. lra. }
  destruct (round_accuracy y Hlo Hhi) as (x & Ex & Hacc).
  assert (Hx : x < 0).
  { apply Qabs_Qle_condition in Hacc. rewrite Eabs in Hacc.
    assert (Hp : pow2 (- 53) <= 1 # 2).
    { apply Qle_trans with (pow2 (- 1)); [apply pow2_le; lia |].
      vm_compute. discriminate. }
    assert (Hyp : - y * pow2 (- 53) <= - y * (1 # 2)).
    { apply Qmult_le_l; [lra | exact Hp]. }
    clearbody y. lra. }
  destruct (fixed0_string x) as (ip & Es & H1 & H2 & H3).
  assert (Hneg : Qneg x = true) by now apply Qneg_true.
  rewrite Hneg in Es.
  exists x, ip. rewrite Ex, Es.
  split; [reflexivity |]. split; [exact Hx |]. split; [reflexivity |]. auto.
Qed.

End PriceFacts.

(** C9.  [format_price] gives "$1.00M" for 1,000,000, "$1.23M" for
    1,230,000 and "$456k" for 456,000.  It divides in binary64 and prints
    the quotient with the one rounding of [format_fixed] (nearest decimal to
    the value of the float, ties to even), so 1,015,000 is shown as "$1.01M"
    and 2,675,000 as "$2.67M": the binary64 quotients lie just below 1.015
    and 2.675.  The quotient is within [2^-53], relative, of the exact one.
    Every value from 1,000,000 up to the largest binary64 is shown as "$", a
    numeral, ".", two digits and "M", the number so written being within
    half a hundredth of the binary64 quotient; every value from 0 up to
    1,000,000 is shown as "$", a numeral with no decimals and "k", the number
    so written being within a half of the binary64 quotient; a value of -1
    or less is shown in the same way with a minus sign before the numeral.
    The price text
    is written on the rows the top-20 step has selected: after it the table
    is still that result of the top-20 step, with the same scores in the same
    order. *)
Theorem format_price_shapes :
  format_price 1000000 = "$1.00M"%string
  /\ format_price 1230000 = "$1.23M"%string
  /\ format_price 456000 = "$456k"%string
  /\ format_price 1015000 = "$1.01M"%string
  /\ format_price 2675000 = "$2.67M"%string
  /\ (forall y : Q,
        (Binary64.pow2 (- 1022) <= Qabs y)%Q ->
        (Qabs y < Binary64.pow2 1023)%Q ->
        exists x,
          Binary64.round y = Fin x
          /\ (Qabs (x - y) <= Qabs y * Binary64.pow2 (- 53))%Q)
  /\ (forall q : Q,
        (1000000 <= q)%Q ->
        (q <= Binary64.max_value)%Q ->
        exists x ip fp,
          Binary64.div (Fin q) 1000000 = Fin x
          /\ (Qabs (x - q / 1000000) <= q / 1000000 * Binary64.pow2 (- 53))%Q
          /\ format_price (Fin q) = ("$" ++ ip ++ "." ++ fp ++ "M")%string
          /\ ip <> ""%string
          /\ all_digits ip = true
          /\ all_digits fp = true
          /\ String.length fp = 2%nat
          /\ (Qabs (inject_Z (100 * int_of_digits 0 ip + int_of_digits 0 fp)
                    / 100 - x) <= 1 # 200)%Q)
  /\ (forall q : Q,
        (0 <= q)%Q ->
        (q < 1000000)%Q ->
        exists x ip,
          Binary64.div (Fin q) 1000 = Fin x
          /\ (0 <= x)%Q
          /\ format_price (Fin q) = ("$" ++ ip ++ "k")%string
          /\ ip <> ""%string
          /\ all_digits ip = true
          /\ (Qabs (inject_Z (int_of_digits 0 ip) - x) <= 1 # 2)%Q)
  /\ (forall q : Q,
        (- Binary64.max_value <= q)%Q ->
        (q <= - (1))%Q ->
        exists x ip,
          Binary64.div (Fin q) 1000 = Fin x
          /\ (x < 0)%Q
          /\ format_price (Fin q) = ("$-" ++ ip ++ "k")%string
          /\ ip <> ""%string
          /\ all_digits ip = true
          /\ (Qabs (inject_Z (int_of_digits 0 ip) - Qabs x) <= 1 # 2)%Q)
  /\ (forall (t out : list ScoredRow),
        top20 t out ->
        top20 t (map shown (format_top20 out))
        /\ map (fun d => potential_score (shown d)) (format_top20 out)
           = map potential_score out
        /\ map resale_price_text (format_top20 out)
           = map (fun r => format_price (resale_price (row r))) out).
Proof.
  split; [vm_compute; reflexivity |].
  split; [vm_compute; reflexivity |].
  split; [vm_compute; reflexivity |].
  split; [vm_compute; reflexivity |].
  split; [vm_compute; reflexivity |].
  split; [exact B64Round.round_accuracy |].
  split; [exact PriceFacts.millions_string |].
  split; [exact PriceFacts.thousands_string |].
  split; [exact PriceFacts.thousands_negative |].
  intros t out Htop.
  assert (E : map shown (format_top20 out) = out).
  { unfold format_top20. rewrite map_map. cbn [shown]. apply map_id. }
  split; [now rewrite E |].
  unfold format_top20. rewrite !map_map. cbn [shown resale_price_text].
  split; reflexivity.
Qed.


(** ** Select boxes: options and starting index *)

Module StrFacts.

Lemma ascii_compare_refl (c : ascii) : Ascii.compare c c = Eq.
Proof. unfold Ascii.compare. apply N.compare_refl. Qed.

Lemma compare_refl (s : string) : String.compare s s = Eq.
Proof.
  induction s as [| c s IH]; simpl; [reflexivity |].
  now rewrite ascii_compare_refl.
Qed.

Lemma leb_refl (s : string) : String.leb s s = true.
Proof. unfold String.leb. now rewrite compare_refl. Qed.

Lemma compare_not_Gt_trans (a : string) :
  forall b c,
    String.compare a b <> Gt -> String.compare b c <> Gt ->
    String.compare a c <> Gt.
Proof.
  induction a as [| x a IH]; intros [| y b] [| z c]; simpl; try congruence.
  unfold Ascii.compare.
  destruct (N.compare_spec (N_of_ascii x) (N_of_ascii y)) as [Exy | Lxy | Gxy];
    destruct (N.compare_spec (N_of_ascii y) (N_of_ascii z)) as [Eyz | Lyz | Gyz];
    destruct (N.compare_spec (N_of_ascii x) (N_of_ascii z)) as [Exz | Lxz | Gxz];
    try congruence; try lia.
  apply IH.
Qed.

Lemma string_leb_trans (a b c : string) :
  String.leb a b = true -> String.leb b c = true -> String.leb a c = true.
Proof.
  unfold String.leb. intros Hab Hbc.
  pose proof (compare_not_Gt_trans a b c) as H.
  destruct (String.compare a b), (String.compare b c), (String.compare a c);
    try reflexivity; try discriminate; exfalso; apply H; congruence.
Qed.

Lemma ltb_leb_neq (a b : string) :
  String.ltb a b = true <-> String.leb a b = true /\ a <> b.
Proof.
  unfold String.ltb, String.leb. split.
  - intros H. destruct (String.compare a b) eqn:E; try discriminate.
    split; [reflexivity |]. intros ->. rewrite compare_refl in E. discriminate.
  - intros [H Hne]. destruct (String.compare a b) eqn:E; try discriminate.
    + apply String.compare_eq_iff in E. contradiction.
    + reflexivity.
Qed.

Lemma insert_str_perm (x : string) (l : list string) :
  Permutation (x :: l) (insert_str x l).
Proof.
  induction l as [| y l IH]; simpl; [reflexivity |].
  destruct (String.leb x y); [reflexivity |].
  rewrite perm_swap. now constructor.
Qed.

Lemma sorted_perm (l : list string) : Permutation l (sorted l).
Proof.
  unfold sorted. induction l as [| x l IH]; simpl; [constructor |].
  rewrite <- insert_str_perm. now constructor.
Qed.

Lemma insert_str_sorted (x : string) (l : list string) :
  StronglySorted (fun a b => String.leb a b = true) l ->
  StronglySorted (fun a b => String.leb a b = true) (insert_str x l).
Proof.
  induction l as [| y l IH]; intros Hs; simpl.
  - repeat constructor.
  - inversion Hs as [| ? ? Hl Hy]; subst.
    destruct (String.leb x y) eqn:E.
    + constructor; [exact Hs |]. constructor; [exact E |].
      eapply Forall_impl; [| exact Hy]. intros z. now apply string_leb_trans.
    + constructor; [now apply IH |].
      rewrite <- insert_str_perm. constructor; [| exact Hy].
      destruct (String.leb_total x y); congruence.
Qed.

Lemma sorted_sorted (l : list string) :
  StronglySorted (fun a b => String.leb a b = true) (sorted l).
Proof.
  unfold sorted. induction l as [| x l IH]; simpl;
    [constructor | now apply insert_str_sorted].
Qed.

Lemma unique_In (x : string) (l : list string) : In x (unique l) <-> In x l.
Proof.
  induction l as [| y l IH]; simpl; [tauto |].
  rewrite filter_In, IH, negb_true_iff, String.eqb_neq.
  destruct (string_dec y x) as [-> | Hne]; split; auto.
  - intros [H | [H _]]; auto.
  - intros [H | H]; [contradiction | auto].
Qed.

Lemma unique_NoDup (l : list string) : NoDup (unique l).
Proof.
  induction l as [| y l IH]; simpl; constructor.
  - rewrite filter_In, negb_true_iff, String.eqb_neq. intros [_ H]. now apply H.
  - now apply NoDup_filter.
Qed.

(** A sorted list without repetition is strictly increasing. *)
Lemma strictly_sorted (l : list string) :
  NoDup l ->
  StronglySorted (fun a b => String.leb a b = true) l ->
  StronglySorted (fun a b => String.ltb a b = true) l.
Proof.
  induction l as [| x l IH]; intros Hnd Hs; [constructor |].
  inversion Hnd as [| ? ? Hx Hl]; subst.
  inversion Hs as [| ? ? Hs' Hall]; subst.
  constructor; [now apply IH |].
  rewrite Forall_forall in *. intros y Hy. apply ltb_leb_neq.
  split; [now apply Hall |]. intros ->. contradiction.
Qed.

(** [sorted(col.unique())]: strictly increasing, with exactly the values of
    the column. *)
Lemma options_spec (col : list string) :
  StronglySorted (fun a b => String.ltb a b = true) (sorted (unique col))
  /\ NoDup (sorted (unique col))
  /\ forall x, In x (sorted (unique col)) <-> In x col.
Proof.
  assert (Hnd : NoDup (sorted (unique col))).
  { eapply Permutation_NoDup; [apply sorted_perm | apply unique_NoDup]. }
  split; [apply strictly_sorted; [exact Hnd | apply sorted_sorted] |].
  split; [exact Hnd |].
  intros x. split; intros H.
  - apply unique_In. eapply Permutation_in; [symmetry; apply sorted_perm | exact H].
  - eapply Permutation_in; [apply sorted_perm | now apply unique_In].
Qed.

Lemma index_Ok (x : string) (l : list string) (i : nat) :
  index x l = Ok i ->
  nth_error l i = Some x
  /\ forall j, (j < i)%nat -> nth_error l j <> Some x.
Proof.
  revert i. induction l as [| y l IH]; intros i H; simpl in H; [discriminate |].
  destruct (String.eqb_spec y x) as [-> | Hne].
  - injection H as <-. split; [reflexivity | intros j Hj; lia].
  - destruct (index x l) as [k |] eqn:E; simpl in H; [| discriminate].
    injection H as <-. destruct (IH k eq_refl) as [Hk Hfirst].
    split; [exact Hk |]. intros [| j] Hj; simpl.
    + congruence.
    + apply Hfirst. lia.
Qed.

Lemma index_In (x : string) (l : list string) :
  In x l -> exists i, index x l = Ok i.
Proof.
  induction l as [| y l IH]; intros H; simpl; [destruct H |].
  destruct (String.eqb_spec y x) as [-> | Hne]; [now exists O |].
  destruct H as [-> | H]; [contradiction |].
  destruct (IH H) as [i ->]. now exists (S i).
Qed.

Lemma index_Raise (x : string) (l : list string) (e : exn) :
  index x l = Raise e -> e = ValueError /\ ~ In x l.
Proof.
  induction l as [| y l IH]; intros H; simpl in H.
  - split; [congruence | intros []].
  - destruct (String.eqb_spec y x) as [-> | Hne]; [discriminate |].
    destruct (index x l) as [k |] eqn:E; simpl in H; [discriminate |].
    destruct (IH H) as [He Hn]. split; [exact He |].
    intros [-> | Hin]; contradiction.
Qed.

End StrFacts.


(** X6.  Each select box lists the values of its column once each, in
    strictly increasing (code-point) order: the Town box, the Flat Type box
    and the flat-model tiles. *)
Theorem select_box_options (df : list Listing) :
  (StronglySorted (fun a b => String.ltb a b = true) (town_options df)
   /\ forall x, In x (town_options df) <-> exists r, In r df /\ town r = x)
  /\ (StronglySorted (fun a b => String.ltb a b = true) (flat_type_options df)
      /\ forall x,
           In x (flat_type_options df) <-> exists r, In r df /\ flat_type r = x)
  /\ (StronglySorted (fun a b => String.ltb a b = true) (flat_model_options df)
      /\ forall x,
           In x (flat_model_options df)
           <-> exists r, In r df /\ flat_model r = x).
Proof.
  unfold town_options, flat_type_options, flat_model_options.
  repeat split;
    try (apply StrFacts.options_spec);
    try (intros H; apply StrFacts.options_spec, in_map_iff in H;
         destruct H as (r & <- & Hr); eauto);
    try (intros (r & Hr & <-); apply StrFacts.options_spec, in_map_iff; eauto).
Qed.

(** X7.  The two select boxes can be created exactly when some row has the
    town "BUKIT MERAH" and some row has the flat type "4 ROOM", spelled so:
    the starting index then points at that option, and otherwise
    [list.index] raises [ValueError] (so it does on an empty table). *)
Theorem select_box_start (df : list Listing) :
  ((exists i j, town_index df = Ok i /\ flat_type_index df = Ok j)
   <-> (exists r, In r df /\ town r = "BUKIT MERAH"%string)
       /\ (exists r, In r df /\ flat_type r = "4 ROOM"%string))
  /\ (forall i, town_index df = Ok i ->
        nth_error (town_options df) i = Some "BUKIT MERAH"%string)
  /\ (forall j, flat_type_index df = Ok j ->
        nth_error (flat_type_options df) j = Some "4 ROOM"%string)
  /\ (forall e, town_index df = Raise e -> e = ValueError)
  /\ (forall e, flat_type_index df = Raise e -> e = ValueError)
  /\ town_index [] = Raise ValueError.
Proof.
  unfold town_index, flat_type_index, town_options, flat_type_options.
  split; [split |].
  - intros (i & j & Hi & Hj).
    apply StrFacts.index_Ok in Hi, Hj. destruct Hi as [Hi _], Hj as [Hj _].
    apply nth_error_In in Hi, Hj.
    apply StrFacts.options_spec, in_map_iff in Hi, Hj.
    destruct Hi as (r & Er & Hr), Hj as (r' & Er' & Hr'). split; eauto.
  - intros [(r & Hr & Er) (r' & Hr' & Er')].
    destruct (StrFacts.index_In default_town (sorted (unique (map town df))))
      as [i Hi].
    { apply StrFacts.options_spec, in_map_iff. eauto. }
    destruct (StrFacts.index_In default_flat_type
                (sorted (unique (map flat_type df)))) as [j Hj].
    { apply StrFacts.options_spec, in_map_iff. eauto. }
    eauto.
  - split; [intros i Hi; now apply StrFacts.index_Ok in Hi |].
    split; [intros j Hj; now apply StrFacts.index_Ok in Hj |].
    split; [intros e He; now apply StrFacts.index_Raise in He |].
    split; [intros e He; now apply StrFacts.index_Raise in He | reflexivity].
Qed.


(** ** Filter Data *)

Module FilterFacts.

Lemma mem_In (x : string) (l : list string) : mem x l = true <-> In x l.
Proof.
  unfold mem. rewrite existsb_exists. split.
  - intros (y & Hy & E). apply String.eqb_eq in E. now subst.
  - intros H. exists x. split; [exact H | apply String.eqb_refl].
Qed.

Lemma between_spec (x left right : Z) :
  between x left right = true <-> left <= x <= right.
Proof. unfold between. rewrite andb_true_iff, !Z.leb_le. tauto. Qed.

Lemma between_float_spec (x : pyfloat) (left right : Z) :
  between_float x left right = true
  <-> exists a, x = Fin a /\ (inject_Z left <= a <= inject_Z right)%Q.
Proof.
  unfold between_float, geb, of_Z. rewrite andb_true_iff. split.
  - intros [Hl Hr]. destruct x as [a | | |]; try discriminate.
    exists a. rewrite !leb_Fin in *. auto.
  - intros (a & -> & Hl & Hr). rewrite !leb_Fin. auto.
Qed.

Lemma between_empty (x left right : Z) :
  right < left -> between x left right = false.
Proof.
  intros H. destruct (between x left right) eqn:E; [| reflexivity].
  apply between_spec in E. lia.
Qed.

Lemma between_float_empty (x : pyfloat) (left right : Z) :
  right < left -> between_float x left right = false.
Proof.
  intros H. destruct (between_float x left right) eqn:E; [| reflexivity].
  apply between_float_spec in E. destruct E as (a & _ & Hl & Hr).
  assert (inject_Z left <= inject_Z right)%Q by (eapply Qle_trans; eauto).
  rewrite <- Zle_Qle in *. lia.
Qed.

End FilterFacts.

(** X8.  The filter keeps exactly the rows of the table that pass all seven
    tests: town and flat type equal to the chosen ones once both sides are
    upper-cased, flat model among the selected models, storey, remaining
    lease and month within their ranges (ends included), and a floor area
    that is a number within its range (ends included). *)
Theorem filter_data_rows (s : Sidebar.t) (df : list Listing) (r : Listing) :
  In r (filter_data s df)
  <-> In r df
      /\ upper (town r) = upper (Sidebar.town s)
      /\ upper (flat_type r) = upper (Sidebar.flat_type s)
      /\ In (flat_model r) (Sidebar.selected_flat_models s)
      /\ fst (Sidebar.storey_range s) <= storey_floor (columns r)
         <= snd (Sidebar.storey_range s)
      /\ (exists a,
            floor_area_sqm (columns r) = Fin a
            /\ (inject_Z (fst (Sidebar.floor_area_range s)) <= a
                <= inject_Z (snd (Sidebar.floor_area_range s)))%Q)
      /\ fst (Sidebar.lease_range s) <= remaining_lease_years (columns r)
         <= snd (Sidebar.lease_range s)
      /\ fst (Sidebar.month_range s) <= month r <= snd (Sidebar.month_range s).
Proof.
  unfold filter_data, mask. rewrite filter_In, !andb_true_iff.
  rewrite !String.eqb_eq, FilterFacts.mem_In, !FilterFacts.between_spec,
    FilterFacts.between_float_spec.
  tauto.
Qed.

(** X9.  The filter returns no row at all when no flat model is selected,
    and when any of the four ranges has its lower end above its upper end. *)
Theorem filter_data_empty (s : Sidebar.t) (df : list Listing) :
  Sidebar.selected_flat_models s = []
  \/ snd (Sidebar.storey_range s) < fst (Sidebar.storey_range s)
  \/ snd (Sidebar.floor_area_range s) < fst (Sidebar.floor_area_range s)
  \/ snd (Sidebar.lease_range s) < fst (Sidebar.lease_range s)
  \/ snd (Sidebar.month_range s) < fst (Sidebar.month_range s) ->
  filter_data s df = [].
Proof.
  intros H. unfold filter_data. apply BinFacts.filter_none. intros r _.
  unfold mask.
  destruct H as [H | [H | [H | [H | H]]]].
  - rewrite H. cbn [mem existsb]. now rewrite !andb_false_r.
  - rewrite (FilterFacts.between_empty _ _ _ H). now rewrite !andb_false_r.
  - rewrite (FilterFacts.between_float_empty _ _ _ H).
    now rewrite !andb_false_r.
  - rewrite (FilterFacts.between_empty _ _ _ H). now rewrite !andb_false_r.
  - rewrite (FilterFacts.between_empty _ _ _ H). now rewrite !andb_false_r.
Qed.


(** The theorem applies to the sidebar with no flat model ticked. *)
Lemma filter_data_empty_witness :
  filter_data Samples.none_ticked Samples.df3 = [].
Proof.
  apply (filter_data_empty Samples.none_ticked Samples.df3).
  left. reflexivity.
Defined.


(** ** Flat Model Tiles *)

Module TileFacts.

Lemma tiles_incl (checkbox : nat -> string -> bool -> bool)
    (options state : list string) :
  forall i m, In m (tiles checkbox i options state) -> In m options.
Proof.
  induction options as [| x options IH]; intros i m H; simpl in H; [destruct H |].
  destruct (checkbox _ _ _); [destruct H as [<- | H] |];
    [now left | right; eauto | right; eauto].
Qed.

Lemma tiles_NoDup (checkbox : nat -> string -> bool -> bool)
    (options state : list string) :
  NoDup options -> forall i, NoDup (tiles checkbox i options state).
Proof.
  induction 1 as [| x options Hx Hnd IH]; intros i; simpl; [constructor |].
  destruct (checkbox _ _ _); [| apply IH].
  constructor; [| apply IH]. intros H. apply Hx.
  now apply (tiles_incl checkbox options state (S i)).
Qed.

(** With check boxes left as created, the tiles return the options that are
    in the state. *)
Lemma tiles_untouched (checkbox : nat -> string -> bool -> bool)
    (options state : list string) :
  (forall col label value, checkbox col label value = value) ->
  forall i, tiles checkbox i options state
            = filter (fun m => mem m state) options.
Proof.
  intros Hecho. induction options as [| x options IH]; intros i; simpl;
    [reflexivity |].
  rewrite Hecho. destruct (mem x state); now rewrite IH.
Qed.

Lemma filter_mem_self (options : list string) :
  filter (fun m => mem m options) options = options.
Proof.
  apply BinFacts.filter_all. intros x Hx. now apply FilterFacts.mem_In.
Qed.

(** Filtering the options by membership in a selection made of them gives the
    selection back. *)
Lemma filter_mem_filter (p : string -> bool) (options : list string) :
  filter (fun m => mem m (filter p options)) options = filter p options.
Proof.
  apply filter_ext_in. intros x Hx.
  destruct (p x) eqn:E.
  - apply FilterFacts.mem_In, filter_In. auto.
  - destruct (mem x (filter p options)) eqn:M; [| reflexivity].
    apply FilterFacts.mem_In, filter_In in M. destruct M. congruence.
Qed.

End TileFacts.

(** X10.  Whatever the check boxes return, the models selected are options,
    each at most once when the options are distinct.  With check boxes left
    as created: on the first run the selection is the options that are
    default models, in option order; Select All gives every option;
    Deselect All gives none, also when pressed together with Select All; and
    a run without a button press after a run that selected [filter p options]
    selects the same models again. *)
Theorem selected_flat_models_spec (checkbox : nat -> string -> bool -> bool)
    (options : list string) :
  (forall col label value, checkbox col label value = value) ->
  (forall other session select_all deselect_all,
      (forall m, In m (selected_flat_models other session select_all
                         deselect_all options) -> In m options)
      /\ (NoDup options ->
          NoDup (selected_flat_models other session select_all deselect_all
                   options)))
  /\ selected_flat_models checkbox None false false options
     = filter (fun m => mem m default_flat_models) options
  /\ (forall session,
        selected_flat_models checkbox session true false options = options)
  /\ (forall session select_all,
        selected_flat_models checkbox session select_all true options = [])
  /\ (forall p,
        selected_flat_models checkbox (Some (filter p options)) false false
          options
        = filter p options).
Proof.
  intros Hecho. unfold selected_flat_models. cbv zeta.
  split; [intros other session select_all deselect_all; split |].
  - intros m. apply TileFacts.tiles_incl.
  - intros Hnd. now apply TileFacts.tiles_NoDup.
  - split; [| split; [| split]].
    + rewrite (TileFacts.tiles_untouched checkbox) by exact Hecho.
      apply TileFacts.filter_mem_filter.
    + intros session. rewrite (TileFacts.tiles_untouched checkbox) by exact Hecho.
      apply TileFacts.filter_mem_self.
    + intros session select_all.
      rewrite (TileFacts.tiles_untouched checkbox) by exact Hecho.
      apply BinFacts.filter_none. reflexivity.
    + intros p. rewrite (TileFacts.tiles_untouched checkbox) by exact Hecho.
      apply TileFacts.filter_mem_filter.
Qed.

(** The theorem applies to untouched check boxes over four flat models. *)
Lemma selected_flat_models_spec_witness :
  (forall other session select_all deselect_all,
      (forall m, In m (selected_flat_models other session select_all
                         deselect_all Samples.four_models)
                 -> In m Samples.four_models)
      /\ (NoDup Samples.four_models ->
          NoDup (selected_flat_models other session select_all deselect_all
                   Samples.four_models)))
  /\ selected_flat_models Samples.untouched None false false
       Samples.four_models
     = filter (fun m => mem m default_flat_models) Samples.four_models
  /\ (forall session,
        selected_flat_models Samples.untouched session true false
          Samples.four_models = Samples.four_models)
  /\ (forall session select_all,
        selected_flat_models Samples.untouched session select_all true
          Samples.four_models = [])
  /\ (forall p,
        selected_flat_models Samples.untouched
          (Some (filter p Samples.four_models)) false false
          Samples.four_models
        = filter p Samples.four_models).
Proof.
  apply (selected_flat_models_spec Samples.untouched Samples.four_models).
  reflexivity.
Defined.

(** X11.  Deselect All, with check boxes left as created, empties the
    selection; the filter then keeps no row, and the floor-area bins of the
    empty table raise [ValueError]: the page stops at line 147. *)
Theorem deselect_all_raises (checkbox : nat -> string -> bool -> bool)
    (session : option (list string)) (select_all : bool)
    (options : list string) (s : Sidebar.t) (df : list Listing) :
  (forall col label value, checkbox col label value = value) ->
  Sidebar.selected_flat_models s
  = selected_flat_models checkbox session select_all true options ->
  filter_data s df = []
  /\ floor_bin (map columns (filter_data s df)) = Raise ValueError.
Proof.
  intros Hecho Hsel.
  assert (E : Sidebar.selected_flat_models s = []).
  { rewrite Hsel. unfold selected_flat_models. cbv zeta.
    rewrite (TileFacts.tiles_untouched checkbox) by exact Hecho.
    apply BinFacts.filter_none. reflexivity. }
  assert (F : filter_data s df = []).
  { unfold filter_data. apply BinFacts.filter_none. intros r _.
    unfold mask. rewrite E. cbn [mem existsb]. now rewrite !andb_false_r. }
  split; [exact F |]. now rewrite F.
Qed.

(** The theorem applies to the sidebar with no model ticked over the three
    sales. *)
Lemma deselect_all_raises_witness :
  filter_data Samples.none_ticked Samples.df3 = []
  /\ floor_bin (map columns (filter_data Samples.none_ticked Samples.df3))
     = Raise ValueError.
Proof.
  apply (deselect_all_raises Samples.untouched None false
           Samples.four_models Samples.none_ticked Samples.df3).
  - reflexivity.
  - reflexivity.
Defined.


(** ** Sliders *)

Module SliderFacts.

Lemma dropna_finite (l : list pyfloat) :
  Forall finite l -> Series.dropna l = l.
Proof.
  intros H. unfold Series.dropna. induction H as [| x l [q ->] _ IH].
  - reflexivity.
  - simpl. now rewrite IH.
Qed.

Lemma leb_refl_finite (x : pyfloat) : finite x -> (x <=? x)%F = true.
Proof. intros [q ->]. apply leb_Fin. apply Qle_refl. Qed.

Lemma ltb_leb (x y : pyfloat) : (x <? y)%F = true -> (x <=? y)%F = true.
Proof.
  unfold Float.ltb, Float.leb. destruct (Float.compare x y) as [[] |];
    congruence.
Qed.

Lemma ltb_false_leb (x y : pyfloat) :
  finite x -> finite y -> (x <? y)%F = false -> (y <=? x)%F = true.
Proof.
  intros [p ->] [q ->] H. apply leb_Fin. now apply ltb_Fin_false.
Qed.

(** The running minimum of [Series.min]. *)
Lemma fold_min_spec (l : list pyfloat) :
  forall x,
    finite x -> Forall finite l ->
    let r := fold_left (fun m y => if (y <? m)%F then y else m) l x in
    finite r /\ In r (x :: l) /\ (r <=? x)%F = true
    /\ Forall (fun y => (r <=? y)%F = true) l.
Proof.
  induction l as [| y l IH]; intros x Hx Hl; cbn [fold_left].
  - repeat split; [exact Hx | now left | now apply leb_refl_finite | constructor].
  - inversion Hl as [| ? ? Hy Hl']; subst.
    set (x' := if (y <? x)%F then y else x).
    assert (Hx' : finite x') by (unfold x'; now destruct (y <? x)%F).
    assert (Hx'x : (x' <=? x)%F = true).
    { unfold x'. destruct (y <? x)%F eqn:E;
        [now apply ltb_leb | now apply leb_refl_finite]. }
    assert (Hx'y : (x' <=? y)%F = true).
    { unfold x'. destruct (y <? x)%F eqn:E;
        [now apply leb_refl_finite | now apply ltb_false_leb]. }
    destruct (IH x' Hx' Hl') as (Hr & Hin & Hrx & Hall).
    repeat split.
    + exact Hr.
    + destruct Hin as [E | Hin]; [| right; now right].
      rewrite <- E. unfold x'. destruct (y <? x)%F; [right; now left | now left].
    + eapply Ranking.leb_trans; eassumption.
    + constructor; [eapply Ranking.leb_trans; eassumption | exact Hall].
Qed.

(** The running maximum of [Series.max]. *)
Lemma fold_max_spec (l : list pyfloat) :
  forall x,
    finite x -> Forall finite l ->
    let r := fold_left (fun m y => if (y >? m)%F then y else m) l x in
    finite r /\ In r (x :: l) /\ (x <=? r)%F = true
    /\ Forall (fun y => (y <=? r)%F = true) l.
Proof.
  induction l as [| y l IH]; intros x Hx Hl; cbn [fold_left].
  - repeat split; [exact Hx | now left | now apply leb_refl_finite | constructor].
  - inversion Hl as [| ? ? Hy Hl']; subst.
    set (x' := if (y >? x)%F then y else x).
    assert (Hx' : finite x') by (unfold x'; now destruct (y >? x)%F).
    assert (Hx'x : (x <=? x')%F = true).
    { unfold x', gtb. destruct (x <? y)%F eqn:E;
        [now apply ltb_leb | now apply leb_refl_finite]. }
    assert (Hx'y : (y <=? x')%F = true).
    { unfold x', gtb. destruct (x <? y)%F eqn:E;
        [now apply leb_refl_finite | now apply ltb_false_leb]. }
    destruct (IH x' Hx' Hl') as (Hr & Hin & Hrx & Hall).
    repeat split.
    + exact Hr.
    + destruct Hin as [E | Hin]; [| right; now right].
      rewrite <- E. unfold x'. destruct (y >? x)%F; [right; now left | now left].
    + eapply Ranking.leb_trans; eassumption.
    + constructor; [eapply Ranking.leb_trans; eassumption | exact Hall].
Qed.

Lemma series_min_spec (l : list pyfloat) :
  l <> [] -> Forall finite l ->
  finite (Series.min l) /\ In (Series.min l) l
  /\ Forall (fun y => (Series.min l <=? y)%F = true) l.
Proof.
  intros Hne Hl. unfold Series.min. rewrite dropna_finite by exact Hl.
  destruct l as [| x l]; [contradiction |].
  inversion Hl as [| ? ? Hx Hl']; subst.
  destruct (fold_min_spec l x Hx Hl') as (Hr & Hin & Hrx & Hall).
  repeat split; [exact Hr | exact Hin |]. now constructor.
Qed.

Lemma series_max_spec (l : list pyfloat) :
  l <> [] -> Forall finite l ->
  finite (Series.max l) /\ In (Series.max l) l
  /\ Forall (fun y => (y <=? Series.max l)%F = true) l.
Proof.
  intros Hne Hl. unfold Series.max. rewrite dropna_finite by exact Hl.
  destruct l as [| x l]; [contradiction |].
  inversion Hl as [| ? ? Hx Hl']; subst.
  destruct (fold_max_spec l x Hx Hl') as (Hr & Hin & Hrx & Hall).
  repeat split; [exact Hr | exact Hin |]. now constructor.
Qed.

Lemma py_int_of_Z (z : Z) : py_int (of_Z z) = Ok z.
Proof. unfold py_int, of_Z. simpl. now rewrite Z.quot_1_r. Qed.

(** The slider of a column of integers spans the column. *)
Lemma slider_default_ints (zs : list Z) :
  zs <> [] ->
  exists lo hi,
    slider_default (map of_Z zs) = Ok (lo, hi)
    /\ In lo zs /\ In hi zs
    /\ forall z, In z zs -> lo <= z <= hi.
Proof.
  intros Hne.
  assert (Hfin : Forall finite (map of_Z zs)).
  { apply Forall_forall. intros x Hx. apply in_map_iff in Hx.
    destruct Hx as (z & <- & _). now exists (inject_Z z). }
  assert (Hne' : map of_Z zs <> []) by (destruct zs; [contradiction | discriminate]).
  destruct (series_min_spec _ Hne' Hfin) as (_ & Hmin & Hlo).
  destruct (series_max_spec _ Hne' Hfin) as (_ & Hmax & Hhi).
  apply in_map_iff in Hmin, Hmax.
  destruct Hmin as (lo & Elo & Hlo_in), Hmax as (hi & Ehi & Hhi_in).
  exists lo, hi. unfold slider_default.
  rewrite <- Elo, <- Ehi, !py_int_of_Z. cbn [bind].
  rewrite Forall_forall in Hlo, Hhi.
  repeat split; try assumption.
  - apply Z.leb_le. rewrite <- leb_of_Z, Elo. apply Hlo. now apply in_map.
  - apply Z.leb_le. rewrite <- leb_of_Z, Ehi. apply Hhi. now apply in_map.
Qed.

Lemma trunc_nonneg (q : Q) :
  (0 <= q)%Q ->
  Z.quot (Qnum q) (Zpos (Qden q)) = Qfloor q.
Proof.
  intros Hq. destruct q as [n d]. unfold Qle in Hq. simpl in *.
  apply Z.quot_div_nonneg; lia.
Qed.

End SliderFacts.


(** X12.  On a table with at least one row, the Storey and Remaining Lease
    sliders start on a range whose ends are the smallest and the largest
    value of the column, so that every row of the table lies within the
    starting range; on an empty table creating the slider raises
    [ValueError]. *)
Theorem integer_sliders_span (df : list Listing) :
  df <> [] ->
  (exists lo hi,
      storey_slider df = Ok (lo, hi)
      /\ (exists r, In r df /\ storey_floor (columns r) = lo)
      /\ (exists r, In r df /\ storey_floor (columns r) = hi)
      /\ forall r, In r df -> between (storey_floor (columns r)) lo hi = true)
  /\ (exists lo hi,
        lease_slider df = Ok (lo, hi)
        /\ (exists r, In r df /\ remaining_lease_years (columns r) = lo)
        /\ (exists r, In r df /\ remaining_lease_years (columns r) = hi)
        /\ forall r, In r df ->
             between (remaining_lease_years (columns r)) lo hi = true)
  /\ storey_slider [] = Raise ValueError
  /\ lease_slider [] = Raise ValueError.
Proof.
  intros Hne.
  assert (Hcol : forall f : Listing -> Z,
            exists lo hi,
              slider_default (map (fun r => of_Z (f r)) df) = Ok (lo, hi)
              /\ (exists r, In r df /\ f r = lo)
              /\ (exists r, In r df /\ f r = hi)
              /\ forall r, In r df -> between (f r) lo hi = true).
  { intros f.
    destruct (SliderFacts.slider_default_ints (map f df))
      as (lo & hi & E & Hlo & Hhi & Hall).
    { destruct df; [contradiction | discriminate]. }
    rewrite map_map in E. exists lo, hi. split; [exact E |].
    apply in_map_iff in Hlo, Hhi.
    destruct Hlo as (r1 & E1 & H1), Hhi as (r2 & E2 & H2).
    split; [eauto |]. split; [eauto |].
    intros r Hr. apply FilterFacts.between_spec. apply Hall. now apply in_map. }
  split; [apply (Hcol (fun r => storey_floor (columns r))) |].
  split; [apply (Hcol (fun r => remaining_lease_years (columns r))) |].
  split; reflexivity.
Qed.

(** The theorem applies to the table of the three sales: storeys 5 to 25,
    leases 55 to 93. *)
Lemma integer_sliders_span_witness :
  (exists lo hi,
      storey_slider Samples.df3 = Ok (lo, hi)
      /\ (exists r, In r Samples.df3 /\ storey_floor (columns r) = lo)
      /\ (exists r, In r Samples.df3 /\ storey_floor (columns r) = hi)
      /\ forall r, In r Samples.df3 ->
           between (storey_floor (columns r)) lo hi = true)
  /\ (exists lo hi,
        lease_slider Samples.df3 = Ok (lo, hi)
        /\ (exists r, In r Samples.df3 /\ remaining_lease_years (columns r) = lo)
        /\ (exists r, In r Samples.df3 /\ remaining_lease_years (columns r) = hi)
        /\ forall r, In r Samples.df3 ->
             between (remaining_lease_years (columns r)) lo hi = true)
  /\ storey_slider [] = Raise ValueError
  /\ lease_slider [] = Raise ValueError.
Proof.
  apply (integer_sliders_span Samples.df3). discriminate.
Defined.

(** X13.  On a table whose floor areas are numbers, none negative, the Floor
    Area slider starts on the range from [int(min)] to [int(max)], and its
    upper end is the largest area rounded down: a row is inside the starting
    range exactly when its area is at most [int(max)], so rows with an area
    above [int(max)] (the largest area itself, when it has a fraction) are
    left out from the start. *)
Theorem floor_area_slider_truncates (df : list Listing) :
  df <> [] ->
  (forall r, In r df ->
     exists a, floor_area_sqm (columns r) = Fin a /\ (0 <= a)%Q) ->
  exists lo hi mx,
    floor_area_slider df = Ok (lo, hi)
    /\ Series.max (map (fun r => floor_area_sqm (columns r)) df) = Fin mx
    /\ (inject_Z hi <= mx)%Q /\ (mx < inject_Z (hi + 1))%Q
    /\ forall r a,
         In r df -> floor_area_sqm (columns r) = Fin a ->
         (between_float (floor_area_sqm (columns r)) lo hi = true
          <-> (a <= inject_Z hi)%Q).
Proof.
  intros Hne Hareas.
  set (areas := map (fun r => floor_area_sqm (columns r)) df).
  assert (Hfin : Forall finite areas).
  { apply Forall_forall. intros x Hx. apply in_map_iff in Hx.
    destruct Hx as (r & <- & Hr). destruct (Hareas r Hr) as (a & -> & _).
    now exists a. }
  assert (Hne' : areas <> []) by (destruct df; [contradiction | discriminate]).
  destruct (SliderFacts.series_min_spec _ Hne' Hfin) as ([mn Emn] & Hmin & Hlo).
  destruct (SliderFacts.series_max_spec _ Hne' Hfin) as ([mx Emx] & Hmax & Hhi).
  assert (Hmn : (0 <= mn)%Q).
  { rewrite Emn in Hmin. apply in_map_iff in Hmin.
    destruct Hmin as (r & Er & Hr). destruct (Hareas r Hr) as (a & Ea & Ha).
    congruence. }
  assert (Hmx : (0 <= mx)%Q).
  { rewrite Emx in Hmax. apply in_map_iff in Hmax.
    destruct Hmax as (r & Er & Hr). destruct (Hareas r Hr) as (a & Ea & Ha).
    congruence. }
  exists (Qfloor mn), (Qfloor mx), mx.
  split.
  { unfold floor_area_slider, slider_default. fold areas.
    rewrite Emn, Emx. cbn [py_int bind].
    now rewrite !SliderFacts.trunc_nonneg by assumption. }
  split; [exact Emx |]. split; [apply Qfloor_le |]. split; [apply Qlt_floor |].
  intros r a Hr Ea. rewrite FilterFacts.between_float_spec. split.
  - intros (a' & Ea' & _ & Hle). congruence.
  - intros Hle. exists a. split; [exact Ea |]. split; [| exact Hle].
    rewrite Forall_forall in Hlo.
    assert (Hma : (Series.min areas <=? Fin a)%F = true).
    { apply Hlo. rewrite <- Ea. unfold areas.
      now apply (in_map (fun r => floor_area_sqm (columns r))). }
    rewrite Emn in Hma. apply leb_Fin in Hma.
    eapply Qle_trans; [apply Qfloor_le | exact Hma].
Qed.

(** The theorem applies to a table whose largest floor area is 95.5. *)
Lemma floor_area_slider_truncates_witness :
  exists lo hi mx,
    floor_area_slider [Samples.saleB; Samples.saleC] = Ok (lo, hi)
    /\ Series.max (map (fun r => floor_area_sqm (columns r))
                     [Samples.saleB; Samples.saleC]) = Fin mx
    /\ (inject_Z hi <= mx)%Q /\ (mx < inject_Z (hi + 1))%Q
    /\ forall r a,
         In r [Samples.saleB; Samples.saleC] ->
         floor_area_sqm (columns r) = Fin a ->
         (between_float (floor_area_sqm (columns r)) lo hi = true
          <-> (a <= inject_Z hi)%Q).
Proof.
  apply (floor_area_slider_truncates [Samples.saleB; Samples.saleC]).
  - discriminate.
  - intros r [<- | [<- | []]]; eexists; (split; [reflexivity |]);
      unfold Qle; simpl; lia.
Defined.


(** ** Charts by floor category *)

Module ChartFacts.

Lemma three_way_partition {A : Type} (p1 p2 p3 q : A -> bool) (l : list A) :
  (forall x, In x l ->
     (p1 x = true /\ p2 x = false /\ p3 x = false /\ q x = true)
     \/ (p1 x = false /\ p2 x = true /\ p3 x = false /\ q x = true)
     \/ (p1 x = false /\ p2 x = false /\ p3 x = true /\ q x = true)
     \/ (p1 x = false /\ p2 x = false /\ p3 x = false /\ q x = false)) ->
  Permutation (filter p1 l ++ filter p2 l ++ filter p3 l) (filter q l).
Proof.
  induction l as [| x l IH]; intros H; [constructor |].
  assert (IH' := IH (fun y Hy => H y (or_intror Hy))).
  cbn [filter].
  destruct (H x (or_introl eq_refl))
    as [(-> & -> & -> & ->) | [(-> & -> & -> & ->) | [(-> & -> & -> & ->)
        | (-> & -> & -> & ->)]]].
  - cbn [app]. now constructor.
  - rewrite <- app_comm_cons, <- Permutation_middle. now constructor.
  - rewrite app_assoc, <- Permutation_middle, <- app_assoc. now constructor.
  - exact IH'.
Qed.

Lemma category_by_storey (r : Row) :
  let s := storey_floor r in
  let has c := match floor_category r with
              | Some c' => (c' =? c)%string
              | None => false
              end in
  (21 <= s <= 100 /\ has "High (>20)"%string = true
   /\ has "Mid (10-20)"%string = false /\ has "Low (<10)"%string = false)
  \/ (10 <= s <= 20 /\ has "High (>20)"%string = false
      /\ has "Mid (10-20)"%string = true /\ has "Low (<10)"%string = false)
  \/ (0 <= s <= 9 /\ has "High (>20)"%string = false
      /\ has "Mid (10-20)"%string = false /\ has "Low (<10)"%string = true)
  \/ ((s < 0 \/ 100 < s) /\ has "High (>20)"%string = false
      /\ has "Mid (10-20)"%string = false /\ has "Low (<10)"%string = false).
Proof.
  cbv zeta. rewrite floor_category_cases.
  destruct (Z.leb_spec (storey_floor r) (-1)), (Z.leb_spec (storey_floor r) 9),
    (Z.leb_spec (storey_floor r) 20), (Z.leb_spec (storey_floor r) 100);
    try lia;
    solve [ left; repeat split; (reflexivity || lia)
          | right; left; repeat split; (reflexivity || lia)
          | right; right; left; repeat split; (reflexivity || lia)
          | right; right; right; repeat split; (reflexivity || lia) ].
Qed.

End ChartFacts.

(** X14.  The three per-category tables behind the trend charts hold, between
    them, each row with a storey from 0 to 100 exactly once: storeys 21 to
    100 in "High (>20)", 10 to 20 in "Mid (10-20)", 0 to 9 in "Low (<10)".
    A row with a storey above 100 is in none of them. *)
Theorem charts_partition (filtered : list Row) :
  Permutation
    (df_cat "High (>20)" filtered ++ df_cat "Mid (10-20)" filtered
     ++ df_cat "Low (<10)" filtered)
    (filter (fun r => (0 <=? storey_floor r) && (storey_floor r <=? 100))
            filtered)
  /\ (forall r, In r (df_cat "High (>20)" filtered)
                <-> In r filtered /\ 21 <= storey_floor r <= 100)
  /\ (forall r, In r (df_cat "Mid (10-20)" filtered)
                <-> In r filtered /\ 10 <= storey_floor r <= 20)
  /\ (forall r, In r (df_cat "Low (<10)" filtered)
                <-> In r filtered /\ 0 <= storey_floor r <= 9).
Proof.
  split.
  - unfold df_cat. apply ChartFacts.three_way_partition. intros r _.
    destruct (ChartFacts.category_by_storey r)
      as [(Hs & -> & -> & ->) | [(Hs & -> & -> & ->) | [(Hs & -> & -> & ->)
          | (Hs & -> & -> & ->)]]].
    + left. repeat split. apply andb_true_iff. split; apply Z.leb_le; lia.
    + right; left. repeat split. apply andb_true_iff. split; apply Z.leb_le; lia.
    + right; right; left. repeat split.
      apply andb_true_iff. split; apply Z.leb_le; lia.
    + right; right; right. repeat split. apply andb_false_iff.
      destruct Hs; [left | right]; apply Z.leb_gt; lia.
  - assert (Hcat := ChartFacts.category_by_storey). cbv zeta in Hcat.
    unfold df_cat.
    split; [| split]; intros r; rewrite filter_In;
      (split; intros [Hin Hc]; (split; [exact Hin |]);
       destruct (Hcat r)
         as [(Hs & E1 & E2 & E3) | [(Hs & E1 & E2 & E3) | [(Hs & E1 & E2 & E3)
             | (Hs & E1 & E2 & E3)]]];
       (congruence || lia)).
Qed.


(** ** Scores compared *)

Module DominanceFacts.

Lemma floor_bonus_mono (s1 s2 : Z) :
  s2 <= s1 -> (Spec.floor_bonus s2 <= Spec.floor_bonus s1)%Q.
Proof.
  intros H. unfold Spec.floor_bonus.
  destruct (Z.gtb_spec s2 20), (Z.gtb_spec s1 20); try lia; try lra;
    destruct (Z.geb_spec s2 10), (Z.geb_spec s1 10); try lia; lra.
Qed.

Lemma lease_penalty_mono (l1 l2 : Z) :
  l2 <= l1 -> (Spec.lease_penalty l2 <= Spec.lease_penalty l1)%Q.
Proof.
  intros H. unfold Spec.lease_penalty.
  destruct (Z.ltb_spec l2 60), (Z.ltb_spec l1 60); try lia; try lra;
    destruct (Z.ltb_spec l2 80), (Z.ltb_spec l1 80); try lia; lra.
Qed.

Lemma ltb_leb_trans (x y z : pyfloat) :
  (x <? y)%F = true -> (y <=? z)%F = true -> (x <? z)%F = true.
Proof.
  destruct x as [a | | |], y as [b | | |], z as [c | | |];
    try (cbv; congruence); try reflexivity.
  rewrite !ltb_Fin, leb_Fin. intros; lra.
Qed.

Lemma area_bonus_mono (a1 a2 med : pyfloat) :
  (a2 <=? a1)%F = true ->
  (Spec.area_bonus (a2 >? med)%F <= Spec.area_bonus (a1 >? med)%F)%Q.
Proof.
  intros H. unfold Spec.area_bonus, gtb.
  destruct (med <? a2)%F eqn:E2.
  - rewrite (ltb_leb_trans _ _ _ E2 H). lra.
  - destruct (med <? a1)%F; lra.
Qed.

Lemma value_adjustment_anti (p1 p2 m : Q) :
  (0 < m)%Q -> (p1 <= p2)%Q ->
  (Spec.value_adjustment p2 m <= Spec.value_adjustment p1 m)%Q.
Proof.
  intros Hm Hp.
  pose proof (value_adjustment_at_most_15 p2 m Hm) as H15.
  unfold Spec.value_adjustment in *.
  destruct (Qcompare_spec p1 m) as [E1 | L1 | G1]; try exact H15;
    (destruct (Qcompare_spec p2 m) as [E2 | L2 | G2]; try lra;
     assert (Hd : ((p1 - m) / m <= (p2 - m) / m)%Q)
       by (apply Qmult_le_compat_r; [lra | apply Qlt_le_weak, Qinv_lt_0_compat, Hm]);
     lra).
Qed.

Lemma clamp_mono (x y : Q) :
  (x <= y)%Q -> (Spec.clamp x 0 100 <= Spec.clamp y 0 100)%Q.
Proof.
  intros H. unfold Spec.clamp.
  destruct (Qcompare_spec x 0), (Qcompare_spec y 0); try lra;
    destruct (Qcompare_spec 100 x), (Qcompare_spec 100 y); lra.
Qed.

End DominanceFacts.

(** X15.  Within one filtered table whose median price per sqm is positive,
    a row that is at least as good as another on every input of the score
    (storey not lower, floor area not smaller, remaining lease not shorter,
    price per sqm not higher) never scores lower. *)
Theorem better_row_scores_no_lower (filtered : list Row) (r1 r2 : Row)
    (p1 p2 m : Q) :
  median_psqm filtered = Fin m ->
  (0 < m)%Q ->
  price_per_sqm r1 = Fin p1 ->
  price_per_sqm r2 = Fin p2 ->
  (p1 <= p2)%Q ->
  storey_floor r2 <= storey_floor r1 ->
  (floor_area_sqm r2 <=? floor_area_sqm r1)%F = true ->
  remaining_lease_years r2 <= remaining_lease_years r1 ->
  (calculate_value_score filtered r2 <=? calculate_value_score filtered r1)%F
  = true.
Proof.
  intros Hm Hpos Hp1 Hp2 Hp Hs Ha Hl.
  assert (Hm0 : ~ (m == 0)%Q) by lra.
  destruct (calculate_value_score_refines filtered r1 p1 m Hp1 Hm Hm0)
    as (s1 & E1 & Q1).
  destruct (calculate_value_score_refines filtered r2 p2 m Hp2 Hm Hm0)
    as (s2 & E2 & Q2).
  rewrite E1, E2. apply leb_Fin. rewrite Q1, Q2. unfold Spec.score.
  apply DominanceFacts.clamp_mono.
  pose proof (DominanceFacts.floor_bonus_mono _ _ Hs).
  pose proof (DominanceFacts.lease_penalty_mono _ _ Hl).
  pose proof (DominanceFacts.area_bonus_mono _ _ (median_floor_area filtered) Ha).
  pose proof (DominanceFacts.value_adjustment_anti p1 p2 m Hpos Hp).
  lra.
Qed.

(** The theorem applies to the two rows of the scenario: row A is at least
    as good as row B on every input. *)
Lemma better_row_scores_no_lower_witness :
  (calculate_value_score [Examples.rowA; Examples.rowB] Examples.rowB
   <=? calculate_value_score [Examples.rowA; Examples.rowB] Examples.rowA)%F
  = true.
Proof.
  apply (better_row_scores_no_lower [Examples.rowA; Examples.rowB]
           Examples.rowA Examples.rowB 4000 6000 5000).
  - reflexivity.
  - reflexivity.
  - reflexivity.
  - reflexivity.
  - unfold Qle; simpl; lia.
  - simpl; lia.
  - reflexivity.
  - simpl; lia.
Defined.

(** X16.  Against a positive median price per sqm, a score reaches 75 (the
    green band of [score_color]) exactly when the row collects every bonus
    and no penalty: storey above 20, floor area above the median, price per
    sqm below the median and at least 80 years of lease left.  The rationale
    of such a row names the three bonuses. *)
Theorem green_score_iff (filtered : list Row) (row : Row) (p m : Q) :
  price_per_sqm row = Fin p ->
  median_psqm filtered = Fin m ->
  (0 < m)%Q ->
  let best :=
    20 < storey_floor row
    /\ (floor_area_sqm row >? median_floor_area filtered)%F = true
    /\ (p < m)%Q
    /\ 80 <= remaining_lease_years row in
  (score_color (calculate_value_score filtered row)
   = "background-color: #2ECC71"%string <-> best)
  /\ (best ->
      denotes (calculate_value_score filtered row) 75
      /\ explain_score filtered row
         = "High floor, Spacious, Good value $/sqm"%string).
Proof.
  intros Hp Hm Hpos best.
  assert (Hm0 : ~ (m == 0)%Q) by lra.
  destruct (calculate_value_score_refines filtered row p m Hp Hm Hm0)
    as (s & Es & Qs).
  pose proof (value_adjustment_at_most_15 p m Hpos) as H15.
  pose proof (value_adjustment_nonpos p m Hpos) as Hnp.
  assert (Hva : (p < m)%Q -> (Spec.value_adjustment p m == 15)%Q).
  { intros L. unfold Spec.value_adjustment.
    destruct (Qcompare_spec p m); lra. }
  assert (Hcolor :
            score_color (Fin s) = "background-color: #2ECC71"%string
            <-> (75 <= s)%Q).
  { unfold score_color, geb. change (of_Z 75) with (Fin 75).
    change (of_Z 50) with (Fin 50).
    destruct (Fin 75 <=? Fin s)%F eqn:E75.
    - apply leb_Fin in E75. tauto.
    - split; [| intros H; apply leb_Fin in H; congruence].
      destruct (Fin 50 <=? Fin s)%F; discriminate. }
  assert (Hscore : (75 <= s)%Q <-> best).
  { rewrite Qs. unfold best, Spec.score, Spec.clamp, Spec.floor_bonus,
      Spec.area_bonus, Spec.lease_penalty.
    destruct (Z.gtb_spec (storey_floor row) 20);
      destruct (Z.geb_spec (storey_floor row) 10);
      destruct (floor_area_sqm row >? median_floor_area filtered)%F;
      destruct (Z.ltb_spec (remaining_lease_years row) 60);
      destruct (Z.ltb_spec (remaining_lease_years row) 80);
      try lia;
      destruct (Qlt_le_dec p m) as [L | G];
      try (specialize (Hva L)); try (specialize (Hnp G));
      match goal with
      | |- context [(?x ?= 0)%Q] =>
          destruct (Qcompare_spec x 0); try lra;
          destruct (Qcompare_spec 100 x); try lra
      end;
      (split; [intros H75; try lra; repeat split; try lia; try lra; auto
              | intros [? [? [? ?]]]; try lia; try lra;
                try discriminate]). }
  split.
  - rewrite Es, Hcolor. exact Hscore.
  - intros Hbest. split.
    + exists s. split; [exact Es |].
      apply Hscore in Hbest.
      destruct (calculate_value_score_le_75 filtered row p m Hp Hm Hpos)
        as (s' & Es' & Hs').
      assert (s' = s) by congruence. subst s'. lra.
    + destruct Hbest as (H1 & H2 & H3 & H4).
      unfold explain_score. rewrite H2, Hp, Hm.
      apply Z.gtb_lt in H1. rewrite H1.
      assert (E60 : (remaining_lease_years row <? 60) = false)
        by (apply Z.ltb_ge; lia).
      rewrite E60. apply ltb_Fin in H3. rewrite H3. reflexivity.
Qed.

(** The theorem applies to row A of the scenario. *)
Lemma green_score_iff_witness :
  (score_color (calculate_value_score [Examples.rowA; Examples.rowB]
                  Examples.rowA)
   = "background-color: #2ECC71"%string
   <-> 20 < storey_floor Examples.rowA
       /\ (floor_area_sqm Examples.rowA
           >? median_floor_area [Examples.rowA; Examples.rowB])%F = true
       /\ (4000 < 5000)%Q
       /\ 80 <= remaining_lease_years Examples.rowA)
  /\ (20 < storey_floor Examples.rowA
      /\ (floor_area_sqm Examples.rowA
          >? median_floor_area [Examples.rowA; Examples.rowB])%F = true
      /\ (4000 < 5000)%Q
      /\ 80 <= remaining_lease_years Examples.rowA ->
      denotes (calculate_value_score [Examples.rowA; Examples.rowB]
                 Examples.rowA) 75
      /\ explain_score [Examples.rowA; Examples.rowB] Examples.rowA
         = "High floor, Spacious, Good value $/sqm"%string).
Proof.
  apply (green_score_iff [Examples.rowA; Examples.rowB] Examples.rowA
           4000 5000); reflexivity.
Defined.

(** ** Loaded rows *)

Module LoadFacts.

Lemma is_digit_value (c : ascii) :
  is_digit c = true -> 0 <= Z.of_nat (nat_of_ascii c) - 48 <= 9.
Proof.
  unfold is_digit. rewrite andb_true_iff, !Nat.leb_le. lia.
Qed.

Lemma int_of_digits_nonneg (s : string) :
  forall acc, 0 <= acc -> all_digits s = true -> 0 <= int_of_digits acc s.
Proof.
  induction s as [| c s IH]; intros acc Hacc Hs; cbn [int_of_digits].
  - exact Hacc.
  - cbn [all_digits] in Hs. apply andb_true_iff in Hs. destruct Hs as [Hc Hs].
    apply is_digit_value in Hc. apply IH; [lia | exact Hs].
Qed.

Lemma take_digits_all_digits (s : string) : all_digits (take_digits s) = true.
Proof.
  induction s as [| c s IH]; [reflexivity |]. cbn [take_digits].
  destruct (is_digit c) eqn:Ec; [| reflexivity].
  cbn [all_digits]. now rewrite Ec, IH.
Qed.

Lemma str_extract_all_digits (s d : string) :
  str_extract s = Some d -> all_digits d = true.
Proof.
  induction s as [| c s IH]; cbn [str_extract]; [discriminate |].
  destruct (is_digit c) eqn:Ec; [| exact IH].
  intros H. injection H as <-. cbn [all_digits].
  now rewrite Ec, take_digits_all_digits.
Qed.

Lemma astype_int_nonneg (s : string) (z : Z) :
  astype_int (str_extract s) = Ok z -> 0 <= z.
Proof.
  intros H. apply astype_int_Ok in H. destruct H as (d & E & <- & _).
  apply int_of_digits_nonneg; [lia |]. now apply str_extract_all_digits in E.
Qed.

Lemma load_row_nonneg (c : CsvRecord) (r : Row) :
  load_row c = Ok r -> 0 <= storey_floor r /\ 0 <= remaining_lease_years r.
Proof.
  unfold load_row. intros H.
  destruct (astype_int (str_extract (csv_remaining_lease c))) as [l |] eqn:El;
    [| discriminate].
  destruct (astype_int (str_extract (csv_storey_range c))) as [s |] eqn:Es;
    [| discriminate].
  cbn [bind] in H. injection H as <-. cbn [storey_floor remaining_lease_years].
  split; eapply astype_int_nonneg; eassumption.
Qed.

Lemma load_data_rows (csv : list CsvRecord) (table : list Row) (r : Row) :
  load_data csv = Ok table -> In r table ->
  exists c, In c csv /\ load_row c = Ok r.
Proof.
  intros H. apply load_data_by_rows, mapM_Forall2 in H.
  induction H as [| c r' csv' t' Hc _ IH]; intros Hr; [destruct Hr |].
  destruct Hr as [<- | Hr].
  - exists c. split; [now left | exact Hc].
  - destruct (IH Hr) as (c' & Hc' & E). exists c'. split; [now right | exact E].
Qed.

End LoadFacts.

(** X17.  The loader reads [storey_floor] and [remaining_lease_years] from
    runs of digits, so neither is ever negative in a loaded table.  A loaded
    row therefore misses its floor category only when its storey is above
    100, and rows filed under "0-60 yrs" have between 0 and 60 years left. *)
Theorem loaded_rows_nonnegative (csv : list CsvRecord) (table : list Row)
    (r : Row) :
  load_data csv = Ok table ->
  In r table ->
  0 <= storey_floor r
  /\ 0 <= remaining_lease_years r
  /\ (floor_category r = None <-> 100 < storey_floor r)
  /\ (lease_bucket (remaining_lease_years r) = "0-60 yrs"%string
      <-> 0 <= remaining_lease_years r <= 60).
Proof.
  intros Hload Hr.
  destruct (LoadFacts.load_data_rows csv table r Hload Hr) as (c & _ & Hc).
  destruct (LoadFacts.load_row_nonneg c r Hc) as [Hs Hl].
  split; [exact Hs |]. split; [exact Hl |]. split.
  - rewrite floor_category_cases.
    destruct (Z.leb_spec (storey_floor r) (-1)); [lia |].
    destruct (Z.leb_spec (storey_floor r) 9); [split; [discriminate | lia] |].
    destruct (Z.leb_spec (storey_floor r) 20); [split; [discriminate | lia] |].
    destruct (Z.leb_spec (storey_floor r) 100); [split; [discriminate | lia] |].
    split; [lia | reflexivity].
  - unfold lease_bucket.
    destruct (Z.geb_spec (remaining_lease_years r) 81);
      [split; [discriminate | lia] |].
    destruct (Z.geb_spec (remaining_lease_years r) 61);
      [split; [discriminate | lia] |].
    split; [lia | reflexivity].
Qed.

(** The theorem applies to row B of the scenario. *)
Lemma loaded_rows_nonnegative_witness :
  0 <= storey_floor Examples.rowB
  /\ 0 <= remaining_lease_years Examples.rowB
  /\ (floor_category Examples.rowB = None <-> 100 < storey_floor Examples.rowB)
  /\ (lease_bucket (remaining_lease_years Examples.rowB) = "0-60 yrs"%string
      <-> 0 <= remaining_lease_years Examples.rowB <= 60).
Proof.
  apply (loaded_rows_nonnegative [Examples.csvA; Examples.csvB]
           [Examples.rowA; Examples.rowB] Examples.rowB).
  - reflexivity.
  - right. left. reflexivity.
Defined.

(** ** Average resale price by street *)

Module GroupFacts.

Lemma length_filter_map {A B : Type} (f : A -> B) (p : B -> bool) (l : list A) :
  List.length (filter p (map f l)) = List.length (filter (fun a => p (f a)) l).
Proof.
  induction l as [| a l IH]; simpl; [reflexivity |].
  destruct (p (f a)); simpl; now rewrite IH.
Qed.

Lemma filter_filter {A : Type} (p q : A -> bool) (l : list A) :
  filter p (filter q l) = filter (fun a => q a && p a) l.
Proof.
  induction l as [| a l IH]; simpl; [reflexivity |].
  destruct (q a); simpl; [destruct (p a) |]; now rewrite IH.
Qed.

Lemma list_sum_cons (n : nat) (l : list nat) :
  list_sum (n :: l) = (n + list_sum l)%nat.
Proof. reflexivity. Qed.

Lemma list_sum_zeros {A : Type} (l : list A) :
  list_sum (map (fun _ => 0%nat) l) = 0%nat.
Proof. induction l as [| a l IH]; [reflexivity |]. exact IH. Qed.

(** A key that occurs once among the keys is counted once. *)
Lemma key_counted_once (k : string) (keys : list string) :
  NoDup keys -> In k keys ->
  list_sum (map (fun s => if (k =? s)%string then 1 else 0)%nat keys) = 1%nat.
Proof.
  intros Hnd. induction Hnd as [| s keys Hs _ IH]; intros Hk; [destruct Hk |].
  cbn [map]. rewrite list_sum_cons.
  destruct (String.eqb_spec k s) as [-> | Hne].
  - assert (E : map (fun s0 => if (s =? s0)%string then 1 else 0)%nat keys
                = map (fun _ => 0%nat) keys).
    { apply map_ext_in. intros s' Hs'.
      destruct (String.eqb_spec s s') as [-> | _]; [contradiction | reflexivity]. }
    rewrite E. now rewrite list_sum_zeros.
  - destruct Hk as [-> | Hk]; [contradiction |]. now rewrite IH.
Qed.

(** Grouping by a key loses no row and counts none twice. *)
Lemma groups_cover {A : Type} (key : A -> string) (keys : list string)
    (l : list A) :
  NoDup keys ->
  (forall a, In a l -> In (key a) keys) ->
  list_sum (map (fun s => List.length (filter (fun a => (key a =? s)%string) l))
              keys)
  = List.length l.
Proof.
  intros Hnd. induction l as [| a l IH]; intros Hin.
  - cbn [filter List.length]. apply list_sum_zeros.
  - assert (E : map (fun s => List.length
                                (filter (fun a0 => (key a0 =? s)%string) (a :: l)))
                  keys
                = map (fun s => ((if (key a =? s)%string then 1 else 0)
                                 + List.length
                                     (filter (fun a0 => (key a0 =? s)%string) l))%nat)
                    keys).
    { apply map_ext. intros s. cbn [filter].
      destruct (key a =? s)%string; reflexivity. }
    rewrite E.
    assert (Hsum : forall (f g : string -> nat) ks,
               list_sum (map (fun s => (f s + g s)%nat) ks)
               = (list_sum (map f ks) + list_sum (map g ks))%nat).
    { intros f g ks. induction ks as [| s ks IHk]; [reflexivity |].
      cbn [map]. rewrite !list_sum_cons, IHk. lia. }
    rewrite Hsum, key_counted_once, IH; [reflexivity | | exact Hnd |].
    + intros a' Ha'. apply Hin. now right.
    + apply Hin. now left.
Qed.

Lemma sorted_map_street (f : string -> StreetStat) (keys : list string) :
  (forall s, street (f s) = s) ->
  StronglySorted (fun a b => String.ltb a b = true) keys ->
  StronglySorted (fun a b => String.ltb (street a) (street b) = true)
    (map f keys).
Proof.
  intros Hf Hs. induction Hs as [| s keys _ IH Hall]; simpl; constructor.
  - exact IH.
  - apply Forall_forall. intros g Hg. apply in_map_iff in Hg.
    destruct Hg as (s' & <- & Hs'). rewrite !Hf.
    rewrite Forall_forall in Hall. now apply Hall.
Qed.

End GroupFacts.

(** X18.  The street table has one line per street of the filtered table,
    streets in strictly increasing order; the count of a line is the number
    of rows of that street whose price is not NaN, a line that counts no
    row has a NaN average, and the counts add up to the number of rows with
    a price: no row is lost or counted twice. *)
Theorem street_stats_groups (filtered : list Listing) :
  StronglySorted (fun a b => String.ltb (street a) (street b) = true)
    (street_stats filtered)
  /\ (forall s,
        In s (map street (street_stats filtered))
        <-> exists r, In r filtered /\ street_name r = s)
  /\ (forall g, In g (street_stats filtered) ->
        count g
        = List.length
            (filter (fun r => (street_name r =? street g)%string
                              && negb (is_nan (resale_price (columns r))))
               filtered)
        /\ (count g = 0%nat -> avg_price g = NaN))
  /\ list_sum (map count (street_stats filtered))
     = List.length
         (filter (fun r => negb (is_nan (resale_price (columns r)))) filtered).
Proof.
  destruct (StrFacts.options_spec (map street_name filtered))
    as (Hsorted & Hnd & Hin).
  assert (Hcount : forall s,
            series_count
              (map (fun r => resale_price (columns r))
                 (filter (fun r => (street_name r =? s)%string) filtered))
            = List.length
                (filter (fun r => (street_name r =? s)%string
                                  && negb (is_nan (resale_price (columns r))))
                   filtered)).
  { intros s. unfold series_count, Series.dropna.
    rewrite (GroupFacts.length_filter_map (fun r => resale_price (columns r))).
    now rewrite GroupFacts.filter_filter. }
  unfold street_stats. split; [| split; [| split]].
  - apply GroupFacts.sorted_map_street; [reflexivity | exact Hsorted].
  - intros s. rewrite map_map. cbn [street]. rewrite map_id, Hin, in_map_iff.
    split; intros (r & H1 & H2); exists r; auto.
  - intros g Hg. apply in_map_iff in Hg. destruct Hg as (s & <- & _).
    cbn [street count avg_price]. split; [apply Hcount |].
    unfold series_mean. now intros ->.
  - rewrite map_map. cbn [count].
    rewrite (map_ext _ _ Hcount).
    rewrite <- (GroupFacts.groups_cover street_name
                  (sorted (unique (map street_name filtered)))
                  (filter (fun r => negb (is_nan (resale_price (columns r))))
                     filtered) Hnd).
    + f_equal. apply map_ext. intros s. now rewrite GroupFacts.filter_filter,
        (filter_ext _ (fun a => negb (is_nan (resale_price (columns a)))
                                && (street_name a =? s)%string))
        by (intros a; apply andb_comm).
    + intros r Hr. apply filter_In in Hr. destruct Hr as [Hr _].
      apply Hin. now apply in_map.
Qed.

(** ** The displayed score *)

Module DisplayFacts.





Lemma astype_int_float_Ok (x : pyfloat) (z : Z) :
  astype_int_float x = Ok z -> finite x.
Proof. destruct x as [q | | |]; try discriminate. intros _. now exists q. Qed.



End DisplayFacts.



(** X21.  The conversion of the score column to integers succeeds exactly
    when every score in the top 20 is a number, and fails with [ValueError]
    otherwise.  So the NaN score of a table whose median price per sqm is 0
    stops the page at line 236. *)
Theorem top20_display_needs_numbers :
  (forall top,
     (exists zs, top20_display top = Ok zs)
     <-> Forall (fun r => finite (potential_score r)) top)
  /\ (forall top e, top20_display top = Raise e -> e = ValueError)
  /\ (forall out,
        top20 (score_table [Examples.free_flat]) out ->
        top20_display out = Raise ValueError).
Proof.
  split; [| split].
  - intros top. unfold top20_display. split.
    + intros [zs Hzs]. apply mapM_Forall2 in Hzs.
      induction Hzs as [| x z top zs Hx _ IH]; constructor; [| exact IH].
      now apply DisplayFacts.astype_int_float_Ok in Hx.
    + intros Hall. apply mapM_total. intros x Hx.
      rewrite Forall_forall in Hall. destruct (Hall x Hx) as [q ->].
      cbn [astype_int_float]. eauto.
  - intros top e H. unfold top20_display in H. apply mapM_exn in H.
    destruct H as (x & _ & Hx).
    destruct (potential_score x); cbn [astype_int_float] in Hx; congruence.
  - intros out (s & (Hperm & _) & ->).
    apply Permutation_length_1_inv in Hperm. subst s. reflexivity.
Qed.

(** ** Just below one million *)

Module BandFacts.

Lemma Qfloor_between (x : Q) (z : Z) :
  (inject_Z z <= x)%Q -> (x < inject_Z (z + 1))%Q -> Qfloor x = z.
Proof.
  intros Hlo Hhi.
  pose proof (Qfloor_le x) as Hle. pose proof (Qlt_floor x) as Hlt.
  assert (H1 : (inject_Z (Qfloor x) < inject_Z (z + 1))%Q)
    by (eapply Qle_lt_trans; eassumption).
  assert (H2 : (inject_Z z < inject_Z (Qfloor x + 1))%Q)
    by (eapply Qle_lt_trans; eassumption).
  rewrite <- Zlt_Qlt in H1, H2. lia.
Qed.

Lemma round_half_even_upper_half (x : Q) (z : Z) :
  Z.even z = false ->
  (inject_Z z + (1 # 2) <= x)%Q -> (x < inject_Z (z + 1))%Q ->
  round_half_even x = z + 1.
Proof.
  intros Hodd Hlo Hhi.
  assert (Hf : Qfloor x = z).
  { apply Qfloor_between; [| exact Hhi]. lra. }
  unfold round_half_even. rewrite Hf, Hodd.
  destruct (Qcompare_spec (x - inject_Z z) (1 # 2)); [reflexivity | lra |
    reflexivity].
Qed.

End BandFacts.

(** X22.  A price from 999,500 up to but not including 1,000,000 is below
    the threshold of the millions format and its thousands round up to 1000:
    it is shown as "$1000k", while 1,000,000 itself is shown as "$1.00M". *)
Theorem format_price_below_million (q : Q) :
  (999500 <= q)%Q -> (q < 1000000)%Q ->
  format_price (Fin q) = "$1000k"%string.
Proof.
  intros Hlo Hhi. unfold format_price.
  assert (Hge : (Fin q >=? of_Z 1000000)%F = false).
  { destruct (Fin q >=? of_Z 1000000)%F eqn:E; [| reflexivity].
    unfold geb in E. apply leb_Fin in E.
    change (inject_Z 1000000) with 1000000%Q in E. lra. }
  rewrite Hge, PriceFacts.div_round by lia.
  set (y := Qred (q / inject_Z 1000)).
  assert (Ey : (y == q / 1000)%Q) by (unfold y; apply Qred_correct).
  assert (Hy : (999 + (1 # 2) <= y)%Q /\ (y < 1000)%Q).
  { rewrite Ey. split.
    - apply Qle_shift_div_l; lra.
    - apply Qlt_shift_div_r; lra. }
  assert (Elo : (inject_Z (1999 * 2 ^ 42) * Binary64.pow2 (9 - 52)
                 == 999 + (1 # 2))%Q) by (vm_compute; reflexivity).
  assert (Ehi : (inject_Z (1000 * 2 ^ 43) * Binary64.pow2 (9 - 52)
                 == 1000)%Q) by (vm_compute; reflexivity).
  assert (E9 : (Binary64.pow2 9 == 512)%Q) by reflexivity.
  assert (E10 : (Binary64.pow2 (9 + 1) == 1024)%Q) by reflexivity.
  destruct (B64Round.round_between y 9 (1999 * 2 ^ 42) (1000 * 2 ^ 43))
    as (x & Ex & Hx1 & Hx2).
  { rewrite E9. clearbody y. lra. }
  { rewrite E10. clearbody y. lra. }
  { lia. }
  { rewrite Elo. apply Hy. }
  { rewrite Ehi. apply Qlt_le_weak, Hy. }
  rewrite Elo in Hx1. rewrite Ehi in Hx2. rewrite Ex.
  cbn [format_fixed].
  assert (Hpos : (0 <= x)%Q) by lra.
  assert (Hneg : Qneg x = false).
  { destruct (Qneg x) eqn:E; [| reflexivity]. apply Qneg_true in E. lra. }
  assert (Hround : round_half_even (Qabs x * inject_Z (10 ^ Z.of_nat 0)) = 1000).
  { rewrite (RoundFacts.round_half_even_comp _ x).
    - destruct (Qlt_le_dec x 1000) as [L | G].
      + apply (BandFacts.round_half_even_upper_half x 999);
          [reflexivity | exact Hx1 | exact L].
      + assert (H : 1000 <= round_half_even x <= 1000).
        { apply B64Round.round_half_even_between; [exact G | exact Hx2]. }
        lia.
    - rewrite Qabs_pos by exact Hpos.
      change (inject_Z (10 ^ Z.of_nat 0)) with 1%Q. ring. }
  rewrite Hneg, Hround. reflexivity.
Qed.

(** The theorem applies to 999,500 and to 999,999.99. *)
Lemma format_price_below_million_witness :
  format_price (Fin 999500) = "$1000k"%string
  /\ format_price (Fin (99999999 # 100)) = "$1000k"%string.
Proof.
  split.
  - apply (format_price_below_million 999500); unfold Qle, Qlt; simpl; lia.
  - apply (format_price_below_million (99999999 # 100));
      unfold Qle, Qlt; simpl; lia.
Defined.

(** ** The page as first shown *)

Module SidebarFacts.

Lemma fold_Zmax_spec (ms : list Z) (m : Z) :
  In (fold_left Z.max ms m) (m :: ms)
  /\ forall x, In x (m :: ms) -> x <= fold_left Z.max ms m.
Proof.
  revert m. induction ms as [| y ms IH]; intros m; cbn [fold_left].
  - split; [now left | intros x [<- | []]; lia].
  - destruct (IH (Z.max m y)) as [Hin Hall]. split.
    + destruct Hin as [E | Hin]; [| right; now right].
      rewrite <- E. destruct (Z.max_spec m y) as [[_ ->] | [_ ->]];
        [right; now left | now left].
    + intros x Hx.
      assert (Hm : Z.max m y <= fold_left Z.max ms (Z.max m y))
        by (apply Hall; now left).
      destruct Hx as [<- | [<- | Hx]]; [lia | lia | apply Hall; now right].
Qed.

Lemma latest_month_spec (df : list Listing) :
  df <> [] ->
  exists latest,
    latest_month df = Some latest
    /\ (exists r, In r df /\ month r = latest)
    /\ forall r, In r df -> month r <= latest.
Proof.
  intros Hne. unfold latest_month.
  destruct (map month df) as [| m ms] eqn:E.
  - destruct df; [contradiction | discriminate].
  - exists (fold_left Z.max ms m). split; [reflexivity |].
    destruct (fold_Zmax_spec ms m) as [Hin Hall]. rewrite <- E in Hin, Hall.
    split.
    + apply in_map_iff in Hin. destruct Hin as (r & Er & Hr). eauto.
    + intros r Hr. apply Hall. now apply in_map.
Qed.

Lemma int_slider_spans (f : Listing -> Z) (df : list Listing) :
  df <> [] ->
  exists lo hi,
    slider_default (map (fun r => of_Z (f r)) df) = Ok (lo, hi)
    /\ forall r, In r df -> between (f r) lo hi = true.
Proof.
  intros Hne.
  destruct (SliderFacts.slider_default_ints (map f df)) as (lo & hi & E & _ & _ & H).
  { destruct df; [contradiction | discriminate]. }
  rewrite map_map in E. exists lo, hi. split; [exact E |].
  intros r Hr. apply FilterFacts.between_spec. apply H. now apply in_map.
Qed.

Lemma selectbox_default (x : string) (options : list string) (i : nat) :
  index x options = Ok i -> nth i options ""%string = x.
Proof.
  intros H. apply StrFacts.index_Ok in H. destruct H as [H _].
  now apply nth_error_nth.
Qed.

End SidebarFacts.

(** X23.  The page as first shown (no session state, no widget touched), on
    a table that has a row in Bukit Merah and a four-room row.  The sidebar
    is created without error; the filter then keeps exactly the rows in
    Bukit Merah (in any letter case) of type 4 ROOM whose flat model is a
    default model, whose floor area is within the slider's starting range,
    and which were sold in the month of the latest sale or one of the twelve
    months before it.  The storey and lease ranges exclude no row. *)
Theorem first_view (selectbox : string -> list string -> nat -> string)
    (button : string -> bool) (checkbox : nat -> string -> bool -> bool)
    (slider : string -> Z -> Z -> Z * Z -> Z * Z)
    (date_input : string -> Z * Z -> Z * Z)
    (df : list Listing) (lo hi : Z) :
  (forall label options i, selectbox label options i = nth i options ""%string) ->
  (forall label, button label = false) ->
  (forall col label value, checkbox col label value = value) ->
  (forall label a b value, slider label a b value = value) ->
  (forall label value, date_input label value = value) ->
  (exists r, In r df /\ town r = "BUKIT MERAH"%string) ->
  (exists r, In r df /\ flat_type r = "4 ROOM"%string) ->
  floor_area_slider df = Ok (lo, hi) ->
  exists s latest,
    sidebar selectbox button checkbox slider date_input None df = Ok s
    /\ latest_month df = Some latest
    /\ (exists r, In r df /\ month r = latest)
    /\ forall r,
         In r (filter_data s df)
         <-> In r df
             /\ upper (town r) = "BUKIT MERAH"%string
             /\ upper (flat_type r) = "4 ROOM"%string
             /\ In (flat_model r) default_flat_models
             /\ between_float (floor_area_sqm (columns r)) lo hi = true
             /\ latest - 12 <= month r.
Proof.
  intros Hselect Hbutton Hcheck Hslider Hdate (rt & Hrt & Et) (rf & Hrf & Ef)
    Harea.
  assert (Hne : df <> []) by (intros ->; destruct Hrt).
  destruct (StrFacts.index_In default_town (town_options df)) as [i Hi].
  { apply StrFacts.options_spec, in_map_iff. eauto. }
  destruct (StrFacts.index_In default_flat_type (flat_type_options df))
    as [j Hj].
  { apply StrFacts.options_spec, in_map_iff. eauto. }
  destruct (SidebarFacts.int_slider_spans
              (fun r => storey_floor (columns r)) df Hne)
    as (slo & shi & Hstorey & Hstoreys).
  destruct (SidebarFacts.int_slider_spans
              (fun r => remaining_lease_years (columns r)) df Hne)
    as (llo & lhi & Hlease & Hleases).
  destruct (SidebarFacts.latest_month_spec df Hne)
    as (latest & Hlatest & Hattained & Hmonths).
  eexists. exists latest. split; [| split; [exact Hlatest |
                                             split; [exact Hattained |]]].
  - unfold sidebar, town_index, flat_type_index, storey_slider, lease_slider.
    unfold town_index in Hi. unfold flat_type_index in Hj.
    rewrite Hi, Hj, Hstorey, Harea, Hlease, Hlatest. cbn [bind].
    rewrite !Hselect, !Hbutton, !Hslider, Hdate.
    rewrite (SidebarFacts.selectbox_default _ _ _ Hi).
    rewrite (SidebarFacts.selectbox_default _ _ _ Hj).
    reflexivity.
  - intros r. unfold filter_data. rewrite filter_In. unfold mask.
    cbn [Sidebar.town Sidebar.flat_type Sidebar.selected_flat_models
         Sidebar.storey_range Sidebar.floor_area_range Sidebar.lease_range
         Sidebar.month_range fst snd].
    unfold selected_flat_models. cbv zeta.
    rewrite (TileFacts.tiles_untouched checkbox) by exact Hcheck.
    rewrite TileFacts.filter_mem_filter.
    rewrite !andb_true_iff, !String.eqb_eq, FilterFacts.mem_In, filter_In,
      FilterFacts.mem_In, !FilterFacts.between_spec.
    change (upper default_town) with "BUKIT MERAH"%string.
    change (upper default_flat_type) with "4 ROOM"%string.
    split.
    + intros (Hr & (((((Ht & Hf) & (_ & Hm)) & _) & Ha) & _) & Hmo).
      repeat split; try assumption. lia.
    + intros (Hr & Ht & Hf & Hm & Ha & Hmo).
      pose proof (Hstoreys r Hr) as Hs. apply FilterFacts.between_spec in Hs.
      pose proof (Hleases r Hr) as Hl. apply FilterFacts.between_spec in Hl.
      pose proof (Hmonths r Hr) as Hle.
      assert (Hopt : In (flat_model r) (flat_model_options df)).
      { apply StrFacts.options_spec. now apply in_map. }
      repeat split; try assumption; lia.
Qed.

(** The theorem applies to the three sales with every widget untouched. *)
Lemma first_view_witness :
  exists s latest,
    sidebar Samples.selectbox_untouched Samples.button_untouched
      Samples.untouched Samples.slider_untouched Samples.date_input_untouched
      None Samples.df3 = Ok s
    /\ latest_month Samples.df3 = Some latest
    /\ (exists r, In r Samples.df3 /\ month r = latest)
    /\ forall r,
         In r (filter_data s Samples.df3)
         <-> In r Samples.df3
             /\ upper (town r) = "BUKIT MERAH"%string
             /\ upper (flat_type r) = "4 ROOM"%string
             /\ In (flat_model r) default_flat_models
             /\ between_float (floor_area_sqm (columns r)) 60 120 = true
             /\ latest - 12 <= month r.
Proof.
  apply (first_view Samples.selectbox_untouched Samples.button_untouched
           Samples.untouched Samples.slider_untouched
           Samples.date_input_untouched Samples.df3 60 120).
  - reflexivity.
  - reflexivity.
  - reflexivity.
  - reflexivity.
  - reflexivity.
  - exists Samples.saleA. split; [left; reflexivity | reflexivity].
  - exists Samples.saleA. split; [left; reflexivity | reflexivity].
  - reflexivity.
Defined.

(** X24.  Every lease bucket a row can be given has a colour in the palette
    of the charts, and rows of different buckets get different colours. *)
Theorem palette_covers_buckets (x y : Z) :
  (exists c, lookup (lease_bucket x) color_palette = Some c)
  /\ (lookup (lease_bucket x) color_palette
      = lookup (lease_bucket y) color_palette
      -> lease_bucket x = lease_bucket y).
Proof.
  unfold lease_bucket.
  destruct (x >=? 81), (x >=? 61), (y >=? 81), (y >=? 61);
    (split; [eexists; reflexivity | cbv; congruence]).
Qed.

(** ** Floor-area bins as text *)

Module LabelFacts.

Lemma lacks_app (c : ascii) (s t : string) :
  lacks c (s ++ t) = lacks c s && lacks c t.
Proof.
  induction s as [| x s IH]; [reflexivity |].
  cbn [append lacks]. now rewrite IH, andb_assoc.
Qed.

Lemma digits_lack (c : ascii) (s : string) :
  is_digit c = false -> all_digits s = true -> lacks c s = true.
Proof.
  intros Hc. induction s as [| x s IH]; [reflexivity |].
  cbn [all_digits lacks]. intros H. apply andb_true_iff in H.
  destruct H as [Hx Hs]. rewrite (IH Hs), andb_true_r.
  destruct (Ascii.eqb_spec x c) as [-> | _]; [congruence | reflexivity].
Qed.

(** Text up to the first [c] is read back in one way only. *)
Lemma split_at (c : ascii) (s1 s2 r1 r2 : string) :
  lacks c s1 = true -> lacks c s2 = true ->
  (s1 ++ String c r1 = s2 ++ String c r2)%string ->
  s1 = s2 /\ r1 = r2.
Proof.
  revert s2. induction s1 as [| x s1 IH]; intros s2 H1 H2 E.
  - destruct s2 as [| y s2]; cbn [append] in E.
    + injection E as <-. auto.
    + injection E as <- _. cbn [lacks] in H2.
      rewrite Ascii.eqb_refl in H2. discriminate.
  - destruct s2 as [| y s2]; cbn [append] in E.
    + injection E as -> _. cbn [lacks] in H1.
      rewrite Ascii.eqb_refl in H1. discriminate.
    + injection E as <- E. cbn [lacks] in H1, H2.
      apply andb_true_iff in H1, H2.
      destruct (IH s2 (proj2 H1) (proj2 H2) E) as [-> ->]. auto.
Qed.

Lemma digits_inj (a b : Z) : 0 <= a -> 0 <= b -> digits a = digits b -> a = b.
Proof.
  intros Ha Hb E.
  destruct (digits_spec a Ha) as (_ & _ & Va).
  destruct (digits_spec b Hb) as (_ & _ & Vb). congruence.
Qed.

Lemma digits_head (a : Z) :
  0 <= a -> exists c s, digits a = String c s /\ is_digit c = true.
Proof.
  intros Ha. destruct (digits_spec a Ha) as (Hne & Hall & _).
  destruct (digits a) as [| c s]; [contradiction |].
  cbn [all_digits] in Hall. apply andb_true_iff in Hall.
  exists c, s. split; [reflexivity | apply Hall].
Qed.

Lemma int_str_lacks (c : ascii) (z : Z) :
  is_digit c = false -> Ascii.eqb "-"%char c = false ->
  lacks c (int_str z) = true.
Proof.
  intros Hc Hm. unfold int_str. destruct (Z.ltb_spec z 0).
  - cbn [append lacks]. rewrite Hm. cbn [negb andb].
    apply digits_lack; [exact Hc |]. apply digits_spec. lia.
  - apply digits_lack; [exact Hc |]. now apply digits_spec.
Qed.

Lemma int_str_inj (a b : Z) : int_str a = int_str b -> a = b.
Proof.
  unfold int_str.
  destruct (Z.ltb_spec a 0) as [Ha | Ha], (Z.ltb_spec b 0) as [Hb | Hb];
    intros E.
  - cbn [append] in E. injection E as E.
    apply digits_inj in E; lia.
  - destruct (digits_head b Hb) as (c & s & Eb & Hc). rewrite Eb in E.
    cbn [append] in E. injection E as <- _. discriminate.
  - destruct (digits_head a Ha) as (c & s & Ea & Hc). rewrite Ea in E.
    cbn [append] in E. injection E as -> _. discriminate.
  - now apply digits_inj.
Qed.

End LabelFacts.

(** X25.  The text of a floor-area bin tells the bin: two cells of
    [floor_bin_str] are equal only when the rows are in the same bin or both
    in none, and no bin is written as "nan".  Grouping the box and violin
    plots by the text is grouping by the bin. *)
Theorem floor_bin_str_injective (a b : option (Z * Z)) :
  (floor_bin_str a = floor_bin_str b -> a = b)
  /\ (floor_bin_str a = "nan"%string <-> a = None).
Proof.
  assert (Hcomma : forall z, lacks ","%char (int_str z) = true)
    by (intros z; now apply LabelFacts.int_str_lacks).
  assert (Hbracket : forall z, lacks "]"%char (int_str z) = true)
    by (intros z; now apply LabelFacts.int_str_lacks).
  assert (Hinj : forall x y, interval_str x = interval_str y -> x = y).
  { intros [l1 r1] [l2 r2]. unfold interval_str. cbn [fst snd append].
    intros E. injection E as E.
    apply LabelFacts.split_at in E; [| apply Hcomma | apply Hcomma].
    destruct E as [El E]. injection E as E.
    apply LabelFacts.split_at in E; [| apply Hbracket | apply Hbracket].
    destruct E as [Er _].
    apply LabelFacts.int_str_inj in El, Er. now subst. }
  split.
  - destruct a as [x |], b as [y |]; cbn [floor_bin_str]; intros E.
    + f_equal. now apply Hinj.
    + unfold interval_str in E. discriminate.
    + unfold interval_str in E. discriminate.
    + reflexivity.
  - destruct a as [x |]; cbn [floor_bin_str].
    + unfold interval_str. split; discriminate.
    + tauto.
Qed.
